(** * FITS file handling (libs/astro): header cards, header store, pixel codec

    A shallow embedding of the FITS utilities of [sphcart.c] (the part that
    carries the RCS name fits.c) and the properties of its header store,
    card formatter/parser, block I/O and pixel codec.

    Conventions of the embedding:
    - a [char] is an [ascii]; a buffer or C string is a [list ascii]; where
      the C code reads a NUL-terminated string the model reads the list up
      to its first NUL ([cstr]);
    - a C [int] is a [Z]; 16- and 32-bit memory words are [Z] with the
      wrap-around written out, and so are the products of image sizes, the
      int that [atoi] makes of the digits of a card, and the loop counter
      of [getNAXIS]; counts of rows and of bytes moved, which the memory at
      hand bounds, are not wrapped;
    - the array [fip->var] and its count [fip->nvar] are one list of rows,
      and [var] is NULL exactly when the list is empty: [initFImage],
      [resetFImage] and the functions that add rows keep it so; the one
      call that does not, [delFImageVar] on the only row of a store, ends
      in a state of its own ([DelEmptied]) and gives no descriptor;
    - the operating system (malloc, read, write) is a [World] of scripted
      outcomes threaded through the calls by the monad [M];
    - doubles have no model of their own: what the code does with them
      (the conversion of an int, the quotient, the text "%.*G" makes, the
      number [atof] reads) is a parameter of the definitions that need it.
      The functions of the file that are made of double arithmetic or of
      calls into other files ([sphcart], [cartsph], [setFWHMFITS],
      [timeStampFITS]) are not embedded. *)

From Stdlib Require Import ZArith Ascii String DecimalString SpecFloat Lia.
From Stdlib Require Import DecimalFacts DecimalPos DecimalN DecimalZ.
From stdpp Require Import base tactics option list strings.

(** ** Characters, C strings and the printf conversions the code uses *)

Definition NUL : ascii := Ascii.zero.
Definition SP : ascii := " "%char.
Definition QUOTE : ascii := "'"%char.

Definition chars (s : string) : list ascii := list_ascii_of_string s.

(** The characters of the C string that starts at [p]: up to the first NUL
    (the end of the modelled memory counts as one). *)
Fixpoint cstr (p : list ascii) : list ascii :=
  match p with
  | [] => []
  | c :: p' => if decide (c = NUL) then [] else c :: cstr p'
  end.

Definition strlen (p : list ascii) : nat := length (cstr p).

(** [p[k]], NUL past the end of the modelled memory. *)
Definition peek (p : list ascii) (k : nat) : ascii := default NUL (p !! k).

(** Minimum field width, left ("%-ws") and right ("%ws") justified. *)
Definition ljust (w : nat) (s : list ascii) : list ascii :=
  s ++ replicate (w - length s) SP.
Definition rjust (w : nat) (s : list ascii) : list ascii :=
  replicate (w - length s) SP ++ s.

(** "%-w.ps": at most [p] characters of the string, left justified in [w]. *)
Definition fmt_ls (w p : nat) (s : list ascii) : list ascii :=
  ljust w (take p (cstr s)).

(** "%*s" with the int width [w]: a negative width asks for left
    justification in [-w]. *)
Definition fmt_star_s (w : Z) (s : list ascii) : list ascii :=
  if (w <? 0)%Z then ljust (Z.to_nat (- w)) (cstr s)
  else rjust (Z.to_nat w) (cstr s).

(** "%d". *)
Definition fmt_d (v : Z) : list ascii :=
  chars (NilZero.string_of_int (Z.to_int v)).
Definition show_d (v : Z) : string := NilZero.string_of_int (Z.to_int v).

(** [strncmp (a, b, n) == 0]: the first [n] characters agree, or the two
    strings agree up to a common NUL met earlier. *)
Fixpoint strncmp_eq (n : nat) (a b : list ascii) : bool :=
  match n with
  | O => true
  | S n' =>
      let x := hd NUL a in
      let y := hd NUL b in
      if decide (x = y)
      then if decide (x = NUL) then true else strncmp_eq n' (tl a) (tl b)
      else false
  end.

(** Conversion of an int expression to unsigned short, to unsigned int, and
    the int a 32-bit word holds. *)
Definition to_ushort (z : Z) : Z := (z mod 65536)%Z.
Definition to_uint (z : Z) : Z := (z mod 4294967296)%Z.
Definition to_int (z : Z) : Z :=
  ((z + 2147483648) mod 4294967296 - 2147483648)%Z.

(** [atoi]: optional white space, an optional sign, then decimal digits,
    as [(int) strtol (p, NULL, 10)] has it where a long is 64 bits: the
    number is kept within a long, and the int is what its low 32 bits hold.
    (The C standard leaves a number outside the range of int to the
    library; this is what the GNU library does.) *)
Definition isspace (c : ascii) : bool :=
  let n := nat_of_ascii c in (n =? 32) || ((9 <=? n) && (n <=? 13)).
Definition isdigit (c : ascii) : bool :=
  let n := nat_of_ascii c in (48 <=? n) && (n <=? 57).

Fixpoint skip_space (p : list ascii) : list ascii :=
  match p with
  | c :: p' => if isspace c then skip_space p' else p
  | [] => []
  end.

Fixpoint digits_value (acc : Z) (p : list ascii) : Z :=
  match p with
  | c :: p' =>
      if isdigit c
      then digits_value (10 * acc + Z.of_nat (nat_of_ascii c - 48)) p'
      else acc
  | [] => acc
  end.

Definition strtol (p : list ascii) : Z :=
  let v :=
    match skip_space p with
    | c :: p' =>
        if decide (c = "-"%char) then (- digits_value 0 p')%Z
        else if decide (c = "+"%char) then digits_value 0 p'
        else digits_value 0 (c :: p')
    | [] => 0%Z
    end in
  Z.max (-9223372036854775808) (Z.min v 9223372036854775807).

Definition atoi (p : list ascii) : Z := to_int (strtol p).

(** ** The image descriptor *)

(** Modelled from the spec: fits.h is not among the sources; a header block
    is 36 cards of 80 bytes (2880 bytes). *)
Definition FITS_HROWS : nat := 36.
Definition FITS_HCOLS : nat := 80.

(** Modelled from the spec: [typedef char FITSRow[FITS_HCOLS]] of the
    missing fits.h, one 80-column card; [wf_row] is its size. *)
Definition FITSRow : Type := list ascii.
Definition wf_row (r : FITSRow) : Prop := length r = FITS_HCOLS.

(** Modelled from the spec: the [FImage] struct of the missing fits.h, with
    the fields the code uses. [var] stands for the pair [var]/[nvar];
    [image] is NULL ([None]) or the buffer of native unsigned shorts. *)
Record FImage : Type := mkFImage {
  var : list FITSRow;
  sw : Z;  sh : Z;
  sx : Z;  sy : Z;
  bx : Z;  by_ : Z;
  dur : Z;
  bitpix : Z;
  image : option (list Z)
}.

Definition nvar (fip : FImage) : nat := length (var fip).

Definition set_var (fip : FImage) (v : list FITSRow) : FImage :=
  mkFImage v (sw fip) (sh fip) (sx fip) (sy fip) (bx fip) (by_ fip)
           (dur fip) (bitpix fip) (image fip).
Definition set_image (fip : FImage) (i : option (list Z)) : FImage :=
  mkFImage (var fip) (sw fip) (sh fip) (sx fip) (sy fip) (bx fip) (by_ fip)
           (dur fip) (bitpix fip) i.
Definition set_bitpix (fip : FImage) (v : Z) : FImage :=
  mkFImage (var fip) (sw fip) (sh fip) (sx fip) (sy fip) (bx fip) (by_ fip)
           (dur fip) v (image fip).
Definition set_size (fip : FImage) (w h : Z) : FImage :=
  mkFImage (var fip) w h (sx fip) (sy fip) (bx fip) (by_ fip)
           (dur fip) (bitpix fip) (image fip).
Definition set_bx (fip : FImage) (v : Z) : FImage :=
  mkFImage (var fip) (sw fip) (sh fip) (sx fip) (sy fip) v (by_ fip)
           (dur fip) (bitpix fip) (image fip).
Definition set_by (fip : FImage) (v : Z) : FImage :=
  mkFImage (var fip) (sw fip) (sh fip) (sx fip) (sy fip) (bx fip) v
           (dur fip) (bitpix fip) (image fip).
Definition set_sx (fip : FImage) (v : Z) : FImage :=
  mkFImage (var fip) (sw fip) (sh fip) v (sy fip) (bx fip) (by_ fip)
           (dur fip) (bitpix fip) (image fip).
Definition set_sy (fip : FImage) (v : Z) : FImage :=
  mkFImage (var fip) (sw fip) (sh fip) (sx fip) v (bx fip) (by_ fip)
           (dur fip) (bitpix fip) (image fip).
Definition set_dur (fip : FImage) (v : Z) : FImage :=
  mkFImage (var fip) (sw fip) (sh fip) (sx fip) (sy fip) (bx fip) (by_ fip)
           v (bitpix fip) (image fip).

Definition wf_store (fip : FImage) : Prop := Forall wf_row (var fip).

(** [initFImage]: every field zero, the binning factors one. *)
Definition initFImage : FImage :=
  mkFImage [] 0 0 0 0 1 1 0 0 None.

(** ** The operating system: scripted outcomes of malloc, read and write *)

Inductive read_event : Type :=
  | RdFail (strerror : string)      (* read returns -1 *)
  | RdData (bytes : list ascii).    (* read returns these bytes *)

Inductive write_event : Type :=
  | WrFail (strerror : string)      (* write returns -1 *)
  | WrTake (k : nat).               (* write accepts at most k bytes *)

(** [allocs]: whether each coming malloc/realloc succeeds (all do once the
    script is used up); [input]: what each coming read returns (end of file
    once used up); [wscript]: what each coming write does (writes everything
    once used up); [output]: the bytes written so far; [live]: the number of
    heap blocks held. *)
Record World : Type := mkWorld {
  allocs : list bool;
  input : list read_event;
  wscript : list write_event;
  output : list ascii;
  live : Z
}.

Definition M (A : Type) : Type := World -> A * World.
Definition ret {A} (a : A) : M A := fun w => (a, w).
Definition bind {A B} (c : M A) (k : A -> M B) : M B :=
  fun w => let (a, w') := c w in k a w'.

Notation "x <- c ;; k" := (bind c (fun x => k))
  (at level 100, c at next level, right associativity).
Notation "c ;;; k" := (bind c (fun _ => k))
  (at level 100, right associativity).

Definition next_alloc (w : World) : bool := hd true (allocs w).

(** malloc: true when memory was obtained. *)
Definition sys_malloc : M bool := fun w =>
  let ok := next_alloc w in
  (ok, mkWorld (tl (allocs w)) (input w) (wscript w) (output w)
               (if ok then live w + 1 else live w)%Z).

(** realloc of a held block: the block count does not change either way. *)
Definition sys_realloc : M bool := fun w =>
  (next_alloc w,
   mkWorld (tl (allocs w)) (input w) (wscript w) (output w) (live w)).

(** free of a held block. *)
Definition sys_free : M unit := fun w =>
  (tt, mkWorld (allocs w) (input w) (wscript w) (output w) (live w - 1)%Z).

(** ** Header store *)

(** [sprintf (field, "%-8.8s", name)]. *)
Definition field (name : list ascii) : list ascii := fmt_ls 8 8 name.

Definition bears (name : list ascii) (row : FITSRow) : Prop :=
  strncmp_eq 8 (field name) row = true.

#[global] Instance bears_dec name row : Decision (bears name row) :=
  decide (strncmp_eq 8 (field name) row = true).

(** [findFImageVar]: the index of the first row whose keyword is [name]. *)
Definition findFImageVar (fip : FImage) (name : list ascii) : option nat :=
  fst <$> list_find (bears name) (var fip).

(** The memory [rp] points to: row [i] and the rows after it, which lie
    behind it in the array. *)
Definition row_mem (fip : FImage) (i : nat) : list ascii :=
  concat (drop i (var fip)).

(** [addFImageVar]: grow the array by one row and copy [FITS_HCOLS] bytes of
    [row] into the new last position; when there is no memory the store is
    left as it is. *)
Definition addFImageVar (fip : FImage) (row : list ascii) : M FImage :=
  mem <- (match var fip with [] => sys_malloc | _ => sys_realloc end) ;;
  if mem : bool
  then ret (set_var fip (var fip ++ [take FITS_HCOLS row]))
  else ret fip.

(** ** Card formatter *)

(** [fmtInlineComment]: the final 50 characters of the line. *)
Definition fmtInlineComment (line : list ascii)
    (comment : option (list ascii)) : list ascii :=
  let buf :=
    match comment with
    | Some c => chars " / " ++ fmt_ls 47 47 c
    | None => rjust 50 []
    end in
  take 30 line ++ take (FITS_HCOLS - 30) buf.

(** [fmtLogicalFITS]: F or T in column 30. *)
Definition fmtLogicalFITS (name : list ascii) (value : Z)
    (comment : option (list ascii)) : FITSRow :=
  fmtInlineComment
    (field name ++ chars "=" ++ rjust 20 []
       ++ [if decide (value = 0%Z) then "F"%char else "T"%char])
    comment.

(** [fmtIntFITS]: the int right justified in columns 11-30. *)
Definition fmtIntFITS (name : list ascii) (value : Z)
    (comment : option (list ascii)) : FITSRow :=
  let str := fmt_d value in
  let strl := Z.of_nat (strlen str) in
  fmtInlineComment
    (field name ++ chars "= " ++ fmt_star_s (20 - strl) [] ++ cstr str)
    comment.

(** [fmtStringFITS]: a quote in column 11, the value in at least 8 and at
    most 68 columns, the closing quote, and the comment when it fits. *)
Definition fmtStringFITS (name value : list ascii)
    (comment : option (list ascii)) : FITSRow :=
  let l0 := strlen value in
  let l := if l0 <? 8 then 8 else if 68 <? l0 then 68 else l0 in
  let lline :=
    field name ++ chars "= '" ++ fmt_ls l l value ++ chars "'"
      ++ fmt_star_s (80 - 12 - Z.of_nat l) [] in
  let lline :=
    match comment with
    | Some c =>
        if l <? 80 - 3 - 12
        then
          let start := if 12 + l <? 30 then 30 else 12 + l in
          take start lline ++ chars " / "
            ++ fmt_ls (80 - 3 - start) (80 - 3 - start) c
        else lline
    | None => lline
    end in
  take FITS_HCOLS lline.

(** [fmtENDFITS]: END and 77 blanks. *)
Definition fmtENDFITS : FITSRow :=
  take 79 (ljust 79 (cstr (chars "END"))) ++ [SP].

(** ** Field setters *)

(** [setLogicalFITS], [setIntFITS], [setStringFITS]: format into the first
    row that bears [name], or into a fresh row that is then added. *)
Definition setLogicalFITS (fip : FImage) (name : list ascii) (v : Z)
    (comment : option (list ascii)) : M FImage :=
  match findFImageVar fip name with
  | Some i => ret (set_var fip (<[i := fmtLogicalFITS name v comment]> (var fip)))
  | None => addFImageVar fip (fmtLogicalFITS name v comment)
  end.

Definition setIntFITS (fip : FImage) (name : list ascii) (v : Z)
    (comment : option (list ascii)) : M FImage :=
  match findFImageVar fip name with
  | Some i => ret (set_var fip (<[i := fmtIntFITS name v comment]> (var fip)))
  | None => addFImageVar fip (fmtIntFITS name v comment)
  end.

Definition setStringFITS (fip : FImage) (name string : list ascii)
    (comment : option (list ascii)) : M FImage :=
  match findFImageVar fip name with
  | Some i =>
      ret (set_var fip (<[i := fmtStringFITS name string comment]> (var fip)))
  | None => addFImageVar fip (fmtStringFITS name string comment)
  end.

(** [setCommentFITS]: the text in rows of 72 and then 68 columns, each added
    at the end. [n] is the loop variable, [l] the length of the text; the
    loop test is made at most [l + 1] times. *)
Fixpoint setCommentFITS_loop (fuel : nat) (fip : FImage)
    (name comment : list ascii) (n l : nat) : M FImage :=
  match fuel with
  | O => ret fip
  | S fuel' =>
      if n <? l
      then
        if n =? 0
        then
          fip' <- addFImageVar fip (field name ++ fmt_ls 72 72 comment) ;;
          setCommentFITS_loop fuel' fip' name comment (n + 72) l
        else
          fip' <- addFImageVar fip
                    (field name ++ chars "... "
                       ++ fmt_ls 68 68 (drop n comment)) ;;
          setCommentFITS_loop fuel' fip' name comment (n + 68) l
      else ret fip
  end.

Definition setCommentFITS (fip : FImage) (name comment : list ascii)
    : M FImage :=
  let l := strlen comment in
  setCommentFITS_loop (S l) fip name comment 0 l.

(** ** Field getters *)

(** [getLogicalFITS]: T or F (either case) in column 30. *)
Definition getLogicalFITS (fip : FImage) (name : list ascii) : option Z :=
  match findFImageVar fip name with
  | None => None
  | Some i =>
      let c := peek (row_mem fip i) 29 in
      if decide (c = "T"%char \/ c = "t"%char) then Some 1%Z
      else if decide (c = "F"%char \/ c = "f"%char) then Some 0%Z
      else None
  end.

(** [getIntFITS]: [atoi] from column 11 on; the value is an int. *)
Definition getIntFITS (fip : FImage) (name : list ascii) : option Z :=
  match findFImageVar fip name with
  | None => None
  | Some i => Some (atoi (drop 10 (row_mem fip i)))
  end.

(** [getCommentFITS]: 72 bytes of the row go to [buf]; the NUL goes to
    [rp[72]], a byte of the row in the store. Returns the store and the
    buffer as the call leaves them, [None] for -1. *)
Definition getCommentFITS (fip : FImage) (name : list ascii)
    (buf : list ascii) : option (FImage * list ascii) :=
  match findFImageVar fip name with
  | None => None
  | Some i =>
      let rp := row_mem fip i in
      let buf' := take 72 rp ++ drop 72 buf in
      let fip' :=
        set_var fip (alter (fun row => <[72 := NUL]> row) i (var fip)) in
      Some (fip', buf')
  end.

(** The blanks the loop of [getStringFITS] backs over before it writes the
    NUL: [string > string0 && string[-1] == ' ']. *)
Fixpoint strip_trailing (s : list ascii) : list ascii :=
  match s with
  | [] => []
  | c :: s' =>
      match strip_trailing s' with
      | [] => if decide (c = SP) then [] else [c]
      | r => c :: r
      end
  end.

(** The scan of [getStringFITS] over [rp[11]] .. [rp[FITS_HCOLS-1]]: [acc]
    is what has been copied to [string] so far. *)
Fixpoint getStringFITS_scan (cs acc : list ascii) : option (list ascii) :=
  match cs with
  | [] => None
  | c :: cs' =>
      if decide (c = QUOTE) then Some (strip_trailing acc)
      else getStringFITS_scan cs' (acc ++ [c])
  end.

(** [getStringFITS]: the characters left in [string] before its NUL, [None]
    for -1. *)
Definition getStringFITS (fip : FImage) (name : list ascii)
    : option (list ascii) :=
  match findFImageVar fip name with
  | None => None
  | Some i =>
      let rp := row_mem fip i in
      if decide (peek rp 10 = QUOTE)
      then getStringFITS_scan (take (FITS_HCOLS - 11) (drop 11 rp)) []
      else None
  end.

(** [getRealFITS] up to the call of [atof]: 30 bytes from column 11 as a C
    string, with the first D, or else the first d, turned into e. *)
Fixpoint replace_first (c d : ascii) (s : list ascii) : option (list ascii) :=
  match s with
  | [] => None
  | x :: s' =>
      if decide (x = c) then Some (d :: s')
      else cons x <$> replace_first c d s'
  end.

Definition getRealFITS_buf (fip : FImage) (name : list ascii)
    : option (list ascii) :=
  match findFImageVar fip name with
  | None => None
  | Some i =>
      let buf := cstr (take 30 (drop 10 (row_mem fip i))) in
      Some (match replace_first "D"%char "e"%char buf with
            | Some b => b
            | None => default buf (replace_first "d"%char "e"%char buf)
            end)
  end.

(** How a loop of the code ends: its test fails, it returns with a
    message, or it has not ended within the turns the model gave it. *)
Inductive loop_end : Type :=
  | LoopDone
  | LoopErr (errmsg : string)
  | LoopFuel.

(** The loop [for (i = 3; i <= n; i++)] of [getNAXIS] with its int
    counter: NAXISi must exist and be 1. After the largest int [i++] gives
    the least, as the two's complement machine leaves it; C leaves that
    overflow undefined, and the name "NAXIS-2147483648" with its NUL is one
    byte more than [naxisi] holds. *)
Fixpoint getNAXIS_loop (fuel : nat) (fip : FImage) (n i : Z) : loop_end :=
  match fuel with
  | O => LoopFuel
  | S fuel' =>
      if (i <=? n)%Z
      then
        let naxisi := chars "NAXIS" ++ fmt_d i in
        match getIntFITS fip naxisi with
        | None =>
            LoopErr ("NAXIS=" +:+ show_d n +:+ " but no "
                       +:+ string_of_list_ascii naxisi)
        | Some ni =>
            if decide (ni = 1%Z)
            then getNAXIS_loop fuel' fip n (to_int (i + 1))
            else LoopErr ("Require " +:+ string_of_list_ascii naxisi
                            +:+ " to be 1")
        end
      else LoopDone
  end.

(** The turns of that loop: with [n] below the largest int the test is made
    [n - 1] times at most, and once where that is less; with [n] the
    largest int the test never fails, so that the loop ends by a message or
    not at all, and after as many turns as there are ints it has met them
    all. *)
Definition getNAXIS_fuel (n : Z) : nat :=
  if (n <? 2147483647)%Z then S (Z.to_nat (n - 2))
  else Z.to_nat 4294967296.

(** [getNAXIS]: NAXIS must exist; NAXIS3 .. NAXISn must exist and be 1;
    NAXIS1 and NAXIS2 are returned. A call whose loop does not end has no
    result; it is shown as the failure with the empty message, which no
    call that returns gives. *)
Definition getNAXIS (fip : FImage) : string + Z * Z :=
  match getIntFITS fip (chars "NAXIS") with
  | None => inl "No NAXIS"
  | Some n =>
      match getNAXIS_loop (getNAXIS_fuel n) fip n 3 with
      | LoopErr errmsg => inl errmsg
      | LoopFuel => inl ""
      | LoopDone =>
          match getIntFITS fip (chars "NAXIS1") with
          | None => inl "No NAXIS1"
          | Some n1 =>
              match getIntFITS fip (chars "NAXIS2") with
              | None => inl "No NAXIS2"
              | Some n2 => inr (n1, n2)
              end
          end
      end
  end.

(** ** Machine words and the memory layout of the host *)

Definition BZERO : Z := 32768.

(** The product of two ints as the two's complement machine leaves it. *)
Definition int_mul (a b : Z) : Z := to_int (a * b).

Definition byte_val (c : ascii) : Z := Z.of_N (N_of_ascii c).
Definition byte_of (z : Z) : ascii := ascii_of_N (Z.to_N (z mod 256)).

Inductive endian : Type := LittleEndian | BigEndian.

(** The short, or the 32-bit word, that the host sees in consecutive
    bytes of memory, and the bytes it keeps such a word in. *)
Definition load16 (host : endian) (b0 b1 : ascii) : Z :=
  match host with
  | LittleEndian => (byte_val b0 + 256 * byte_val b1)%Z
  | BigEndian => (256 * byte_val b0 + byte_val b1)%Z
  end.

Definition store16 (host : endian) (v : Z) : list ascii :=
  match host with
  | LittleEndian => [byte_of v; byte_of (v / 256)]
  | BigEndian => [byte_of (v / 256); byte_of v]
  end.

Definition load32 (host : endian) (b0 b1 b2 b3 : ascii) : Z :=
  match host with
  | LittleEndian =>
      (byte_val b0 + 256 * byte_val b1 + 65536 * byte_val b2
       + 16777216 * byte_val b3)%Z
  | BigEndian =>
      (16777216 * byte_val b0 + 65536 * byte_val b1 + 256 * byte_val b2
       + byte_val b3)%Z
  end.

Fixpoint ushorts_of_bytes (host : endian) (mem : list ascii) : list Z :=
  match mem with
  | b0 :: b1 :: mem' => load16 host b0 b1 :: ushorts_of_bytes host mem'
  | _ => []
  end.

Fixpoint uints_of_bytes (host : endian) (mem : list ascii) : list Z :=
  match mem with
  | b0 :: b1 :: b2 :: b3 :: mem' =>
      load32 host b0 b1 b2 b3 :: uints_of_bytes host mem'
  | _ => []
  end.

Definition bytes_of_ushorts (host : endian) (a : list Z) : list ascii :=
  concat (map (store16 host) a).

(** [lendian]: the union of a short and two chars, with 1 in the first
    char and 0 in the second, reads 1 as a short. *)
Definition lendian (host : endian) : bool :=
  (load16 host (byte_of 1) (byte_of 0) =? 1)%Z.

(** ** Pixel codec *)

(** The loop [while (--npix >= 0)] of the four conversions: the first
    [npix] words of the array are replaced, each by [f] of itself. *)
Fixpoint pixel_loop (f : Z -> Z) (a : list Z) (npix : nat) : list Z :=
  match npix, a with
  | S n, p :: a' => f p :: pixel_loop f a' n
  | _, _ => a
  end.

(** The assignments to [*r0] in the two loops of [enFITSPixels]: on a
    little-endian host the two bytes of [p0] change places. *)
Definition en_pixel_le (r0 : Z) : Z :=
  let p0 := (r0 - BZERO)%Z in
  to_ushort (Z.lor (Z.land (Z.shiftl p0 8) 0xff00)
                   (Z.land (Z.shiftr p0 8) 0xff)).

Definition en_pixel_be (r0 : Z) : Z :=
  let p0 := (r0 - BZERO)%Z in
  to_ushort p0.

(** [enFITSPixels]: native unsigned shorts to big-endian signed. *)
Definition enFITSPixels (host : endian) (a : list Z) (npix : Z) : list Z :=
  if lendian host
  then pixel_loop en_pixel_le a (Z.to_nat npix)
  else pixel_loop en_pixel_be a (Z.to_nat npix).

(** The assignments to [*r0] in the two loops of [unFITSPixels]. *)
Definition un_pixel_le (r0 : Z) : Z :=
  let p0 := r0 in
  to_ushort (Z.lor (Z.shiftl p0 8) (Z.land (Z.shiftr p0 8) 0xff) + BZERO).

Definition un_pixel_be (r0 : Z) : Z :=
  let p0 := r0 in
  to_ushort (p0 + BZERO).

(** [unFITSPixels]: big-endian signed shorts to native unsigned. *)
Definition unFITSPixels (host : endian) (a : list Z) (npix : Z) : list Z :=
  if lendian host
  then pixel_loop un_pixel_le a (Z.to_nat npix)
  else pixel_loop un_pixel_be a (Z.to_nat npix).

(** The byte swap both 32-bit conversions do on a little-endian host; [p0]
    is the int the word holds. *)
Definition swap_int (p0 : Z) : Z :=
  Z.lor (Z.lor (Z.lor (Z.land (Z.shiftl p0 24) 0xFF000000)
                      (Z.land (Z.shiftl p0 8) 0x00FF0000))
               (Z.land (Z.shiftr p0 8) 0x0000FF00))
        (Z.land (Z.shiftr p0 24) 0x000000FF).

(** The assignments to [*r0] in the loops of [unFITSPixelsInt] and
    [unFITSPixelsFloat]. *)
Definition un_int_le (r0 : Z) : Z :=
  let p0 := to_int r0 in
  to_uint (swap_int p0 + BZERO).

Definition un_int_be (r0 : Z) : Z :=
  let p0 := to_int r0 in
  to_uint (p0 + BZERO).

Definition un_float_le (r0 : Z) : Z :=
  let p0 := to_int r0 in
  to_uint (swap_int p0).

(** [unFITSPixelsInt]: big-endian 32-bit ints, biased by BZERO. *)
Definition unFITSPixelsInt (host : endian) (a : list Z) (npix : Z) : list Z :=
  if lendian host
  then pixel_loop un_int_le a (Z.to_nat npix)
  else pixel_loop un_int_be a (Z.to_nat npix).

(** [unFITSPixelsFloat]: the byte swap alone, and nothing on a big-endian
    host. *)
Definition unFITSPixelsFloat (host : endian) (a : list Z) (npix : Z)
    : list Z :=
  if lendian host
  then pixel_loop un_float_le a (Z.to_nat npix)
  else a.

(** The float a 32-bit word holds (IEEE-754 binary32: sign, 8 bits of biased
    exponent, 23 bits of fraction), in the canonical form [SFcompare]
    expects. *)
Definition float_of_bits (w : Z) : spec_float :=
  let s := Z.testbit w 31 in
  let e := ((w / 8388608) mod 256)%Z in
  let m := (w mod 8388608)%Z in
  if (e =? 255)%Z
  then if (m =? 0)%Z then S754_infinity s else S754_nan
  else if (e =? 0)%Z
  then if (m =? 0)%Z then S754_zero s else S754_finite s (Z.to_pos m) (-149)
  else S754_finite s (Z.to_pos (8388608 + m)) (e - 150).

(** The ints 0 and 65535 as floats. *)
Definition float_0 : spec_float := S754_zero false.
Definition float_65535 : spec_float := S754_finite false 16776960 (-8).

(** [(unsigned short) value]: the fraction is discarded. C leaves the
    conversion of a NaN, of an infinity and of a value whose integral part
    is not an unsigned short undefined; the model yields 0 for the first two
    and wraps the third. *)
Definition ushort_of_float (f : spec_float) : Z :=
  match f with
  | S754_finite s m e =>
      let mag :=
        if (0 <=? e)%Z then (Z.pos m * 2 ^ e)%Z
        else (Z.pos m / 2 ^ (- e))%Z in
      to_ushort (if s then - mag else mag)
  | _ => 0%Z
  end.

(** The body of the float loop of [readFITS]: the two tests and the
    cast, and the whole on the word [w] of [imdata]. *)
Definition clamp_cast (value : spec_float) : Z :=
  let value := if SFltb value float_0 then float_0 else value in
  let value := if SFltb float_65535 value then float_65535 else value in
  ushort_of_float value.

Definition float_pixel (w : Z) : Z := clamp_cast (float_of_bits w).

(** ** Block I/O and the file-level operations *)

(** [read (fd, buf, count)]: at most [count] of the bytes that are there.
    With a buffer that was never obtained ([buf_ok] false) a call that has
    bytes to deliver fails instead (EFAULT). *)
Definition sys_read (buf_ok : bool) (count : nat) : M read_event := fun w =>
  match input w with
  | [] => (RdData [], w)
  | e :: rest =>
      (match e with
       | RdData bytes =>
           if buf_ok || bool_decide (take count bytes = [])
           then RdData (take count bytes) else RdFail "Bad address"
       | RdFail m => RdFail m
       end,
       mkWorld (allocs w) rest (wscript w) (output w) (live w))
  end.

(** [write (fd, buf, nbytes)]: -1 with a message, or the number of bytes
    taken. *)
Definition sys_write (buf : list ascii) : M (string + nat) := fun w =>
  match wscript w with
  | [] =>
      (inr (length buf),
       mkWorld (allocs w) (input w) [] (output w ++ buf) (live w))
  | WrFail m :: rest =>
      (inl m, mkWorld (allocs w) (input w) rest (output w) (live w))
  | WrTake k :: rest =>
      (inr (length (take k buf)),
       mkWorld (allocs w) (input w) rest (output w ++ take k buf) (live w))
  end.

(** Upper bounds on the number of turns of the transfer loops: each turn
    uses up one scripted outcome, or meets the end of the script. *)
Definition read_fuel : M nat := fun w => (S (length (input w)), w).
Definition write_fuel : M nat := fun w => (S (S (length (wscript w))), w).

Inductive status : Type :=
  | OK                      (* return 0 *)
  | ERR (errmsg : string).  (* return -1 with the message in errmsg *)

(** [resetFImage]: free what is held, then [initFImage]. *)
Definition resetFImage (fip : FImage) : M FImage :=
  (match var fip with [] => ret tt | _ => sys_free end) ;;;
  (match image fip with None => ret tt | Some _ => sys_free end) ;;;
  ret initFImage.

(** [writeFITSHeader]: var, END and blank rows up to a multiple of
    [FITS_HROWS], in one write. *)
Definition writeFITSHeader (fip : FImage) : M status :=
  let nvar := Z.of_nat (nvar fip) in
  let hrows := Z.of_nat FITS_HROWS in
  let npad := Z.rem (hrows - Z.rem (nvar + 1) hrows) hrows in
  let nbytes := Z.to_nat ((nvar + 1 + npad) * Z.of_nat FITS_HCOLS) in
  hdr <- sys_malloc ;;
  if hdr : bool
  then
    let buf :=
      concat (var fip) ++ fmtENDFITS
        ++ replicate (Z.to_nat npad * FITS_HCOLS) SP in
    nw <- sys_write (take nbytes buf) ;;
    sys_free ;;;
    match nw with
    | inl strerror => ret (ERR strerror)
    | inr nw =>
        if decide (nw = nbytes) then ret OK
        else ret (ERR "Short write of FITS header")
    end
  else
    ret (ERR ("Can not malloc " +:+ show_d (Z.of_nat nbytes)
                +:+ " for padded FITS header")).

(** The write loop of [pad_2880] over [padbuf]. *)
Fixpoint pad_2880_loop (fuel : nat) (padbuf : list ascii) (nw nbytes : Z)
    : M loop_end :=
  match fuel with
  | O => ret LoopFuel
  | S fuel' =>
      if (nw <? nbytes)%Z
      then
        n <- sys_write (take (Z.to_nat (nbytes - nw))
                          (drop (Z.to_nat nw) padbuf)) ;;
        match n with
        | inr (S n') =>
            pad_2880_loop fuel' padbuf (nw + Z.of_nat (S n')) nbytes
        | inr O =>
            if (nw <? 0)%Z then ret (LoopErr "")
            else ret (LoopErr ("Error adding padding of " +:+ show_d nbytes))
        | inl strerror =>
            if (nw <? 0)%Z then ret (LoopErr strerror)
            else ret (LoopErr ("Error adding padding of " +:+ show_d nbytes))
        end
      else ret LoopDone
  end.

(** [pad_2880]: zero bytes up to the next multiple of 2880. *)
Definition pad_2880 (nbytes : Z) : M status :=
  let nbytes := Z.rem (2880 - Z.rem nbytes 2880) 2880 in
  if decide (nbytes = 0%Z) then ret OK
  else
    let padbuf := replicate (Z.to_nat nbytes) NUL in
    fuel <- write_fuel ;;
    r <- pad_2880_loop fuel padbuf 0 nbytes ;;
    match r with
    | LoopDone => ret OK
    | LoopErr errmsg => ret (ERR errmsg)
    | LoopFuel => ret (ERR "")
    end.

(** What the pixel loop of [readFITS] leaves in [fip->image] for each of the
    three encodings: the words of [imdata] converted in place, then the
    first [npixels] of them narrowed to unsigned shorts. *)
Definition convert_pixels (host : endian) (bitpix npixels : Z)
    (imdata : list ascii) : list Z :=
  if decide (bitpix = 16%Z)
  then take (Z.to_nat npixels)
         (unFITSPixels host (ushorts_of_bytes host imdata) npixels)
  else if decide (bitpix = 32%Z)
  then take (Z.to_nat npixels)
         (map (fun v => to_ushort (to_int v))
            (unFITSPixelsInt host (uints_of_bytes host imdata) npixels))
  else if decide (bitpix = (-32)%Z)
  then take (Z.to_nat npixels)
         (map float_pixel
            (unFITSPixelsFloat host (uints_of_bytes host imdata) npixels))
  else [].

Section FileLevel.

(** The byte order of the machine the code runs on. *)
Variable host : endian.

(** [(int) (atof (buf) * 1000.0)], the exposure time in ms of a real header
    value; the floating point conversion is left to this function. *)
Variable atof_times_1000 : list ascii -> Z.

(** The loop of [readFITSHeader]: rows are read and, until END is seen,
    added; it ends on a whole number of blocks after END, or at the end of
    the file after END. *)
Fixpoint readFITSHeader_loop (fuel : nat) (fip : FImage) (nrows : Z)
    (sawend : bool) : M (loop_end * FImage) :=
  match fuel with
  | O => ret (LoopFuel, fip)
  | S fuel' =>
      s <- sys_read true FITS_HCOLS ;;
      match s with
      | RdFail strerror => ret (LoopErr strerror, fip)
      | RdData row =>
          if decide (length row = FITS_HCOLS)
          then
            let nrows := (nrows + 1)%Z in
            r <- (if sawend then ret (true, fip)
                  else if strncmp_eq 3 row (chars "END") then ret (true, fip)
                  else fip' <- addFImageVar fip row ;; ret (false, fip')) ;;
            let (sawend', fip') := r : bool * FImage in
            if negb sawend'
               || negb (Z.rem nrows (Z.of_nat FITS_HROWS) =? 0)%Z
            then readFITSHeader_loop fuel' fip' nrows sawend'
            else ret (LoopDone, fip')
          else if sawend then ret (LoopDone, fip)
          else ret (LoopErr "header is short", fip)
      end
  end.

(** The part of [readFITSHeader] after the loop: the required fields, then
    the optional ones. *)
Definition crack_fields (fip : FImage) : string + FImage :=
  match getLogicalFITS fip (chars "SIMPLE") with
  | None => inl "File must claim to be a SIMPLE image."
  | Some i =>
      if decide (i = 0%Z) then inl "File must claim to be a SIMPLE image."
      else
        match getIntFITS fip (chars "BITPIX") with
        | None => inl "File must include BITPIX value of 16, 32, or -32"
        | Some i =>
            if decide (i <> 16%Z /\ i <> 32%Z /\ i <> (-32)%Z)
            then inl "File must include BITPIX value of 16, 32, or -32"
            else
              let fip := set_bitpix fip i in
              match getNAXIS fip with
              | inl errmsg => inl errmsg
              | inr (n1, n2) =>
                  let fip := set_size fip n1 n2 in
                  let fip :=
                    match getIntFITS fip (chars "XFACTOR") with
                    | Some i => set_bx fip i
                    | None => fip
                    end in
                  let fip :=
                    match getIntFITS fip (chars "YFACTOR") with
                    | Some i => set_by fip i
                    | None => fip
                    end in
                  let fip :=
                    match getIntFITS fip (chars "OFFSET1") with
                    | Some i => set_sx fip i
                    | None => fip
                    end in
                  let fip :=
                    match getIntFITS fip (chars "OFFSET2") with
                    | Some i => set_sy fip i
                    | None => fip
                    end in
                  let fip :=
                    match getRealFITS_buf fip (chars "EXPTIME") with
                    | Some buf => set_dur fip (atof_times_1000 buf)
                    | None => fip
                    end in
                  inr fip
              end
        end
  end.

(** [readFITSHeader]: the descriptor passed in is overwritten by
    [initFImage]; on any error it is reset. The loop is given one turn more
    than there are reads to come, so [LoopFuel] is never its outcome. *)
Definition readFITSHeader (fip0 : FImage) : M (status * FImage) :=
  let fip := initFImage in
  fuel <- read_fuel ;;
  r <- readFITSHeader_loop fuel fip 0 false ;;
  let (e, fip) := r : loop_end * FImage in
  match e with
  | LoopDone =>
      match crack_fields fip with
      | inr fip' => ret (OK, fip')
      | inl errmsg => fip' <- resetFImage fip ;; ret (ERR errmsg, fip')
      end
  | LoopErr errmsg => fip' <- resetFImage fip ;; ret (ERR errmsg, fip')
  | LoopFuel => fip' <- resetFImage fip ;; ret (ERR "", fip')
  end.

(** The read loop of [readFITS]: [imdata] is what has been read so far,
    [ntot] bytes of the [nbytesfile] wanted. *)
Fixpoint readFITS_loop (fuel : nat) (imdata_ok : bool) (imdata : list ascii)
    (nbytesfile : Z) : M (loop_end * list ascii) :=
  match fuel with
  | O => ret (LoopFuel, imdata)
  | S fuel' =>
      let ntot := Z.of_nat (length imdata) in
      if (ntot <? nbytesfile)%Z
      then
        s <- sys_read imdata_ok (Z.to_nat (nbytesfile - ntot)) ;;
        match s with
        | RdFail strerror => ret (LoopErr strerror, imdata)
        | RdData [] => ret (LoopErr "data is short", imdata)
        | RdData bytes =>
            readFITS_loop fuel' imdata_ok (imdata ++ bytes) nbytesfile
        end
      else ret (LoopDone, imdata)
  end.

(** [readFITS]: header, then the pixels into a fresh buffer of unsigned
    shorts. The buffer [imdata] is obtained without a check. *)
Definition readFITS (fip0 : FImage) : M (status * FImage) :=
  r <- readFITSHeader fip0 ;;
  let (st, fip) := r : status * FImage in
  match st with
  | ERR errmsg => ret (ERR errmsg, fip)
  | OK =>
      let npixels := int_mul (sw fip) (sh fip) in
      let nbytesfile := Z.quot (int_mul npixels (Z.abs (bitpix fip))) 8 in
      let nbytesimage := int_mul npixels 2 in
      mem <- sys_malloc ;;
      if mem : bool
      then
        let fip := set_image fip (Some []) in
        imdata_ok <- sys_malloc ;;
        fuel <- read_fuel ;;
        r <- readFITS_loop fuel imdata_ok [] nbytesfile ;;
        let (e, imdata) := r : loop_end * list ascii in
        match e with
        | LoopDone =>
            let fip :=
              set_image fip
                (Some (convert_pixels host (bitpix fip) npixels imdata)) in
            let fip := set_bitpix fip 16 in
            (if imdata_ok : bool then sys_free else ret tt) ;;;
            ret (OK, fip)
        | LoopErr errmsg =>
            fip' <- resetFImage fip ;;
            (if imdata_ok : bool then sys_free else ret tt) ;;;
            ret (ERR errmsg, fip')
        | LoopFuel =>
            fip' <- resetFImage fip ;;
            (if imdata_ok : bool then sys_free else ret tt) ;;;
            ret (ERR "", fip')
        end
      else
        fip' <- resetFImage fip ;;
        ret (ERR ("Could not malloc " +:+ show_d nbytesimage
                    +:+ " for pixels"), fip')
  end.

(** The write loop of [writeFITS] over the bytes of [fip->image]. *)
Fixpoint writeFITS_loop (fuel : nat) (mem : list ascii) (nw nbytes : Z)
    : M loop_end :=
  match fuel with
  | O => ret LoopFuel
  | S fuel' =>
      if (nw <? nbytes)%Z
      then
        n <- sys_write (take (Z.to_nat (nbytes - nw))
                          (drop (Z.to_nat nw) mem)) ;;
        match n with
        | inr (S n') => writeFITS_loop fuel' mem (nw + Z.of_nat (S n')) nbytes
        | inr O =>
            if (nw <? 0)%Z then ret (LoopErr "")
            else ret (LoopErr "Short write of FITS pixels")
        | inl strerror =>
            if (nw <? 0)%Z then ret (LoopErr strerror)
            else ret (LoopErr "Short write of FITS pixels")
        end
      else ret LoopDone
  end.

(** [writeFITS]: header, the pixels converted in place and written, the
    padding; the pixels are converted back when [restore] is set, except
    where the padding fails. *)
Definition writeFITS (fip : FImage) (restore : bool) : M (status * FImage) :=
  match image fip with
  | None => ret (ERR "No pixels :-(", fip)
  | Some a =>
      st <- writeFITSHeader fip ;;
      match st with
      | ERR errmsg => ret (ERR errmsg, fip)
      | OK =>
          let npix := int_mul (sw fip) (sh fip) in
          let a1 := enFITSPixels host a npix in
          let nbytes := int_mul npix 2 in
          fuel <- write_fuel ;;
          r <- writeFITS_loop fuel (bytes_of_ushorts host a1) 0 nbytes ;;
          match r with
          | LoopDone =>
              st <- pad_2880 nbytes ;;
              match st with
              | ERR errmsg => ret (ERR errmsg, set_image fip (Some a1))
              | OK =>
                  ret (OK,
                       set_image fip
                         (Some (if restore then unFITSPixels host a1 npix
                                else a1)))
              end
          | LoopErr errmsg =>
              ret (ERR errmsg,
                   set_image fip
                     (Some (if restore then unFITSPixels host a1 npix
                            else a1)))
          | LoopFuel =>
              ret (ERR "",
                   set_image fip
                     (Some (if restore then unFITSPixels host a1 npix
                            else a1)))
          end
      end
  end.

End FileLevel.

(** ** Notions the statements use *)

(** The shape the three setters share. *)
Definition store_row (fip : FImage) (name : list ascii) (row : FITSRow)
    : M FImage :=
  match findFImageVar fip name with
  | Some i => ret (set_var fip (<[i := row]> (var fip)))
  | None => addFImageVar fip row
  end.

(** The number of cards whose keyword is [name]. *)
Definition count_bearing (name : list ascii) (fip : FImage) : nat :=
  length (filter (bears name) (var fip)).

(** A world in which nothing fails and nothing is left to read. *)
Definition quiet_world : World := mkWorld [] [] [] [] 0.

(** A store with two HISTORY cards, as two calls of [setCommentFITS] leave
    it. *)
Definition two_history : FImage :=
  let f := fst (setCommentFITS initFImage (chars "HISTORY")
                  (chars "bias subtracted") quiet_world) in
  fst (setCommentFITS f (chars "HISTORY") (chars "flat fielded") quiet_world).

(** A store with a string card whose value starts with blanks. *)
Definition object_card : FImage :=
  fst (setStringFITS initFImage (chars "OBJECT") (chars "  M31")
         (Some (chars "target")) quiet_world).

(** The number of blank rows [writeFITSHeader] computes for a store of [n]
    rows. *)
Definition header_npad (n : nat) : nat :=
  Z.to_nat (Z.rem (Z.of_nat FITS_HROWS
                   - Z.rem (Z.of_nat n + 1) (Z.of_nat FITS_HROWS))
                  (Z.of_nat FITS_HROWS)).

(** The buffer [hdr] that [writeFITSHeader] hands to [write]: the stored
    rows, END, and the blank rows. *)
Definition header_block (fip : FImage) : list ascii :=
  concat (var fip) ++ fmtENDFITS
    ++ concat (replicate (header_npad (nvar fip)) (replicate FITS_HCOLS SP)).

(** The number of heap blocks a descriptor owns: its rows, when it has
    any ([var] is NULL when it has none), and its pixels. *)
Definition held (fip : FImage) : Z :=
  ((match var fip with [] => 0 | _ => 1 end)
   + (match image fip with None => 0 | Some _ => 1 end))%Z.

(** The values of an unsigned short. *)
Definition ushort (v : Z) : Prop := (0 <= v < 65536)%Z.

(** The wording of the spec for a float sample, on the 32-bit word [w]
    that the four bytes of the file make when read most significant byte
    first. [ieee_nan]: the exponent field is all ones and the fraction is
    not zero. *)
Definition ieee_nan (w : Z) : bool :=
  ((w / 8388608) mod 256 =? 255)%Z && negb (w mod 8388608 =? 0)%Z.

(** 2^149 times the value of a finite float: every finite binary32 value
    is a whole multiple of 2^-149. *)
Definition ieee_scaled (w : Z) : Z :=
  let e := ((w / 8388608) mod 256)%Z in
  let m := (w mod 8388608)%Z in
  let mag := if (e =? 0)%Z then m else ((8388608 + m) * 2 ^ (e - 1))%Z in
  if Z.testbit w 31 then (- mag)%Z else mag.

(** The value clamped to the closed range [0, 65535], then truncated; an
    infinity is clamped like any value beyond the range. *)
Definition clamped_sample (w : Z) : Z :=
  if ((w / 8388608) mod 256 =? 255)%Z
  then if Z.testbit w 31 then 0%Z else 65535%Z
  else (Z.max 0 (Z.min (ieee_scaled w) (65535 * 2 ^ 149)) / 2 ^ 149)%Z.

(** The file bytes of 1.0, 65534.5, 65536.0, -1.0, +infinity and the
    least subnormal. *)
Definition six_floats : list ascii :=
  map byte_of
    [ 0x3F; 0x80; 0x00; 0x00;   0x47; 0x7F; 0xFE; 0x80;
      0x47; 0x80; 0x00; 0x00;   0xBF; 0x80; 0x00; 0x00;
      0x7F; 0x80; 0x00; 0x00;   0x00; 0x00; 0x00; 0x01 ]%Z.

(** A header that declares one axis and still gives NAXIS1 and NAXIS2, and
    the reads of a file that holds it. *)
Definition naxis_1_rows : list FITSRow :=
  [ fmtLogicalFITS (chars "SIMPLE") 1 (Some (chars "Standard FITS"));
    fmtIntFITS (chars "BITPIX") 16 (Some (chars "Bits per pixel"));
    fmtIntFITS (chars "NAXIS") 1 (Some (chars "Number of dimensions"));
    fmtIntFITS (chars "NAXIS1") 2 (Some (chars "Number of columns"));
    fmtIntFITS (chars "NAXIS2") 3 (Some (chars "Number of rows")) ].

(** A header of three axes, the third of one plane. *)
Definition naxis_3_rows : list FITSRow :=
  [ fmtLogicalFITS (chars "SIMPLE") 1 (Some (chars "Standard FITS"));
    fmtIntFITS (chars "BITPIX") 16 (Some (chars "Bits per pixel"));
    fmtIntFITS (chars "NAXIS") 3 (Some (chars "Number of dimensions"));
    fmtIntFITS (chars "NAXIS1") 2 (Some (chars "Number of columns"));
    fmtIntFITS (chars "NAXIS2") 3 (Some (chars "Number of rows"));
    fmtIntFITS (chars "NAXIS3") 1 (Some (chars "Number of planes")) ].

Definition naxis_1_file : World :=
  mkWorld [] (map RdData (naxis_1_rows ++ [fmtENDFITS])) [] [] 0.

(** A file whose sixth card has the keyword ENDX, with a card and the true
    END behind it. *)
Definition endx_row : FITSRow :=
  fmtIntFITS (chars "ENDX") 5 (Some (chars "not the end")).

Definition endx_file : World :=
  mkWorld []
    (map RdData
       (naxis_1_rows
          ++ [endx_row; fmtIntFITS (chars "GAIN") 2 None; fmtENDFITS]))
    [] [] 0.

(** A descriptor with a header and no pixels, and one with six pixels. *)
Definition no_pixels : FImage := set_var initFImage naxis_1_rows.

Definition six_pixels : FImage :=
  set_size
    (set_image (set_var initFImage naxis_1_rows)
       (Some [0; 1; 65535; 32768; 32767; 256]%Z))
    2 3.

(** A world in which the header goes out whole and the next write takes
    nothing. *)
Definition short_write_world : World :=
  mkWorld [] [] [WrTake 2880; WrTake 0] [] 2.

(** What [pad_2880] adds behind [nbytes] bytes. *)
Definition padding (nbytes : Z) : list ascii :=
  replicate (Z.to_nat (Z.rem (2880 - Z.rem nbytes 2880) 2880)) NUL.

(** [w] with [bytes] written behind its output. *)
Definition written (w : World) (bytes : list ascii) : World :=
  mkWorld (allocs w) (input w) (wscript w) (output w ++ bytes) (live w).

(** What the reads of [readFITS] return from a regular file that holds the
    header block of [fip] and then [rest]: the rows of the header one by
    one, and what is left. *)
Definition blank_row : FITSRow := replicate FITS_HCOLS SP.

Definition file_reads (fip : FImage) (rest : list ascii) : list read_event :=
  map RdData
    (var fip ++ fmtENDFITS :: replicate (header_npad (nvar fip)) blank_row)
  ++ [RdData rest].

(** [w] with its coming reads replaced by [evs]. *)
Definition with_input (w : World) (evs : list read_event) : World :=
  mkWorld (allocs w) evs (wscript w) (output w) (live w).

(** The header of [fip] declares the image [fip] holds: the fields
    [readFITSHeader] cracks from its rows are [fiph], 16 bits a pixel and
    the width and height of [fip]. *)
Definition declares (atof_times_1000 : list ascii -> Z) (fip fiph : FImage)
    : Prop :=
  crack_fields atof_times_1000 (set_var initFImage (var fip)) = inr fiph
  /\ bitpix fiph = 16%Z /\ sw fiph = sw fip /\ sh fiph = sh fip.

(** A header that declares two rows of three float samples, and the reads
    of a file that holds it and [six_floats]. *)
Definition float_rows : list FITSRow :=
  [ fmtLogicalFITS (chars "SIMPLE") 1 (Some (chars "Standard FITS"));
    fmtIntFITS (chars "BITPIX") (-32) (Some (chars "Bits per pixel"));
    fmtIntFITS (chars "NAXIS") 2 (Some (chars "Number of dimensions"));
    fmtIntFITS (chars "NAXIS1") 3 (Some (chars "Number of columns"));
    fmtIntFITS (chars "NAXIS2") 2 (Some (chars "Number of rows")) ].

Definition float_file : World :=
  mkWorld []
    (file_reads (set_var initFImage float_rows)
       (six_floats ++ padding 24))
    [] [] 0.

(** A header that declares 65536 by 65536 pixels of 16 bits, a descriptor
    with it and that many pixels, all zero, and the reads of the file that
    [writeFITS] makes of it. *)
Definition huge_rows : list FITSRow :=
  [ fmtLogicalFITS (chars "SIMPLE") 1 (Some (chars "Standard FITS"));
    fmtIntFITS (chars "BITPIX") 16 (Some (chars "Bits per pixel"));
    fmtIntFITS (chars "NAXIS") 2 (Some (chars "Number of dimensions"));
    fmtIntFITS (chars "NAXIS1") 65536 (Some (chars "Number of columns"));
    fmtIntFITS (chars "NAXIS2") 65536 (Some (chars "Number of rows")) ].

Definition huge_image : FImage :=
  set_size
    (set_image (set_var initFImage huge_rows)
       (Some (replicate (Z.to_nat 4294967296) 0%Z)))
    65536 65536.

Definition huge_file : World :=
  mkWorld [] (file_reads (set_var initFImage huge_rows) []) [] [] 0.

(** The same file with a NaN for its first sample. *)
Definition nan_floats : list ascii :=
  map byte_of
    [ 0x7F; 0xC0; 0x00; 0x00;   0x47; 0x7F; 0xFE; 0x80;
      0x47; 0x80; 0x00; 0x00;   0xBF; 0x80; 0x00; 0x00;
      0x7F; 0x80; 0x00; 0x00;   0x00; 0x00; 0x00; 0x01 ]%Z.

Definition nan_file : World :=
  mkWorld []
    (file_reads (set_var initFImage float_rows) (nan_floats ++ padding 24))
    [] [] 0.

(** ** Deleting a card *)

(** How [delFImageVar] ends. Where the only row of the store goes the code
    leaves [nvar] 0 and in [var] the block of no rows that malloc gave it,
    which is not NULL: a state that no descriptor of this model stands for
    (here a store without rows is a NULL [var]), so that this end gives
    none. *)
Inductive del_end : Type :=
  | DelFail                (* return -1: the descriptor is as it was *)
  | DelOK (fip : FImage)   (* return 0: rows are left *)
  | DelEmptied.            (* return 0: no row is left, [var] is not NULL *)

(** [delFImageVar]: the rows except the first one that bears [name], copied
    to a fresh block; the old block is freed. *)
Definition delFImageVar (fip : FImage) (name : list ascii) : M del_end :=
  match var fip with
  | [] => ret DelFail
  | _ =>
      match findFImageVar fip name with
      | None => ret DelFail
      | Some i =>
          mem <- sys_malloc ;;
          if mem : bool
          then
            sys_free ;;;
            ret (match delete i (var fip) with
                 | [] => DelEmptied
                 | rows => DelOK (set_var fip rows)
                 end)
          else ret DelFail
      end
  end.

(** ** Copying a descriptor *)

Inductive copy_end : Type :=
  | CopyOK (tip : FImage)     (* return 0 *)
  | CopyNoRows                (* return -1: [tip] has the row count of [fip]
                                 and no rows *)
  | CopyReset (tip : FImage). (* return -1 after [resetFImage] *)

(** [copyFITSHeader]: every field of [fip] but the image pointer, which
    stays that of [tip], and a fresh copy of the rows when [fip->var] is
    not NULL, that is, when [fip] has rows. What [tip] pointed to before is
    not freed. *)
Definition copyFITSHeader (tip fip : FImage) : M copy_end :=
  let tip := set_image fip (image tip) in
  match var fip with
  | [] => ret (CopyOK tip)
  | _ =>
      mem <- sys_malloc ;;
      if mem : bool then ret (CopyOK tip) else ret CopyNoRows
  end.

(** Modelled from the spec: [CamPixel] of the missing fits.h is the
    unsigned 16-bit sample, two bytes. *)
Definition sizeof_CamPixel : Z := 2.

(** [copyFITS]: the header, then [sw * sh] pixels into a fresh buffer. *)
Definition copyFITS (tip fip : FImage) : M copy_end :=
  r <- copyFITSHeader tip fip ;;
  match r with
  | CopyOK tip =>
      match image fip with
      | None => ret (CopyOK tip)
      | Some a =>
          let nbytes := int_mul (int_mul (sw fip) (sh fip)) sizeof_CamPixel in
          mem <- sys_malloc ;;
          if mem : bool
          then
            ret (CopyOK
                   (set_image tip
                      (Some (take (Z.to_nat (nbytes / sizeof_CamPixel)) a))))
          else
            tip' <- resetFImage (set_image tip None) ;;
            ret (CopyReset tip')
      end
  | r => ret r
  end.

(** ** Real cards and the nominal header *)

Section RealCards.

(** Doubles are left to these: the type, [(double) i] for an int (the
    double parameters of [setRealFITS] are given the int BZERO and
    constants that are whole), the quotient of two doubles, and the text
    that "%.*G" makes of a number of significant digits and a double. *)
Variable double : Type.
Variable double_of_int : Z -> double.
Variable double_div : double -> double -> double.
Variable fmt_G : Z -> double -> list ascii.

(** [fmtRealFITS]: the double right justified in columns 11-30. *)
Definition fmtRealFITS (name : list ascii) (value : double) (sigdig : Z)
    (comment : option (list ascii)) : FITSRow :=
  fmtInlineComment
    (field name ++ chars "= " ++ rjust 20 (fmt_G sigdig value))
    comment.

Definition setRealFITS (fip : FImage) (name : list ascii) (v : double)
    (sigdig : Z) (comment : option (list ascii)) : M FImage :=
  match findFImageVar fip name with
  | Some i =>
      ret (set_var fip (<[i := fmtRealFITS name v sigdig comment]> (var fip)))
  | None => addFImageVar fip (fmtRealFITS name v sigdig comment)
  end.

(** [setSimpleFITSHeader]: the basic fields, from the scalar fields of
    [fip]. *)
Definition setSimpleFITSHeader (fip : FImage) : M FImage :=
  fip <- setLogicalFITS fip (chars "SIMPLE") 1 (Some (chars "Standard FITS")) ;;
  fip <- setIntFITS fip (chars "BITPIX") (bitpix fip)
           (Some (chars "Bits per pixel")) ;;
  fip <- setIntFITS fip (chars "NAXIS") 2
           (Some (chars "Number of dimensions")) ;;
  fip <- setIntFITS fip (chars "NAXIS1") (sw fip)
           (Some (chars "Number of columns")) ;;
  fip <- setIntFITS fip (chars "NAXIS2") (sh fip)
           (Some (chars "Number of rows")) ;;
  fip <- setRealFITS fip (chars "BZERO") (double_of_int BZERO) 6
           (Some (chars "Real = Pixel*BSCALE + BZERO")) ;;
  fip <- setRealFITS fip (chars "BSCALE") (double_of_int 1) 6
           (Some (chars "Pixel scale factor")) ;;
  fip <- setIntFITS fip (chars "OFFSET1") (sx fip)
           (Some (chars "Camera upper left frame x")) ;;
  fip <- setIntFITS fip (chars "OFFSET2") (sy fip)
           (Some (chars "Camera upper left frame y")) ;;
  fip <- setIntFITS fip (chars "XFACTOR") (bx fip)
           (Some (chars "Camera x binning factor")) ;;
  fip <- setIntFITS fip (chars "YFACTOR") (by_ fip)
           (Some (chars "Camera y binning factor")) ;;
  setRealFITS fip (chars "EXPTIME")
    (double_div (double_of_int (dur fip)) (double_of_int 1000)) 6
    (Some (chars "Exposure time, seconds")).

(** [writeSimpleFITS]: a descriptor on the stack around the caller's
    pixels, the nominal header, [writeFITS]. The message is dropped; the
    rows the header took are not freed. Returns the status and the
    descriptor as the call leaves it, with the caller's pixels. *)
Definition writeSimpleFITS (host : endian) (pix : option (list Z))
    (w h x y dur : Z) (restore : bool) : M (Z * FImage) :=
  let fimage := initFImage in
  let fimage := set_size fimage w h in
  let fimage := set_sx fimage x in
  let fimage := set_sy fimage y in
  let fimage := set_dur fimage dur in
  let fimage := set_bitpix fimage 16 in
  let fimage := set_image fimage pix in
  fimage <- setSimpleFITSHeader fimage ;;
  r <- writeFITS host fimage restore ;;
  let (st, fimage) := r : status * FImage in
  ret (match st with OK => 0%Z | ERR _ => (-1)%Z end, fimage).

(** The twelve cards of the nominal header of [fip]. *)
Definition simple_header (fip : FImage) : list FITSRow :=
  [ fmtLogicalFITS (chars "SIMPLE") 1 (Some (chars "Standard FITS"));
    fmtIntFITS (chars "BITPIX") (bitpix fip) (Some (chars "Bits per pixel"));
    fmtIntFITS (chars "NAXIS") 2 (Some (chars "Number of dimensions"));
    fmtIntFITS (chars "NAXIS1") (sw fip) (Some (chars "Number of columns"));
    fmtIntFITS (chars "NAXIS2") (sh fip) (Some (chars "Number of rows"));
    fmtRealFITS (chars "BZERO") (double_of_int BZERO) 6
      (Some (chars "Real = Pixel*BSCALE + BZERO"));
    fmtRealFITS (chars "BSCALE") (double_of_int 1) 6
      (Some (chars "Pixel scale factor"));
    fmtIntFITS (chars "OFFSET1") (sx fip)
      (Some (chars "Camera upper left frame x"));
    fmtIntFITS (chars "OFFSET2") (sy fip)
      (Some (chars "Camera upper left frame y"));
    fmtIntFITS (chars "XFACTOR") (bx fip)
      (Some (chars "Camera x binning factor"));
    fmtIntFITS (chars "YFACTOR") (by_ fip)
      (Some (chars "Camera y binning factor"));
    fmtRealFITS (chars "EXPTIME")
      (double_div (double_of_int (dur fip)) (double_of_int 1000)) 6
      (Some (chars "Exposure time, seconds")) ].

End RealCards.

(** ** Further notions the statements use *)

(** The values of an int. *)
Definition int_range (v : Z) : Prop := (-2147483648 <= v <= 2147483647)%Z.

(** The two bytes of each sample in a file: [v - BZERO] as a signed 16-bit
    number, most significant byte first. *)
Definition file_bytes (a : list Z) : list ascii :=
  concat (map (fun v => [byte_of ((v - BZERO) / 256); byte_of (v - BZERO)]) a).

(** A world whose writes take the header whole and then 5, 7 and 1000
    bytes at a time. *)
Definition partial_write_world : World :=
  mkWorld [] [] [WrTake 2880; WrTake 5; WrTake 7; WrTake 1000] [] 0.

(** The first card of [name] is where it was and as it was. *)
Definition keeps_card (fip fip' : FImage) (name : list ascii) : Prop :=
  findFImageVar fip' name = findFImageVar fip name
  /\ forall i, findFImageVar fip name = Some i -> var fip' !! i = var fip !! i.

(** A 32-bit sample of a file as a pixel: the number its four bytes make,
    most significant byte first, plus BZERO, less all above its low 16
    bits. *)
Definition int_sample (w : Z) : Z := ((w + BZERO) mod 65536)%Z.

(** The file bytes of 0, 1, -1, 32767, -32768 and 65536 as 32-bit
    numbers. *)
Definition six_ints : list ascii :=
  map byte_of
    [ 0x00; 0x00; 0x00; 0x00;   0x00; 0x00; 0x00; 0x01;
      0xFF; 0xFF; 0xFF; 0xFF;   0x00; 0x00; 0x7F; 0xFF;
      0xFF; 0xFF; 0x80; 0x00;   0x00; 0x01; 0x00; 0x00 ]%Z.

(** A header that declares two rows of three 32-bit samples, and the reads
    of a file that holds it and [six_ints]. *)
Definition int_rows : list FITSRow :=
  [ fmtLogicalFITS (chars "SIMPLE") 1 (Some (chars "Standard FITS"));
    fmtIntFITS (chars "BITPIX") 32 (Some (chars "Bits per pixel"));
    fmtIntFITS (chars "NAXIS") 2 (Some (chars "Number of dimensions"));
    fmtIntFITS (chars "NAXIS1") 3 (Some (chars "Number of columns"));
    fmtIntFITS (chars "NAXIS2") 2 (Some (chars "Number of rows")) ].

Definition int_file : World :=
  mkWorld []
    (file_reads (set_var initFImage int_rows) (six_ints ++ padding 24))
    [] [] 0.

(** Doubles that are whole numbers, as far as the nominal header needs
    them: BZERO, BSCALE and a duration of whole seconds print under %.6G as
    their decimal digits. *)
Definition whole_G (sigdig : Z) (v : Z) : list ascii := fmt_d v.

(** Six pixels for a frame of 2 by 3. *)
Definition six_shorts : list Z := [0; 1; 65535; 32768; 32767; 256]%Z.

(** The reads of a file that holds the header of [naxis_1_rows] and the
    first twelve bytes of [six_ints] as six 16-bit samples. *)
Definition short_file : World :=
  mkWorld []
    (file_reads (set_var initFImage naxis_1_rows)
       (take 12 six_ints ++ padding 12))
    [] [] 0.

(** The four conversions of the codec. *)
Definition codecs : list (endian -> list Z -> Z -> list Z) :=
  [enFITSPixels; unFITSPixels; unFITSPixelsInt; unFITSPixelsFloat].

(** * Properties *)

(** ** C strings and keywords *)

Lemma length_ljust w s : length (ljust w s) = max w (length s).
Proof. unfold ljust. rewrite length_app, length_replicate. lia. Qed.

Lemma length_rjust w s : length (rjust w s) = max w (length s).
Proof. unfold rjust. rewrite length_app, length_replicate. lia. Qed.

Lemma length_fmt_ls w p s : p <= w -> length (fmt_ls w p s) = w.
Proof.
  intros Hp. unfold fmt_ls. rewrite length_ljust, length_take. lia.
Qed.

Lemma cstr_no_NUL p : Forall (fun c => c <> NUL) (cstr p).
Proof.
  induction p as [|c p IH]; simpl; [constructor|].
  destruct (decide (c = NUL)); [constructor|]. by constructor.
Qed.

Lemma cstr_nil_iff p : cstr p = [] <-> hd NUL p = NUL.
Proof.
  destruct p as [|c p]; simpl; [done|].
  destruct (decide (c = NUL)); split; intros; congruence.
Qed.

Lemma length_field name : length (field name) = 8.
Proof. apply length_fmt_ls. lia. Qed.

Lemma field_no_NUL name : Forall (fun c => c <> NUL) (field name).
Proof.
  unfold field, fmt_ls, ljust. apply Forall_app. split.
  - apply Forall_take, cstr_no_NUL.
  - apply Forall_replicate. discriminate.
Qed.

(** [strncmp] against a string that has no NUL among its first [n]
    characters compares exactly [n] characters. *)
Lemma strncmp_eq_take n : forall a b,
  n <= length a -> Forall (fun c => c <> NUL) (take n a) ->
  strncmp_eq n a b = true <-> take n b = take n a.
Proof.
  induction n as [|n IH]; intros a b Hlen Hnz; simpl.
  - by rewrite !take_0.
  - destruct a as [|x a]; simpl in *; [lia|].
    apply Forall_cons in Hnz as [Hx Hnz].
    destruct b as [|y b]; simpl.
    + destruct (decide (x = NUL)); [done|].
      destruct (decide (x = NUL)); split; intros; congruence.
    + destruct (decide (x = y)) as [->|Hne].
      * destruct (decide (y = NUL)); [done|].
        rewrite IH by (done || lia). split; intros; congruence.
      * split; intros; congruence.
Qed.

Lemma bears_take name row : bears name row <-> take 8 row = field name.
Proof.
  unfold bears. rewrite strncmp_eq_take.
  - by rewrite (take_ge (field name)) by (rewrite length_field; lia).
  - rewrite length_field. lia.
  - apply Forall_take, field_no_NUL.
Qed.

(** The three bytes END at the head of a row are all that [strncmp (row,
    "END", 3) == 0] looks at. *)
Lemma is_END_take row :
  strncmp_eq 3 row (chars "END") = true <-> take 3 row = chars "END".
Proof.
  destruct row as [|a [|b [|c row]]]; simpl;
    repeat case_decide; subst; split; intros; try congruence; try done.
Qed.

(** ** Finding a card *)

Lemma findFImageVar_Some fip name i :
  findFImageVar fip name = Some i <->
  exists row, var fip !! i = Some row /\ bears name row /\
    forall j y, var fip !! j = Some y -> j < i -> ~ bears name y.
Proof.
  unfold findFImageVar. split.
  - destruct (list_find _ _) as [[k row]|] eqn:E; simpl; [|done].
    intros [= ->]. exists row. by apply list_find_Some in E.
  - intros (row & H).
    apply (list_find_Some (bears name)) in H. by rewrite H.
Qed.

Lemma findFImageVar_None fip name :
  findFImageVar fip name = None <->
  Forall (fun row => ~ bears name row) (var fip).
Proof.
  unfold findFImageVar. rewrite fmap_None. apply list_find_None.
Qed.

Lemma findFImageVar_lt fip name i :
  findFImageVar fip name = Some i -> i < nvar fip.
Proof.
  intros (row & H & _)%findFImageVar_Some. by apply lookup_lt_Some in H.
Qed.

Lemma row_mem_lookup fip i row :
  var fip !! i = Some row ->
  row_mem fip i = row ++ concat (drop (S i) (var fip)).
Proof. intros H. unfold row_mem. by erewrite drop_S. Qed.

(** ** Adding and replacing cards *)

Lemma length_fmtInlineComment line comment :
  length (fmtInlineComment line comment) <= FITS_HCOLS.
Proof.
  unfold fmtInlineComment, FITS_HCOLS. rewrite length_app, !length_take. lia.
Qed.

Lemma take_fmtInlineComment n line comment :
  n <= 30 -> 30 <= length line ->
  take n (fmtInlineComment line comment) = take n line.
Proof.
  intros Hn Hl. unfold fmtInlineComment.
  rewrite take_app_le by (rewrite length_take; lia).
  rewrite take_take. f_equal. lia.
Qed.

Lemma bears_fmtIntFITS name v comment : bears name (fmtIntFITS name v comment).
Proof.
  apply bears_take. unfold fmtIntFITS.
  rewrite take_fmtInlineComment.
  - rewrite take_app_length'; [done|by rewrite length_field].
  - lia.
  - rewrite !length_app, length_field. simpl.
    unfold fmt_star_s. simpl cstr.
    destruct (_ <? _)%Z eqn:E; rewrite ?length_ljust, ?length_rjust; simpl.
    + apply Z.ltb_lt in E. unfold strlen in *. lia.
    + apply Z.ltb_ge in E. unfold strlen in *. lia.
Qed.

Lemma addFImageVar_ok fip row w :
  next_alloc w = true ->
  fst (addFImageVar fip row w) = set_var fip (var fip ++ [take FITS_HCOLS row]).
Proof.
  intros H. unfold addFImageVar, bind.
  destruct (var fip); simpl; unfold sys_malloc, sys_realloc; rewrite H; done.
Qed.

Lemma filter_insert_same {A} (P : A -> Prop) `{!forall x, Decision (P x)}
    (l : list A) i x y :
  l !! i = Some y -> P x -> P y ->
  length (filter P (<[i := x]> l)) = length (filter P l).
Proof.
  intros Hi Hx Hy.
  rewrite <- (take_drop_middle l i y Hi) at 2.
  rewrite insert_take_drop by (by eapply lookup_lt_Some).
  rewrite !filter_app, !filter_cons.
  rewrite !decide_True by done. by rewrite !length_app.
Qed.

Lemma filter_none {A} (P : A -> Prop) `{!forall x, Decision (P x)}
    (l : list A) :
  Forall (fun x => ~ P x) l -> filter P l = [].
Proof.
  induction 1 as [|x l Hx _ IH]; [done|].
  by rewrite filter_cons, decide_False.
Qed.

Section StoreRow.

Variables (name : list ascii) (row1 row2 : FITSRow).
Hypothesis Hrow1 : bears name row1.
Hypothesis Hrow2 : bears name row2.
Hypothesis Hlen1 : length row1 <= FITS_HCOLS.
Hypothesis Hlen2 : length row2 <= FITS_HCOLS.

Lemma findFImageVar_insert fip i row :
  findFImageVar fip name = Some i -> bears name row ->
  findFImageVar (set_var fip (<[i := row]> (var fip))) name = Some i.
Proof.
  intros (old & Hi & Hold & Hbefore)%findFImageVar_Some Hrow.
  apply findFImageVar_Some. exists row. simpl. split_and!.
  - apply list_lookup_insert_eq. by eapply lookup_lt_Some.
  - done.
  - intros j y Hj Hlt. rewrite list_lookup_insert_ne in Hj by lia. eauto.
Qed.

Lemma findFImageVar_app fip row :
  findFImageVar fip name = None -> bears name row ->
  findFImageVar (set_var fip (var fip ++ [row])) name = Some (nvar fip).
Proof.
  intros Hnone Hrow. apply findFImageVar_Some. exists row. simpl. split_and!.
  - rewrite lookup_app_r by done. by rewrite Nat.sub_diag.
  - done.
  - intros j y Hj Hlt. rewrite lookup_app_l in Hj by done.
    apply findFImageVar_None in Hnone.
    eapply Forall_lookup_1 in Hnone; eauto.
Qed.

Lemma store_row_twice fip w :
  (findFImageVar fip name = None -> next_alloc w = true) ->
  let r1 := store_row fip name row1 w in
  let r2 := store_row (fst r1) name row2 (snd r1) in
  let pos := default (nvar fip) (findFImageVar fip name) in
  nvar (fst r2) = nvar (fst r1)
  /\ findFImageVar (fst r2) name = Some pos
  /\ var (fst r2) !! pos = Some row2
  /\ (forall j, j <> pos -> var (fst r2) !! j = var fip !! j)
  /\ count_bearing name (fst r2) = max 1 (count_bearing name fip)
  /\ snd r2 = snd r1.
Proof.
  intros Halloc. cbv zeta.
  destruct (findFImageVar fip name) as [i|] eqn:Hfind; simpl.
  - pose proof (findFImageVar_lt _ _ _ Hfind) as Hlt.
    pose proof (findFImageVar_insert _ _ _ Hfind Hrow1) as Hfind1.
    assert (Hr1 : store_row fip name row1 w
                  = (set_var fip (<[i := row1]> (var fip)), w)).
    { unfold store_row. by rewrite Hfind. }
    rewrite Hr1. simpl. unfold store_row. rewrite Hfind1. simpl.
    rewrite list_insert_insert_eq.
    apply findFImageVar_Some in Hfind as Hf.
    destruct Hf as (old & Hi & Hold & _).
    split_and!.
    + unfold nvar. simpl. by rewrite !length_insert.
    + exact (findFImageVar_insert fip i row2 Hfind Hrow2).
    + by apply list_lookup_insert_eq.
    + intros j Hj. by apply list_lookup_insert_ne.
    + unfold count_bearing. simpl.
      rewrite (filter_insert_same _ _ _ _ old) by done.
      assert (0 < length (filter (bears name) (var fip))); [|lia].
      rewrite <- (take_drop_middle _ _ _ Hi), filter_app, filter_cons.
      rewrite decide_True by done. rewrite length_app. simpl. lia.
    + done.
  - specialize (Halloc eq_refl).
    assert (Hr1 : fst (store_row fip name row1 w)
                  = set_var fip (var fip ++ [row1])).
    { unfold store_row. rewrite Hfind, addFImageVar_ok by done.
      by rewrite take_ge. }
    pose proof (findFImageVar_app _ _ Hfind Hrow1) as Hfind1.
    rewrite <- Hr1 in Hfind1.
    destruct (store_row fip name row1 w) as [fip1 w1]. simpl in *.
    unfold store_row. rewrite Hfind1. simpl. subst fip1. simpl.
    assert (Hins : <[nvar fip := row2]> (var fip ++ [row1])
                   = var fip ++ [row2]).
    { unfold nvar. rewrite insert_app_r_alt by done.
      by rewrite Nat.sub_diag. }
    rewrite Hins. split_and!.
    + unfold nvar. simpl. by rewrite !length_app.
    + exact (findFImageVar_app fip row2 Hfind Hrow2).
    + rewrite lookup_app_r by done. by rewrite Nat.sub_diag.
    + intros j Hj. destruct (decide (j < nvar fip)).
      * by rewrite lookup_app_l.
      * rewrite !lookup_ge_None_2; [done|unfold nvar in *; lia|].
        rewrite length_app. simpl. unfold nvar in *. lia.
    + unfold count_bearing. simpl. rewrite filter_app, length_app.
      apply findFImageVar_None in Hfind.
      rewrite (filter_none _ _ Hfind).
      rewrite filter_cons, decide_True by done. simpl. lia.
    + done.
Qed.

End StoreRow.

Lemma length_fmtIntFITS name v comment :
  length (fmtIntFITS name v comment) <= FITS_HCOLS.
Proof. apply length_fmtInlineComment. Qed.

Lemma setIntFITS_store_row fip name v comment :
  setIntFITS fip name v comment = store_row fip name (fmtIntFITS name v comment).
Proof. reflexivity. Qed.

(** C6, as amended: two calls of [setIntFITS] with the same name, the
    first of which could extend the store if it had to, leave the card
    formatted from the latest value at the position of the first card that
    bore the name (at the end if there was none); the second call leaves the
    length unchanged, every other row is as it was, and the number of cards
    bearing the name is what it was, or one if there was none. So there is
    exactly one such card when there was at most one before. *)
Theorem setIntFITS_twice fip name v1 c1 v2 c2 w :
  (findFImageVar fip name = None -> next_alloc w = true) ->
  let r1 := setIntFITS fip name v1 c1 w in
  let r2 := setIntFITS (fst r1) name v2 c2 (snd r1) in
  let pos := default (nvar fip) (findFImageVar fip name) in
  nvar (fst r2) = nvar (fst r1)
  /\ findFImageVar (fst r2) name = Some pos
  /\ var (fst r2) !! pos = Some (fmtIntFITS name v2 c2)
  /\ (forall j, j <> pos -> var (fst r2) !! j = var fip !! j)
  /\ count_bearing name (fst r2) = max 1 (count_bearing name fip).
Proof.
  intros Halloc. cbv zeta. rewrite !setIntFITS_store_row.
  pose proof (store_row_twice name _ _
                (bears_fmtIntFITS name v1 c1) (bears_fmtIntFITS name v2 c2)
                (length_fmtIntFITS name v1 c1) (length_fmtIntFITS name v2 c2)
                fip w Halloc) as H.
  cbv zeta in H. tauto.
Qed.

Lemma setIntFITS_twice_witness :
  count_bearing (chars "GAIN")
    (fst (setIntFITS
            (fst (setIntFITS initFImage (chars "GAIN") 1 None quiet_world))
            (chars "GAIN") 2 None
            (snd (setIntFITS initFImage (chars "GAIN") 1 None quiet_world))))
  = 1.
Proof.
  apply (setIntFITS_twice initFImage (chars "GAIN") 1 None 2 None quiet_world).
  intros _. reflexivity.
Defined.

(** Counterexample to C6 as stated: on a store that holds two HISTORY
    cards, setting HISTORY twice leaves two cards bearing the name. *)
Lemma setIntFITS_twice_duplicates :
  let r1 := setIntFITS two_history (chars "HISTORY") 1 None quiet_world in
  let r2 := setIntFITS (fst r1) (chars "HISTORY") 2 None (snd r1) in
  count_bearing (chars "HISTORY") (fst r2) = 2.
Proof. vm_compute. reflexivity. Qed.

(** C10: [setCommentFITS] with an empty text adds no card: the store, and
    the world with it, are left as they were. *)
Theorem setCommentFITS_empty fip name comment w :
  strlen comment = 0 -> setCommentFITS fip name comment w = (fip, w).
Proof. intros H. unfold setCommentFITS. rewrite H. reflexivity. Qed.

Lemma setCommentFITS_empty_witness :
  setCommentFITS two_history (chars "COMMENT") [] quiet_world
  = (two_history, quiet_world).
Proof. apply setCommentFITS_empty. reflexivity. Defined.

(** ** Parsing a string card *)

Lemma strip_trailing_app_blanks s :
  exists n, s = strip_trailing s ++ replicate n SP.
Proof.
  induction s as [|c s [n IH]]; simpl.
  - by exists 0.
  - destruct (strip_trailing s) as [|d r] eqn:E.
    + destruct (decide (c = SP)) as [->|].
      * exists (S n). simpl in *. by rewrite IH at 1.
      * exists n. simpl in *. by rewrite IH at 1.
    + exists n. simpl. by rewrite IH at 1.
Qed.

Lemma strip_trailing_last s : last (strip_trailing s) <> Some SP.
Proof.
  induction s as [|c s IH]; simpl; [done|].
  destruct (strip_trailing s) as [|d r] eqn:E.
  - destruct (decide (c = SP)); simpl; congruence.
  - by rewrite last_cons_cons.
Qed.

(** Leading blanks stay: only a value of blanks alone is emptied. *)
Lemma strip_trailing_leading s :
  strip_trailing s <> [] -> strip_trailing (SP :: s) = SP :: strip_trailing s.
Proof. simpl. by destruct (strip_trailing s). Qed.

Lemma getStringFITS_scan_quote content rest : forall acc,
  QUOTE ∉ content ->
  getStringFITS_scan (content ++ QUOTE :: rest) acc
  = Some (strip_trailing (acc ++ content)).
Proof.
  induction content as [|c content IH]; intros acc Hq; simpl.
  - by rewrite app_nil_r.
  - apply not_elem_of_cons in Hq as [Hc Hq].
    rewrite decide_False by done. rewrite IH by done.
    by rewrite <- app_assoc.
Qed.

Lemma getStringFITS_scan_none cs : forall acc,
  QUOTE ∉ cs -> getStringFITS_scan cs acc = None.
Proof.
  induction cs as [|c cs IH]; intros acc Hq; simpl; [done|].
  apply not_elem_of_cons in Hq as [Hc Hq].
  rewrite decide_False by done. by apply IH.
Qed.

Lemma getStringFITS_row fip name i row :
  findFImageVar fip name = Some i -> var fip !! i = Some row -> wf_row row ->
  getStringFITS fip name =
    if decide (peek row 10 = QUOTE)
    then getStringFITS_scan (drop 11 row) [] else None.
Proof.
  intros Hfind Hi Hwf. unfold getStringFITS. rewrite Hfind.
  rewrite (row_mem_lookup _ _ _ Hi). unfold wf_row, FITS_HCOLS in *.
  assert (Hpeek : peek (row ++ concat (drop (S i) (var fip))) 10 = peek row 10).
  { unfold peek. rewrite lookup_app_l by lia. done. }
  rewrite Hpeek. case_decide; [|done]. f_equal.
  rewrite drop_app_le by lia. rewrite take_app_le by (rewrite length_drop; lia).
  apply take_ge. rewrite length_drop. lia.
Qed.

(** C7, as amended: for the card found under [name], [getStringFITS]
    returns the characters between the quote in column 11 and the next
    quote with the trailing blanks removed and the leading ones kept (the
    value is what was between the quotes less a run of blanks at its end,
    and does not end in a blank); it fails when column 11 holds no quote,
    and when no quote follows in columns 12 to 80. *)
Theorem getStringFITS_spec fip name i row :
  findFImageVar fip name = Some i -> var fip !! i = Some row -> wf_row row ->
  (forall content rest,
      drop 10 row = QUOTE :: content ++ QUOTE :: rest -> QUOTE ∉ content ->
      getStringFITS fip name = Some (strip_trailing content)
      /\ (exists n, content = strip_trailing content ++ replicate n SP)
      /\ last (strip_trailing content) <> Some SP)
  /\ (peek row 10 <> QUOTE -> getStringFITS fip name = None)
  /\ (QUOTE ∉ drop 11 row -> getStringFITS fip name = None).
Proof.
  intros Hfind Hi Hwf. rewrite (getStringFITS_row _ _ _ _ Hfind Hi Hwf).
  split_and!.
  - intros content rest Hrow Hq.
    assert (Hd : drop 11 row = content ++ QUOTE :: rest).
    { change 11 with (10 + 1). rewrite <- drop_drop, Hrow. done. }
    assert (Hp : peek row 10 = QUOTE).
    { unfold peek. rewrite <- (Nat.add_0_r 10), <- lookup_drop, Hrow. done. }
    rewrite decide_True by done. rewrite Hd.
    rewrite getStringFITS_scan_quote by done. simpl.
    split_and!; [done|apply strip_trailing_app_blanks|apply strip_trailing_last].
  - intros Hp. by rewrite decide_False.
  - intros Hq. case_decide; [|done]. by apply getStringFITS_scan_none.
Qed.

Lemma getStringFITS_spec_witness :
  getStringFITS object_card (chars "OBJECT") = Some (chars "  M31").
Proof.
  pose proof (getStringFITS_spec object_card (chars "OBJECT") 0
                (fmtStringFITS (chars "OBJECT") (chars "  M31")
                   (Some (chars "target")))
                eq_refl eq_refl eq_refl) as (H & _).
  destruct (H (chars "  M31   ") (drop 20 (fmtStringFITS (chars "OBJECT")
              (chars "  M31") (Some (chars "target"))))) as (H1 & _).
  - reflexivity.
  - vm_compute. intros Hin. 
    repeat (apply elem_of_cons in Hin as [Hin|Hin]; [discriminate|]).
    by apply elem_of_nil in Hin.
  - exact H1.
Defined.

(** Counterexample to C7 as stated: the blanks in front of the value are
    returned with it. *)
Lemma getStringFITS_keeps_leading_blanks :
  getStringFITS object_card (chars "OBJECT") = Some (chars "  M31")
  /\ getStringFITS object_card (chars "OBJECT") <> Some (chars "M31").
Proof. split; [reflexivity|discriminate]. Qed.

(** ** Reading a comment card *)

(** C9: when [getCommentFITS] finds the card, the caller's buffer gets
    the first 72 bytes of the card and is otherwise untouched (no NUL is
    written to it), while byte 73 of the card in the store becomes NUL: the
    other rows and the length of the store stay, and the store differs from
    what it was unless that byte was NUL already. *)
Theorem getCommentFITS_writes_store fip name i row buf :
  findFImageVar fip name = Some i -> var fip !! i = Some row -> wf_row row ->
  exists fip' buf',
    getCommentFITS fip name buf = Some (fip', buf')
    /\ take 72 buf' = take 72 row
    /\ drop 72 buf' = drop 72 buf
    /\ var fip' !! i = Some (<[72 := NUL]> row)
    /\ (<[72 := NUL]> row) !! 72 = Some NUL
    /\ (forall j, j <> i -> var fip' !! j = var fip !! j)
    /\ nvar fip' = nvar fip
    /\ (row !! 72 <> Some NUL -> fip' <> fip).
Proof.
  intros Hfind Hi Hwf. unfold getCommentFITS. rewrite Hfind.
  eexists _, _. split; [reflexivity|].
  rewrite (row_mem_lookup _ _ _ Hi). unfold wf_row, FITS_HCOLS in *.
  rewrite (take_app_le row) by lia.
  split_and!.
  - rewrite take_app_length'; [done|]. rewrite length_take. lia.
  - rewrite drop_app_length'; [done|]. rewrite length_take. lia.
  - simpl. by rewrite list_lookup_alter_eq, Hi.
  - apply list_lookup_insert_eq. lia.
  - intros j Hj. simpl. by apply list_lookup_alter_ne.
  - unfold nvar. simpl. by rewrite length_alter.
  - intros Hne Heq. apply (f_equal (fun f => var f !! i)) in Heq.
    simpl in Heq. rewrite list_lookup_alter_eq, Hi in Heq. simpl in Heq.
    injection Heq as Heq. apply Hne. rewrite <- Heq.
    apply list_lookup_insert_eq. lia.
Qed.

Lemma getCommentFITS_writes_store_witness :
  exists fip' buf',
    getCommentFITS two_history (chars "HISTORY") (replicate 73 "x"%char)
      = Some (fip', buf')
    /\ buf' !! 72 = Some "x"%char
    /\ fip' <> two_history.
Proof.
  destruct (getCommentFITS_writes_store two_history (chars "HISTORY") 0
              (field (chars "HISTORY") ++ fmt_ls 72 72 (chars "bias subtracted"))
              (replicate 73 "x"%char) eq_refl eq_refl eq_refl)
    as (fip' & buf' & H1 & H2 & H3 & H4 & H5 & H6 & H7 & H8).
  exists fip', buf'. split_and!; [done| |].
  - rewrite <- (Nat.add_0_r 72), <- lookup_drop, H3. reflexivity.
  - apply H8. discriminate.
Defined.

(** ** Writing the header block *)

Lemma length_concat_rows (rows : list FITSRow) :
  Forall wf_row rows -> length (concat rows) = length rows * FITS_HCOLS.
Proof.
  induction 1 as [|r rows Hr _ IH]; simpl; [done|].
  unfold wf_row in Hr. rewrite length_app, IH, Hr. unfold FITS_HCOLS. lia.
Qed.

Lemma length_fmtENDFITS : length fmtENDFITS = FITS_HCOLS.
Proof. reflexivity. Qed.

Lemma fmtENDFITS_row : fmtENDFITS = chars "END" ++ replicate 77 SP.
Proof. reflexivity. Qed.

Lemma concat_blank_rows n c :
  concat (replicate n (replicate c SP)) = replicate (n * c) SP.
Proof.
  induction n as [|n IH]; simpl; [done|].
  rewrite IH. by rewrite <- replicate_add.
Qed.


Lemma header_npad_spec n :
  (n + 1 + header_npad n) mod FITS_HROWS = 0
  /\ forall k, (n + 1 + k) mod FITS_HROWS = 0 -> header_npad n <= k.
Proof.
  unfold header_npad, FITS_HROWS. change (Z.of_nat 36) with 36%Z.
  assert (Hn : n + 1 = 36 * ((n + 1) / 36) + (n + 1) mod 36)
    by (apply Nat.div_mod; lia).
  assert (Hm : (n + 1) mod 36 < 36) by (apply Nat.mod_upper_bound; lia).
  assert (Hz : Z.rem (Z.of_nat n + 1) 36 = Z.of_nat ((n + 1) mod 36)).
  { rewrite Z.rem_mod_nonneg by lia. rewrite Nat2Z.inj_mod.
    f_equal. lia. }
  rewrite Hz. clear Hz.
  generalize dependent ((n + 1) mod 36). intros m Hn Hm.
  rewrite Z.rem_mod_nonneg by lia.
  destruct (decide (m = 0)) as [H0|H0].
  - subst m. change (Z.to_nat ((36 - Z.of_nat 0) mod 36)) with 0.
    split; [|lia].
    rewrite Nat.add_0_r, Hn, Nat.add_0_r, Nat.mul_comm.
    apply Nat.Div0.mod_mul.
  - rewrite Z.mod_small by lia.
    replace (Z.to_nat (36 - Z.of_nat m)) with (36 - m) by lia.
    split.
    + replace (n + 1 + (36 - m)) with (((n + 1) / 36 + 1) * 36) by lia.
      apply Nat.Div0.mod_mul.
    + intros k Hk.
      destruct (decide (36 - m <= k)); [done|exfalso].
      assert (Hs : (n + 1 + k) mod 36 = m + k).
      { replace (n + 1 + k) with ((m + k) + ((n + 1) / 36) * 36) by lia.
        rewrite Nat.Div0.mod_add. apply Nat.mod_small. lia. }
      lia.
Qed.


Lemma length_header_block fip :
  wf_store fip ->
  length (header_block fip)
  = (nvar fip + 1 + header_npad (nvar fip)) * FITS_HCOLS.
Proof.
  intros Hwf. unfold header_block.
  rewrite !length_app, length_concat_rows, length_fmtENDFITS by done.
  rewrite concat_blank_rows, length_replicate. unfold nvar. lia.
Qed.

Lemma writeFITSHeader_unfold fip w :
  wf_store fip ->
  writeFITSHeader fip w =
    (hdr <- sys_malloc ;;
     if hdr : bool
     then
       nw <- sys_write (header_block fip) ;;
       sys_free ;;;
       match nw with
       | inl strerror => ret (ERR strerror)
       | inr nw =>
           if decide (nw = length (header_block fip)) then ret OK
           else ret (ERR "Short write of FITS header")
       end
     else
       ret (ERR ("Can not malloc "
                   +:+ show_d (Z.of_nat (length (header_block fip)))
                   +:+ " for padded FITS header"))) w.
Proof.
  intros Hwf. unfold writeFITSHeader.
  pose proof (length_header_block fip Hwf) as Hlen.
  set (npad := Z.rem _ _).
  assert (Hnpad : Z.to_nat npad = header_npad (nvar fip)) by done.
  assert (Hnb : Z.to_nat ((Z.of_nat (nvar fip) + 1 + npad) * Z.of_nat FITS_HCOLS)
                = length (header_block fip)).
  { rewrite Hlen, <- Hnpad.
    assert (0 <= npad)%Z; [|lia].
    unfold npad. apply Z.rem_nonneg; [done|].
    assert (Hb := Z.rem_bound_pos (Z.of_nat (nvar fip) + 1) (Z.of_nat FITS_HROWS)).
    unfold FITS_HROWS in *. lia. }
  rewrite Hnb.
  assert (Hbuf : concat (var fip) ++ fmtENDFITS
                   ++ replicate (Z.to_nat npad * FITS_HCOLS) SP
                 = header_block fip).
  { unfold header_block. by rewrite concat_blank_rows, Hnpad. }
  rewrite Hbuf. by rewrite take_ge.
Qed.

(** C5: for a store of 80-byte rows, what [writeFITSHeader] writes when it
    returns 0 is the stored rows in order, one END row, which is END and 77
    blanks, and the least number [npad] of blank 80-byte rows that makes
    the row count a multiple of 36, so that the number of bytes is a
    multiple of 2880; and it returns 0 when its buffer is obtained and
    [write] takes it whole. *)
Theorem writeFITSHeader_block fip w :
  wf_store fip ->
  let r := writeFITSHeader fip w in
  let npad := header_npad (nvar fip) in
  (next_alloc w = true -> wscript w = [] -> fst r = OK)
  /\ (fst r = OK ->
      output (snd r)
      = output w ++ concat (var fip) ++ (chars "END" ++ replicate 77 SP)
          ++ concat (replicate npad (replicate FITS_HCOLS SP))
      /\ length (output (snd r)) = length (output w) + (nvar fip + 1 + npad) * FITS_HCOLS)
  /\ (nvar fip + 1 + npad) mod FITS_HROWS = 0
  /\ (forall k, (nvar fip + 1 + k) mod FITS_HROWS = 0 -> npad <= k)
  /\ ((nvar fip + 1 + npad) * FITS_HCOLS) mod 2880 = 0.
Proof.
  intros Hwf. cbv zeta. rewrite writeFITSHeader_unfold by done.
  pose proof (length_header_block fip Hwf) as Hlen.
  pose proof (header_npad_spec (nvar fip)) as [Hmod Hleast].
  rewrite <- fmtENDFITS_row. fold (header_block fip).
  split_and!; [| |done|done|].
  - intros Halloc Hscript. unfold bind, sys_malloc, sys_write, sys_free, ret.
    rewrite Halloc. simpl. rewrite Hscript. simpl.
    by rewrite decide_True.
  - unfold bind, sys_malloc, sys_write, sys_free, ret.
    destruct (next_alloc w); simpl; [|done].
    destruct (wscript w) as [|[m|k] rest]; simpl.
    + rewrite decide_True by done. simpl. intros _.
      split; [done|]. by rewrite length_app, Hlen.
    + done.
    + case_decide as Hk; simpl; [|done]. intros _.
      assert (Htake : take k (header_block fip) = header_block fip).
      { apply take_ge. rewrite length_take in Hk. lia. }
      rewrite Htake. split; [done|]. by rewrite length_app, Hlen.
  - apply Nat.Div0.mod_divides in Hmod as [c Hc]. rewrite Hc.
    unfold FITS_HROWS, FITS_HCOLS.
    replace (36 * c * 80) with (c * 2880) by lia. apply Nat.Div0.mod_mul.
Qed.

(** ** Reading the header rows *)

Section ReadHeader.

Variable atof_times_1000 : list ascii -> Z.

(** Once END has been seen the loop only counts rows. *)
Lemma readFITSHeader_loop_sawend fuel : forall fip nrows w,
  snd (fst (readFITSHeader_loop fuel fip nrows true w)) = fip.
Proof.
  induction fuel as [|fuel IH]; intros fip nrows w; simpl; [done|].
  unfold bind, sys_read.
  destruct (input w) as [|[m|row] rest]; simpl; [done..|].
  case_decide; simpl; [|done].
  destruct (Z.rem _ _ =? 0)%Z; simpl; [done|]. apply IH.
Qed.

(** Rows that do not start with END are added one after the other. *)
Lemma readFITSHeader_loop_rows rest rows : forall fuel fip nrows w,
  Forall wf_row rows ->
  Forall (fun row => take 3 row <> chars "END") rows ->
  allocs w = [] ->
  input w = map RdData rows ++ rest ->
  exists w',
    readFITSHeader_loop (length rows + fuel) fip nrows false w
    = readFITSHeader_loop fuel (set_var fip (var fip ++ rows))
        (nrows + Z.of_nat (length rows)) false w'
    /\ allocs w' = [] /\ input w' = rest.
Proof.
  induction rows as [|row rows IH]; intros fuel fip nrows w Hwf Hne Ha Hi.
  - exists w. simpl in *. rewrite app_nil_r, Z.add_0_r.
    by destruct fip.
  - apply Forall_cons in Hwf as [Hrow Hwf].
    apply Forall_cons in Hne as [Hnoend Hne].
    assert (Hstr : strncmp_eq 3 row (chars "END") = false).
    { apply not_true_is_false. by rewrite is_END_take. }
    simpl length. simpl Nat.add. cbn [readFITSHeader_loop].
    unfold bind at 1. unfold sys_read at 1. cbn [orb]. rewrite Hi. cbn [map app].
    unfold wf_row in Hrow. rewrite (take_ge row) by lia.
    rewrite decide_True by done. rewrite Hstr.
    unfold bind at 1. unfold bind at 1.
    set (w1 := mkWorld _ _ _ _ _).
    assert (Hadd : exists w2,
      addFImageVar fip row w1 = (set_var fip (var fip ++ [row]), w2)
      /\ allocs w2 = [] /\ input w2 = map RdData rows ++ rest).
    { unfold addFImageVar, bind, sys_malloc, sys_realloc, next_alloc.
      subst w1. simpl. rewrite Ha. simpl. rewrite (take_ge row) by lia.
      destruct (var fip); simpl; eauto. }
    destruct Hadd as (w2 & -> & Ha2 & Hi2). unfold ret at 1. cbn [negb orb].
    destruct (IH fuel (set_var fip (var fip ++ [row])) (nrows + 1)%Z w2)
      as (w' & Heq & Ha' & Hi'); [done..|].
    exists w'. rewrite Heq. split; [|done].
    simpl. rewrite <- app_assoc. simpl. f_equal. lia.
Qed.

Lemma crack_fields_var fip fip' :
  crack_fields atof_times_1000 fip = inr fip' -> var fip' = var fip.
Proof.
  unfold crack_fields. intros H.
  destruct (getLogicalFITS _ _) as [b|]; [|done].
  destruct (decide (b = 0%Z)); [done|].
  destruct (getIntFITS _ _) as [i|]; [|done].
  destruct (decide _); [done|].
  destruct (getNAXIS _) as [|[n1 n2]]; [done|].
  injection H as <-. repeat case_match; reflexivity.
Qed.

(** A row that starts with END ends the stored header, whatever follows
    in the row or in the file. *)
Lemma readFITSHeader_loop_stops rest rows endrow fuel w :
  Forall wf_row rows ->
  Forall (fun row => take 3 row <> chars "END") rows ->
  wf_row endrow -> take 3 endrow = chars "END" ->
  allocs w = [] ->
  input w = map RdData (rows ++ [endrow]) ++ rest ->
  length rows < fuel ->
  snd (fst (readFITSHeader_loop fuel initFImage 0 false w))
  = set_var initFImage rows.
Proof.
  intros Hwf Hne Hend Hpre Ha Hi Hfuel.
  rewrite map_app, <- app_assoc in Hi.
  destruct (readFITSHeader_loop_rows _ rows (fuel - length rows) initFImage
              0 w Hwf Hne Ha Hi) as (w' & Heq & Ha' & Hi').
  replace (length rows + (fuel - length rows)) with fuel in Heq by lia.
  rewrite Heq. simpl var.
  destruct (fuel - length rows) as [|fuel'] eqn:Hf; [lia|].
  cbn [readFITSHeader_loop]. unfold bind at 1. unfold sys_read at 1. cbn [orb].
  rewrite Hi'. cbn [map app]. unfold wf_row in Hend.
  rewrite (take_ge endrow) by lia. rewrite decide_True by done.
  apply is_END_take in Hpre. rewrite Hpre.
  unfold bind at 1. unfold ret at 1. cbn [negb orb].
  destruct (negb _); [|done].
  apply readFITSHeader_loop_sawend.
Qed.

(** Once END has been seen the loop ends well unless a read fails. *)
Lemma readFITSHeader_loop_sawend_done fuel : forall fip nrows w,
  (forall m, RdFail m ∉ input w) ->
  length (input w) < fuel ->
  fst (fst (readFITSHeader_loop fuel fip nrows true w)) = LoopDone.
Proof.
  induction fuel as [|fuel IH]; intros fip nrows w Hok Hfuel; [lia|].
  cbn [readFITSHeader_loop]. unfold bind at 1. unfold sys_read at 1.
  cbn [orb].
  destruct (input w) as [|[m|row] rest] eqn:Hi.
  - by rewrite decide_False by done.
  - exfalso. apply (Hok m). by left.
  - cbn [fst snd]. case_decide; [|done].
    unfold bind at 1. unfold ret at 1. cbn [negb orb].
    destruct (negb _); [|done].
    apply IH; cbn [input].
    + intros m Hm. apply (Hok m). by right.
    + simpl in Hfuel. lia.
Qed.

Lemma readFITSHeader_loop_ends rest rows endrow w :
  Forall wf_row rows ->
  Forall (fun row => take 3 row <> chars "END") rows ->
  wf_row endrow -> take 3 endrow = chars "END" ->
  allocs w = [] ->
  input w = map RdData (rows ++ [endrow]) ++ rest ->
  (forall m, RdFail m ∉ rest) ->
  fst (fst (readFITSHeader_loop (S (length (input w))) initFImage 0 false w))
  = LoopDone.
Proof.
  intros Hwf Hne Hend Hpre Ha Hi Hok.
  set (fuel := S (length (input w))).
  assert (Hfuel : fuel = length rows + S (S (length rest))).
  { unfold fuel. rewrite Hi, !length_app, length_map, length_app. simpl. lia. }
  rewrite map_app, <- app_assoc in Hi.
  destruct (readFITSHeader_loop_rows _ rows (S (S (length rest))) initFImage
              0 w Hwf Hne Ha Hi) as (w' & Heq & Ha' & Hi').
  rewrite Hfuel, Heq.
  remember (S (length rest)) as fuel2 eqn:Hfuel2.
  cbn [readFITSHeader_loop]. unfold bind at 1. unfold sys_read at 1. cbn [orb].
  rewrite Hi'. cbn [map app]. unfold wf_row in Hend.
  rewrite (take_ge endrow) by lia. rewrite decide_True by done.
  apply is_END_take in Hpre. rewrite Hpre.
  unfold bind at 1. unfold ret at 1. cbn [negb orb].
  destruct (negb _); [|done].
  apply readFITSHeader_loop_sawend_done; cbn [input]; [done|lia].
Qed.

(** C8: [readFITSHeader] takes a row for END exactly when its first three
    bytes are E, N, D, whatever columns 4-8 hold. So in a file whose rows
    [rows] do not start so and are followed by a row [endrow] that does
    (ENDX, say), the loop leaves exactly [rows] in the store, whatever comes
    behind [endrow]; a header that is accepted has exactly these rows; and
    where no read behind [endrow] fails, [readFITSHeader] returns what the
    fields of [rows] alone give: 0 with them in the store, or -1 with their
    message. *)
Theorem readFITSHeader_END_prefix :
  (forall row,
     strncmp_eq 3 row (chars "END") = true <-> take 3 row = chars "END")
  /\ (forall rows endrow rest fip0 w,
        Forall wf_row rows ->
        Forall (fun row => take 3 row <> chars "END") rows ->
        wf_row endrow -> take 3 endrow = chars "END" ->
        allocs w = [] ->
        input w = map RdData (rows ++ [endrow]) ++ rest ->
        snd (fst (readFITSHeader_loop (S (length (input w))) initFImage 0
                    false w))
        = set_var initFImage rows
        /\ (forall fip,
              fst (readFITSHeader atof_times_1000 fip0 w) = (OK, fip) ->
              var fip = rows)
        /\ ((forall m, RdFail m ∉ rest) ->
            fst (readFITSHeader atof_times_1000 fip0 w)
            = match crack_fields atof_times_1000 (set_var initFImage rows) with
              | inr fip => (OK, fip)
              | inl errmsg => (ERR errmsg, initFImage)
              end)).
Proof.
  split; [apply is_END_take|].
  intros rows endrow rest fip0 w Hwf Hne Hend Hpre Ha Hi.
  assert (Hfuel : length rows < S (length (input w))).
  { rewrite Hi, !length_app, length_map, length_app. lia. }
  pose proof (readFITSHeader_loop_stops rest rows endrow _ w
                Hwf Hne Hend Hpre Ha Hi Hfuel) as Hloop.
  split; [done|]. split.
  - intros fip. unfold readFITSHeader, bind, read_fuel.
    destruct (readFITSHeader_loop _ _ _ _ _) as [[e fipl] wl]. simpl in Hloop.
    subst fipl. unfold resetFImage, bind, ret.
    destruct e; simpl.
    + destruct (crack_fields _ _) as [m|fip'] eqn:Hc; simpl.
      * by repeat case_match.
      * intros [= <-]. by apply crack_fields_var in Hc.
    + by repeat case_match.
    + by repeat case_match.
  - intros Hok.
    pose proof (readFITSHeader_loop_ends rest rows endrow w
                  Hwf Hne Hend Hpre Ha Hi Hok) as Hdone.
    unfold readFITSHeader, bind, read_fuel. cbn [fst snd].
    destruct (readFITSHeader_loop _ _ _ _ _) as [[e fipl] wl].
    simpl in Hloop, Hdone. subst fipl e.
    destruct (crack_fields _ _) as [m|fip']; [|done].
    unfold resetFImage, bind, ret. cbn [var image set_var initFImage].
    by destruct rows.
Qed.

End ReadHeader.

(** ** The transfer loops end within their bounds *)

Lemma addFImageVar_input fip row w :
  input (snd (addFImageVar fip row w)) = input w.
Proof.
  unfold addFImageVar, bind, ret, sys_malloc, sys_realloc.
  by destruct (var fip), (next_alloc w).
Qed.

Lemma sys_read_input buf_ok count w :
  length (input (snd (sys_read buf_ok count w))) = pred (length (input w))
  /\ (input w = [] -> fst (sys_read buf_ok count w) = RdData []).
Proof.
  unfold sys_read. destruct (input w) eqn:E; simpl; rewrite ?E; split; done.
Qed.

Lemma readFITSHeader_loop_fuel fuel : forall fip nrows sawend w e fip' w',
  length (input w) < fuel ->
  readFITSHeader_loop fuel fip nrows sawend w = (e, fip', w') ->
  e <> LoopFuel.
Proof.
  induction fuel as [|fuel IH]; intros fip nrows sawend w e fip' w' Hf H;
    [lia|]. cbn [readFITSHeader_loop] in H.
  unfold bind at 1 in H.
  pose proof (sys_read_input true FITS_HCOLS w) as [Hlen Hnil].
  destruct (sys_read true FITS_HCOLS w) as [[m|row] w1]; simpl in Hlen, Hnil.
  { by injection H as <- <- <-. }
  case_decide as Hrow.
  2:{ destruct sawend; by injection H as <- <- <-. }
  assert (Hne : input w <> []).
  { intros Hnil'. specialize (Hnil Hnil'). injection Hnil as ->. done. }
  assert (Hlt : length (input w1) < fuel).
  { destruct (input w); [done|]. simpl in *. lia. }
  unfold bind at 1 in H.
  destruct (_ w1) as [[sawend' fip1] w2] eqn:Hr0 in H.
  assert (Hin : input w2 = input w1).
  { destruct sawend; [by injection Hr0 as <- <- <-|].
    destruct (strncmp_eq _ _ _); [by injection Hr0 as <- <- <-|].
    unfold bind in Hr0.
    pose proof (addFImageVar_input fip row w1) as Hadd.
    destruct (addFImageVar fip row w1) as [fip2 w3].
    by injection Hr0 as <- <- <-. }
  destruct (_ || _).
  - eapply IH; [|exact H]. by rewrite Hin.
  - by injection H as <- <- <-.
Qed.

Lemma readFITS_loop_fuel fuel : forall imdata_ok imdata n w e imdata' w',
  length (input w) < fuel ->
  readFITS_loop fuel imdata_ok imdata n w = (e, imdata', w') ->
  e <> LoopFuel.
Proof.
  induction fuel as [|fuel IH]; intros ok imdata n w e imdata' w' Hf H; [lia|].
  cbn [readFITS_loop] in H.
  destruct (_ <? _)%Z; [|by injection H as <- <- <-].
  unfold bind at 1 in H.
  pose proof (sys_read_input ok (Z.to_nat (n - Z.of_nat (length imdata))) w)
    as [Hlen Hnil].
  destruct (sys_read _ _ w) as [[m|bytes] w1]; simpl in Hlen, Hnil.
  { by injection H as <- <- <-. }
  destruct bytes as [|b bytes]; [by injection H as <- <- <-|].
  assert (Hne : input w <> []).
  { intros Hnil'. by specialize (Hnil Hnil'). }
  eapply IH; [|exact H]. destruct (input w); [done|]. simpl in *. lia.
Qed.

(** With the script used up, a write takes all it is given. *)
Lemma writeFITS_loop_fuel_end fuel mem nw nbytes w e w' :
  wscript w = [] -> 0 < fuel ->
  (nbytes <= nw)%Z \/ length mem <= Z.to_nat nw ->
  writeFITS_loop fuel mem nw nbytes w = (e, w') -> e <> LoopFuel.
Proof.
  intros Hs Hf Hend H. destruct fuel as [|fuel]; [lia|].
  cbn [writeFITS_loop] in H.
  destruct (nw <? nbytes)%Z eqn:Hlt; [|by injection H as <- <-].
  apply Z.ltb_lt in Hlt. destruct Hend as [|Hend]; [lia|].
  unfold bind, sys_write in H. rewrite Hs in H.
  rewrite (drop_ge mem), take_nil in H by done. simpl in H.
  destruct (nw <? 0)%Z; by injection H as <- <-.
Qed.

Lemma writeFITS_loop_fuel fuel : forall mem nw nbytes w e w',
  length (wscript w) + 2 <= fuel -> (0 <= nw)%Z ->
  writeFITS_loop fuel mem nw nbytes w = (e, w') -> e <> LoopFuel.
Proof.
  induction fuel as [|fuel IH]; intros mem nw nbytes w e w' Hf Hnw H; [lia|].
  cbn [writeFITS_loop] in H.
  destruct (nw <? nbytes)%Z eqn:Hlt; [|by injection H as <- <-].
  apply Z.ltb_lt in Hlt.
  unfold bind at 1 in H. unfold sys_write in H.
  set (buf := take _ _) in H.
  destruct (wscript w) as [|[m|k] rest] eqn:Hs.
  - destruct (length buf) as [|n] eqn:Hn.
    { destruct (nw <? 0)%Z; by injection H as <- <-. }
    refine (writeFITS_loop_fuel_end fuel mem _ nbytes _ e w' _ _ _ H);
      [done|simpl in Hf; lia|].
    destruct (decide (nbytes <= nw + Z.of_nat (S n))%Z) as [|Hmore];
      [by left|right].
    subst buf. rewrite length_take, length_drop in Hn. lia.
  - destruct (nw <? 0)%Z; by injection H as <- <-.
  - destruct (length (take k buf)) as [|n] eqn:Hn.
    { destruct (nw <? 0)%Z; by injection H as <- <-. }
    eapply IH; [| |exact H]; simpl in *; lia.
Qed.

Lemma pad_2880_loop_fuel_end fuel padbuf nw nbytes w e w' :
  wscript w = [] -> 0 < fuel ->
  (nbytes <= nw)%Z \/ length padbuf <= Z.to_nat nw ->
  pad_2880_loop fuel padbuf nw nbytes w = (e, w') -> e <> LoopFuel.
Proof.
  intros Hs Hf Hend H. destruct fuel as [|fuel]; [lia|].
  cbn [pad_2880_loop] in H.
  destruct (nw <? nbytes)%Z eqn:Hlt; [|by injection H as <- <-].
  apply Z.ltb_lt in Hlt. destruct Hend as [|Hend]; [lia|].
  unfold bind, sys_write in H. rewrite Hs in H.
  rewrite (drop_ge padbuf), take_nil in H by done. simpl in H.
  destruct (nw <? 0)%Z; by injection H as <- <-.
Qed.

Lemma pad_2880_loop_fuel fuel : forall padbuf nw nbytes w e w',
  length (wscript w) + 2 <= fuel -> (0 <= nw)%Z ->
  pad_2880_loop fuel padbuf nw nbytes w = (e, w') -> e <> LoopFuel.
Proof.
  induction fuel as [|fuel IH]; intros mem nw nbytes w e w' Hf Hnw H; [lia|].
  cbn [pad_2880_loop] in H.
  destruct (nw <? nbytes)%Z eqn:Hlt; [|by injection H as <- <-].
  apply Z.ltb_lt in Hlt.
  unfold bind at 1 in H. unfold sys_write in H.
  set (buf := take _ _) in H.
  destruct (wscript w) as [|[m|k] rest] eqn:Hs.
  - destruct (length buf) as [|n] eqn:Hn.
    { destruct (nw <? 0)%Z; by injection H as <- <-. }
    refine (pad_2880_loop_fuel_end fuel mem _ nbytes _ e w' _ _ _ H);
      [done|simpl in Hf; lia|].
    destruct (decide (nbytes <= nw + Z.of_nat (S n))%Z) as [|Hmore];
      [by left|right].
    subst buf. rewrite length_take, length_drop in Hn. lia.
  - destruct (nw <? 0)%Z; by injection H as <- <-.
  - destruct (length (take k buf)) as [|n] eqn:Hn.
    { destruct (nw <? 0)%Z; by injection H as <- <-. }
    eapply IH; [| |exact H]; simpl in *; lia.
Qed.

(** [setCommentFITS]: the bound on the turns of its loop is never met
    either; more turns than [l - n] change nothing. *)
Lemma setCommentFITS_loop_fuel name comment l : forall fuel1 fuel2 fip n w,
  l < n + fuel1 -> l < n + fuel2 ->
  setCommentFITS_loop fuel1 fip name comment n l w
  = setCommentFITS_loop fuel2 fip name comment n l w.
Proof.
  induction fuel1 as [|fuel1 IH]; intros fuel2 fip n w H1 H2.
  - destruct fuel2; simpl; [done|].
    replace (n <? l) with false by (symmetry; apply Nat.ltb_ge; lia). done.
  - destruct fuel2 as [|fuel2]; simpl.
    + replace (n <? l) with false by (symmetry; apply Nat.ltb_ge; lia). done.
    + destruct (n <? l) eqn:Hlt; [|done].
      destruct (n =? 0); unfold bind;
        destruct (addFImageVar _ _ w) as [fip' w1]; apply IH; lia.
Qed.

(** ** Failure and the state of the descriptor *)

Lemma resetFImage_spec fip w :
  fst (resetFImage fip w) = initFImage
  /\ live (snd (resetFImage fip w)) = (live w - held fip)%Z.
Proof.
  unfold resetFImage, held, bind, ret, sys_free.
  destruct (var fip), (image fip); simpl; split; try done; lia.
Qed.

Lemma addFImageVar_held fip row w fip' w' :
  addFImageVar fip row w = (fip', w') ->
  (live w' - held fip' = live w - held fip)%Z /\ image fip' = image fip.
Proof.
  unfold addFImageVar, held, bind, ret, sys_malloc, sys_realloc.
  destruct (var fip) as [|r0 rs] eqn:Hv; simpl;
    destruct (next_alloc w); intros [= <- <-]; simpl; rewrite ?Hv;
    split; try done; try (destruct (image fip); lia).
  all: destruct (_ ++ _) eqn:E; [by destruct rs|]; destruct (image fip); lia.
Qed.

Lemma sys_read_live buf_ok count w :
  live (snd (sys_read buf_ok count w)) = live w.
Proof. unfold sys_read. by destruct (input w). Qed.

Lemma sys_write_live buf w : live (snd (sys_write buf w)) = live w.
Proof. unfold sys_write. by destruct (wscript w) as [|[|]]. Qed.

Lemma readFITSHeader_loop_held fuel : forall fip nrows sawend w e fip' w',
  readFITSHeader_loop fuel fip nrows sawend w = (e, fip', w') ->
  (live w' - held fip' = live w - held fip)%Z /\ image fip' = image fip.
Proof.
  induction fuel as [|fuel IH]; intros fip nrows sawend w e fip' w' H;
    cbn [readFITSHeader_loop] in H.
  { by injection H as <- <- <-. }
  unfold bind at 1 in H.
  pose proof (sys_read_live true FITS_HCOLS w) as Hl.
  destruct (sys_read true FITS_HCOLS w) as [[m|row] w1]; simpl in Hl.
  { injection H as <- <- <-. split; [lia|done]. }
  case_decide.
  2:{ destruct sawend; injection H as <- <- <-; (split; [lia|done]). }
  unfold bind at 1 in H.
  destruct (_ w1) as [[sawend' fip1] w2] eqn:Hr0 in H.
  assert (Hinv : (live w2 - held fip1 = live w - held fip)%Z
                 /\ image fip1 = image fip).
  { destruct sawend; [injection Hr0 as <- <- <-; split; [lia|done]|].
    destruct (strncmp_eq _ _ _);
      [injection Hr0 as <- <- <-; split; [lia|done]|].
    unfold bind in Hr0.
    destruct (addFImageVar fip row w1) as [fip2 w3] eqn:Hadd.
    injection Hr0 as <- <- <-.
    apply addFImageVar_held in Hadd as [H1 H2]. split; [lia|done]. }
  destruct Hinv as [Hi1 Hi2].
  destruct (_ || _).
  - apply IH in H as [H1 H2]. split; [lia|congruence].
  - by injection H as <- <- <-.
Qed.

Section Failure.

Variable host : endian.
Variable atof_times_1000 : list ascii -> Z.

Lemma crack_fields_held fip fip' :
  crack_fields atof_times_1000 fip = inr fip' ->
  var fip' = var fip /\ image fip' = image fip.
Proof.
  unfold crack_fields. intros H.
  destruct (getLogicalFITS _ _) as [b|]; [|done].
  destruct (decide (b = 0%Z)); [done|].
  destruct (getIntFITS _ _) as [i|]; [|done].
  destruct (decide _); [done|].
  destruct (getNAXIS _) as [|[n1 n2]]; [done|].
  injection H as <-. repeat case_match; done.
Qed.

Lemma readFITSHeader_result fip0 w st fip w' :
  readFITSHeader atof_times_1000 fip0 w = (st, fip, w') ->
  match st with
  | ERR _ => fip = initFImage /\ live w' = live w
  | OK => image fip = None /\ live w' = (live w + held fip)%Z
  end.
Proof.
  unfold readFITSHeader, read_fuel. unfold bind at 1. unfold bind at 1.
  destruct (readFITSHeader_loop _ _ _ _ _) as [[e fipl] wl] eqn:Hloop.
  apply readFITSHeader_loop_held in Hloop as [Hl Hi]. simpl in Hl, Hi.
  assert (Hreset : forall m,
    (fip' <- resetFImage fipl ;; ret (ERR m, fip')) wl = (st, fip, w') ->
    match st with
    | ERR _ => fip = initFImage /\ live w' = live w
    | OK => image fip = None /\ live w' = (live w + held fip)%Z
    end).
  { intros m. unfold bind, ret.
    pose proof (resetFImage_spec fipl wl) as [H1 H2].
    destruct (resetFImage fipl wl) as [fipr wr]. simpl in *.
    intros [= <- <- <-]. split; [done|].
    change (held initFImage) with 0%Z in Hl. lia. }
  destruct e; [|apply Hreset..].
  destruct (crack_fields _ _) as [m|fipc] eqn:Hc; [apply Hreset|].
  apply crack_fields_held in Hc as [Hv Him].
  intros [= <- <- <-]. split; [congruence|].
  change (held initFImage) with 0%Z in Hl.
  assert (held fipc = held fipl) by (unfold held; by rewrite Hv, Him).
  lia.
Qed.

Lemma readFITS_loop_live fuel : forall imdata_ok imdata n w e imdata' w',
  readFITS_loop fuel imdata_ok imdata n w = (e, imdata', w') ->
  live w' = live w.
Proof.
  induction fuel as [|fuel IH]; intros ok imdata n w e imdata' w' H;
    cbn [readFITS_loop] in H.
  { by injection H as <- <- <-. }
  destruct (_ <? _)%Z; [|by injection H as <- <- <-].
  unfold bind at 1 in H.
  pose proof (sys_read_live ok (Z.to_nat (n - Z.of_nat (length imdata))) w)
    as Hl.
  destruct (sys_read _ _ w) as [[m|bytes] w1]; simpl in Hl.
  { by injection H as <- <- <-. }
  destruct bytes; [by injection H as <- <- <-|].
  apply IH in H. lia.
Qed.

Lemma writeFITS_loop_live fuel : forall mem nw nbytes w e w',
  writeFITS_loop fuel mem nw nbytes w = (e, w') -> live w' = live w.
Proof.
  induction fuel as [|fuel IH]; intros mem nw nbytes w e w' H;
    cbn [writeFITS_loop] in H.
  { by injection H as <- <-. }
  destruct (nw <? nbytes)%Z; [|by injection H as <- <-].
  unfold bind at 1 in H.
  match type of H with context [sys_write ?b w] =>
    pose proof (sys_write_live b w) as Hl;
    destruct (sys_write b w) as [[m|[|n]] w1] end; simpl in Hl.
  - destruct (nw <? 0)%Z; by injection H as <- <-.
  - destruct (nw <? 0)%Z; by injection H as <- <-.
  - apply IH in H. lia.
Qed.

Lemma pad_2880_loop_live fuel : forall padbuf nw nbytes w e w',
  pad_2880_loop fuel padbuf nw nbytes w = (e, w') -> live w' = live w.
Proof.
  induction fuel as [|fuel IH]; intros mem nw nbytes w e w' H;
    cbn [pad_2880_loop] in H.
  { by injection H as <- <-. }
  destruct (nw <? nbytes)%Z; [|by injection H as <- <-].
  unfold bind at 1 in H.
  match type of H with context [sys_write ?b w] =>
    pose proof (sys_write_live b w) as Hl;
    destruct (sys_write b w) as [[m|[|n]] w1] end; simpl in Hl.
  - destruct (nw <? 0)%Z; by injection H as <- <-.
  - destruct (nw <? 0)%Z; by injection H as <- <-.
  - apply IH in H. lia.
Qed.

Lemma pad_2880_live nbytes w st w' :
  pad_2880 nbytes w = (st, w') -> live w' = live w.
Proof.
  unfold pad_2880. case_decide; [by intros [= <- <-]|].
  unfold bind, write_fuel.
  destruct (pad_2880_loop _ _ _ _ _) as [e w1] eqn:Hloop.
  apply pad_2880_loop_live in Hloop. simpl in Hloop.
  destruct e; intros [= <- <-]; done.
Qed.

Lemma writeFITSHeader_live fip w st w' :
  writeFITSHeader fip w = (st, w') -> live w' = live w.
Proof.
  unfold writeFITSHeader, bind, sys_malloc.
  destruct (next_alloc w); [|by intros [= <- <-]].
  match goal with |- context [sys_write ?b ?w0] =>
    pose proof (sys_write_live b w0) as Hl;
    destruct (sys_write b w0) as [nw w1] end.
  simpl in *. destruct nw as [m|nw]; [intros [= <- <-]; simpl; lia|].
  case_decide; intros [= <- <-]; simpl; lia.
Qed.

Lemma readFITS_failure fip0 w m fip w' :
  readFITS host atof_times_1000 fip0 w = (ERR m, fip, w') ->
  fip = initFImage /\ live w' = live w.
Proof.
  unfold readFITS. unfold bind at 1.
  destruct (readFITSHeader _ _ _) as [[st fiph] wh] eqn:Hh.
  apply readFITSHeader_result in Hh.
  destruct st; [|by intros [= <- <- <-]].
  destruct Hh as [Him Hl].
  unfold bind at 1. unfold sys_malloc at 1.
  destruct (next_alloc wh); cbn [fst snd].
  - unfold bind at 1. unfold sys_malloc at 1. cbn [fst snd].
    set (ok := next_alloc _). set (w2 := mkWorld _ _ _ _ _).
    unfold bind at 1. unfold read_fuel at 1.
    unfold bind at 1.
    destruct (readFITS_loop _ _ _ _ _) as [[e imdata] w3] eqn:Hloop.
    apply readFITS_loop_live in Hloop. simpl in Hloop.
    assert (Hreset : forall msg,
      (fip' <- resetFImage (set_image fiph (Some [])) ;;
       (if ok then sys_free else ret tt) ;;; ret (ERR msg, fip')) w3
        = (ERR m, fip, w') ->
      fip = initFImage /\ live w' = live w).
    { intros msg. unfold bind, ret.
      pose proof (resetFImage_spec (set_image fiph (Some [])) w3) as [H1 H2].
      destruct (resetFImage _ w3) as [fipr wr]. simpl in H1, H2.
      assert (Hh : held (set_image fiph (Some [])) = (held fiph + 1)%Z).
      { unfold held. simpl. rewrite Him. lia. }
      subst ok. destruct (next_alloc _); unfold sys_free; simpl in *;
        intros [= <- <- <-]; simpl; split; try done; lia. }
    destruct e; [|apply Hreset..].
    unfold bind, ret. by destruct ok; intros [=].
  - unfold bind, ret.
    pose proof (resetFImage_spec fiph
                  (mkWorld (tl (allocs wh)) (input wh) (wscript wh)
                     (output wh) (live wh))) as [H1 H2].
    destruct (resetFImage fiph _) as [fipr wr]. simpl in *.
    intros [= <- <- <-]. split; [done|lia].
Qed.

Lemma writeFITS_failure fip restore w m fip' w' :
  writeFITS host fip restore w = (ERR m, fip', w') ->
  set_image fip' (image fip) = fip
  /\ (image fip' = None <-> image fip = None)
  /\ live w' = live w.
Proof.
  unfold writeFITS. destruct (image fip) as [a|] eqn:Him.
  2:{ intros [= <- <- <-]. rewrite Him. by destruct fip; simpl in *; subst. }
  unfold bind at 1.
  destruct (writeFITSHeader fip w) as [st wh] eqn:Hh.
  apply writeFITSHeader_live in Hh.
  destruct st.
  2:{ intros [= <- <- <-]. rewrite Him.
      split_and!; [by destruct fip; simpl in *; subst|done|done]. }
  unfold bind at 1. unfold write_fuel at 1. unfold bind at 1.
  destruct (writeFITS_loop _ _ _ _ _) as [e wl] eqn:Hloop.
  apply writeFITS_loop_live in Hloop. simpl in Hloop.
  destruct e.
  - unfold bind. destruct (pad_2880 _ wl) as [st wp] eqn:Hp.
    apply pad_2880_live in Hp.
    destruct st; intros [= <- <- <-]. simpl.
    split_and!; [by destruct fip; simpl in *; subst|done|lia].
  - intros [= <- <- <-]. simpl.
    split_and!; [by destruct fip; simpl in *; subst|done|lia].
  - intros [= <- <- <-]. simpl.
    split_and!; [by destruct fip; simpl in *; subst|done|lia].
Qed.

End Failure.

(** ** Validation of the axes *)

Section Validation.

Variable atof_times_1000 : list ascii -> Z.

Lemma getNAXIS_below_3 fip n :
  getIntFITS fip (chars "NAXIS") = Some n -> (n < 3)%Z ->
  getNAXIS fip =
    match getIntFITS fip (chars "NAXIS1") with
    | None => inl "No NAXIS1"
    | Some n1 =>
        match getIntFITS fip (chars "NAXIS2") with
        | None => inl "No NAXIS2"
        | Some n2 => inr (n1, n2)
        end
    end.
Proof.
  intros Hn Hlt. unfold getNAXIS, getNAXIS_fuel. rewrite Hn.
  replace (n <? 2147483647)%Z with true by (symmetry; apply Z.ltb_lt; lia).
  cbn [getNAXIS_loop].
  replace (3 <=? n)%Z with false by (symmetry; apply Z.leb_gt; lia).
  reflexivity.
Qed.

(** C2, as amended: a NAXIS value below 2 does not make the validation of
    [readFITSHeader] reject the header. With SIMPLE true and BITPIX one of
    16, 32, -32, a header whose NAXIS is below 2 is accepted when NAXIS1
    and NAXIS2 are present, with their values as width and height, and is
    rejected only for a missing NAXIS1 or NAXIS2. *)
Theorem crack_fields_NAXIS_below_2 fip b i n :
  getLogicalFITS fip (chars "SIMPLE") = Some b -> b <> 0%Z ->
  getIntFITS fip (chars "BITPIX") = Some i ->
  (i = 16 \/ i = 32 \/ i = -32)%Z ->
  getIntFITS fip (chars "NAXIS") = Some n -> (n < 2)%Z ->
  (forall n1 n2,
      getIntFITS fip (chars "NAXIS1") = Some n1 ->
      getIntFITS fip (chars "NAXIS2") = Some n2 ->
      exists fip',
        crack_fields atof_times_1000 fip = inr fip'
        /\ sw fip' = n1 /\ sh fip' = n2 /\ bitpix fip' = i
        /\ var fip' = var fip)
  /\ (getIntFITS fip (chars "NAXIS1") = None ->
      crack_fields atof_times_1000 fip = inl "No NAXIS1")
  /\ (getIntFITS fip (chars "NAXIS1") <> None ->
      getIntFITS fip (chars "NAXIS2") = None ->
      crack_fields atof_times_1000 fip = inl "No NAXIS2").
Proof.
  intros Hs Hb Hbp Hi Hn Hlt.
  assert (Hnax : getNAXIS (set_bitpix fip i) =
    match getIntFITS fip (chars "NAXIS1") with
    | None => inl "No NAXIS1"
    | Some n1 =>
        match getIntFITS fip (chars "NAXIS2") with
        | None => inl "No NAXIS2"
        | Some n2 => inr (n1, n2)
        end
    end).
  { apply (getNAXIS_below_3 (set_bitpix fip i) n); [exact Hn|lia]. }
  unfold crack_fields. rewrite Hs, decide_False, Hbp by done.
  rewrite decide_False by lia. rewrite Hnax.
  split_and!.
  - intros n1 n2 H1 H2. rewrite H1, H2. eexists. split; [reflexivity|].
    repeat case_match; done.
  - by intros ->.
  - intros H1 H2. rewrite H2. by destruct (getIntFITS fip (chars "NAXIS1")).
Qed.

End Validation.

Lemma crack_fields_NAXIS_below_2_witness :
  exists fip',
    crack_fields (fun _ => 0%Z) no_pixels = inr fip'
    /\ sw fip' = 2%Z /\ sh fip' = 3%Z /\ bitpix fip' = 16%Z
    /\ var fip' = var no_pixels.
Proof.
  apply (crack_fields_NAXIS_below_2 (fun _ => 0%Z) no_pixels 1 16 1);
    try reflexivity; try lia; try discriminate.
Defined.

(** Counterexample to C2 as stated: a file whose header has NAXIS = 1 next
    to NAXIS1 and NAXIS2 is read without error. *)
Lemma readFITSHeader_accepts_NAXIS_1 :
  exists fip,
    fst (readFITSHeader (fun _ => 0%Z) initFImage naxis_1_file) = (OK, fip)
    /\ getIntFITS fip (chars "NAXIS") = Some 1%Z
    /\ getIntFITS fip (chars "NAXIS1") = Some 2%Z
    /\ getIntFITS fip (chars "NAXIS2") = Some 3%Z
    /\ sw fip = 2%Z /\ sh fip = 3%Z.
Proof. eexists. split; [vm_compute; reflexivity|]. by vm_compute. Qed.

(** ** Worked examples of the file-level operations *)

Lemma wf_naxis_1_rows : Forall wf_row naxis_1_rows.
Proof. repeat constructor. Qed.

Lemma writeFITSHeader_block_witness :
  fst (writeFITSHeader no_pixels quiet_world) = OK
  /\ output (snd (writeFITSHeader no_pixels quiet_world))
     = concat naxis_1_rows ++ (chars "END" ++ replicate 77 SP)
         ++ concat (replicate 30 (replicate FITS_HCOLS SP)).
Proof.
  destruct (writeFITSHeader_block no_pixels quiet_world wf_naxis_1_rows)
    as (Hok & Hout & _).
  specialize (Hok eq_refl eq_refl).
  split; [exact Hok|]. exact (proj1 (Hout Hok)).
Defined.

Lemma readFITSHeader_END_prefix_witness :
  fst (readFITSHeader (fun _ => 0%Z) initFImage endx_file)
  = (OK, set_size (set_bitpix (set_var initFImage naxis_1_rows) 16) 2 3).
Proof.
  refine (proj2 (proj2 (proj2 (readFITSHeader_END_prefix (fun _ => 0%Z))
                          naxis_1_rows endx_row
                          [RdData (fmtIntFITS (chars "GAIN") 2 None);
                           RdData fmtENDFITS]
                          initFImage endx_file _ _ _ _ _ _)) _).
  - apply wf_naxis_1_rows.
  - repeat constructor; discriminate.
  - reflexivity.
  - reflexivity.
  - reflexivity.
  - reflexivity.
  - intros m Hm. repeat (apply elem_of_cons in Hm as [Hm|Hm]; [discriminate|]).
    by apply elem_of_nil in Hm.
Defined.

Section FailureClaim.

Variable host : endian.
Variable atof_times_1000 : list ascii -> Z.

(** C3, as amended: a failing [readFITSHeader] or [readFITS] returns -1
    with a message and leaves the descriptor as [initFImage] makes it, with
    every block obtained during the call freed; a failing [writeFITS]
    returns -1 with a message and does not reset the descriptor: the header
    store and the other fields are as they were, the pixel buffer is still
    held if there was one, and no block has been freed. *)
Theorem failing_calls :
  (forall fip0 w errmsg fip w',
      readFITSHeader atof_times_1000 fip0 w = (ERR errmsg, fip, w') ->
      fip = initFImage /\ live w' = live w)
  /\ (forall fip0 w errmsg fip w',
        readFITS host atof_times_1000 fip0 w = (ERR errmsg, fip, w') ->
        fip = initFImage /\ live w' = live w)
  /\ (forall fip restore w errmsg fip' w',
        writeFITS host fip restore w = (ERR errmsg, fip', w') ->
        set_image fip' (image fip) = fip
        /\ (image fip' = None <-> image fip = None)
        /\ live w' = live w).
Proof.
  split_and!.
  - intros fip0 w errmsg fip w' H.
    by apply readFITSHeader_result in H.
  - intros fip0 w errmsg fip w' H. by eapply readFITS_failure.
  - intros fip restore w errmsg fip' w' H. by eapply writeFITS_failure.
Qed.

End FailureClaim.


Lemma failing_calls_witness :
  (readFITSHeader (fun _ => 0%Z) six_pixels quiet_world).1.2 = initFImage
  /\ (readFITS LittleEndian (fun _ => 0%Z) six_pixels quiet_world).1.2
     = initFImage
  /\ set_image (writeFITS LittleEndian no_pixels true quiet_world).1.2
       (image no_pixels) = no_pixels.
Proof.
  destruct (failing_calls LittleEndian (fun _ => 0%Z)) as (H1 & H2 & H3).
  split_and!.
  - refine (proj1 (H1 six_pixels quiet_world "header is short" _ _ _)).
    reflexivity.
  - refine (proj1 (H2 six_pixels quiet_world "header is short" _ _ _)).
    reflexivity.
  - refine (proj1 (H3 no_pixels true quiet_world "No pixels :-(" _ _ _)).
    reflexivity.
Defined.

(** Counterexample to C3 as stated: [writeFITS] on a descriptor without
    pixels, and on one whose pixels [write] does not take, returns -1 and
    leaves the descriptor with its header rows and pixels. *)
Lemma writeFITS_failure_keeps_descriptor :
  writeFITS LittleEndian no_pixels true quiet_world
    = (ERR "No pixels :-(", no_pixels, quiet_world)
  /\ no_pixels <> initFImage
  /\ exists w',
      writeFITS LittleEndian six_pixels true short_write_world
        = (ERR "Short write of FITS pixels", six_pixels, w')
      /\ six_pixels <> initFImage
      /\ live w' = live short_write_world.
Proof.
  split_and!; [reflexivity|discriminate|].
  eexists. split_and!; [vm_compute; reflexivity|discriminate|reflexivity].
Qed.

(** ** The pixel codec *)

Section PixelCodec.

Local Open Scope Z_scope.

(** *** Masks and shifts as arithmetic *)

(** A mask of eight ones at bit [k] picks the byte there. *)
Lemma land_byte_mask x k :
  0 <= k -> Z.land x (Z.shiftl 255 k) = (x / 2 ^ k) mod 256 * 2 ^ k.
Proof.
  intros Hk.
  rewrite <- Z.shiftl_mul_pow2, <- (Z.shiftr_div_pow2 x k) by lia.
  change 256 with (2 ^ 8). rewrite <- Z.land_ones by lia.
  change (Z.ones 8) with 255.
  apply Z.bits_inj'. intros n Hn. rewrite Z.land_spec.
  destruct (decide (n < k)).
  - rewrite !Z.shiftl_spec_low by lia. by rewrite andb_false_r.
  - rewrite !Z.shiftl_spec by lia. rewrite Z.land_spec, Z.shiftr_spec by lia.
    do 2 f_equal. lia.
Qed.

(** Bits that do not overlap add up. *)
Lemma lor_add_disjoint hi lo k :
  0 <= k -> 0 <= lo < 2 ^ k -> Z.lor (hi * 2 ^ k) lo = hi * 2 ^ k + lo.
Proof.
  intros Hk Hlo. rewrite <- Z.add_lor_land.
  assert (Hland : Z.land (hi * 2 ^ k) lo = 0); [|rewrite Hland; lia].
  apply Z.bits_inj'. intros n Hn. rewrite Z.land_spec, Z.bits_0.
  destruct (decide (n < k)).
  - by rewrite Z.mul_pow2_bits_low.
  - rewrite <- (Z.mod_small lo (2 ^ k)) by lia.
    rewrite Z.mod_pow2_bits_high by lia. apply andb_false_r.
Qed.

(** On a little-endian host [enFITSPixels] leaves the low byte of the
    biased pixel in the high byte of the short, and the high byte in the
    low one. *)
Lemma en_pixel_le_bytes r0 :
  en_pixel_le r0
  = ((r0 - BZERO) mod 256) * 256 + ((r0 - BZERO) / 256) mod 256.
Proof.
  unfold en_pixel_le. set (p0 := r0 - BZERO).
  change 0xff00 with (Z.shiftl 255 8). change 0xff with (Z.ones 8).
  rewrite land_byte_mask, Z.land_ones by lia.
  rewrite Z.shiftl_mul_pow2, Z.shiftr_div_pow2 by lia.
  rewrite Z.div_mul by lia.
  assert (H0 := Z.mod_pos_bound p0 256 eq_refl).
  assert (H1 := Z.mod_pos_bound (p0 / 2 ^ 8) (2 ^ 8) eq_refl).
  rewrite lor_add_disjoint by lia.
  change (2 ^ 8) with 256 in *. unfold to_ushort.
  apply Z.mod_small. lia.
Qed.

Lemma un_pixel_le_bytes r0 :
  0 <= r0 ->
  un_pixel_le r0 = (r0 * 256 + (r0 / 256) mod 256 + BZERO) mod 65536.
Proof.
  intros Hr. unfold un_pixel_le, to_ushort. change 0xff with (Z.ones 8).
  rewrite Z.land_ones, Z.shiftl_mul_pow2, Z.shiftr_div_pow2 by lia.
  assert (H1 := Z.mod_pos_bound (r0 / 2 ^ 8) (2 ^ 8) eq_refl).
  rewrite lor_add_disjoint by lia. reflexivity.
Qed.

Lemma un_en_pixel_le v : ushort v -> un_pixel_le (en_pixel_le v) = v.
Proof.
  unfold ushort. intros Hv. rewrite en_pixel_le_bytes.
  assert (H0 := Z.mod_pos_bound (v - BZERO) 256 eq_refl).
  assert (H1 := Z.mod_pos_bound ((v - BZERO) / 256) 256 eq_refl).
  rewrite un_pixel_le_bytes by lia. unfold BZERO in *.
  Z.div_mod_to_equations. lia.
Qed.

Lemma byte_of_mod x y : x mod 256 = y mod 256 -> byte_of x = byte_of y.
Proof. unfold byte_of. by intros ->. Qed.

Lemma file_bytes_host_independent v :
  store16 LittleEndian (en_pixel_le v) = store16 BigEndian (en_pixel_be v).
Proof.
  rewrite en_pixel_le_bytes. unfold store16, en_pixel_be, to_ushort, BZERO.
  f_equal; [|f_equal]; apply byte_of_mod; Z.div_mod_to_equations; lia.
Qed.


(** *** 16-bit samples *)

Lemma un_en_pixel_be v : ushort v -> un_pixel_be (en_pixel_be v) = v.
Proof.
  unfold ushort, un_pixel_be, en_pixel_be, to_ushort, BZERO. intros Hv.
  rewrite Zplus_mod_idemp_l. replace (v - 32768 + 32768) with v by lia.
  by apply Z.mod_small.
Qed.

Lemma byte_val_of z : byte_val (byte_of z) = z mod 256.
Proof.
  unfold byte_val, byte_of.
  assert (Hb := Z.mod_pos_bound z 256 eq_refl).
  rewrite N_ascii_embedding by lia. lia.
Qed.

Lemma byte_val_bound c : 0 <= byte_val c < 256.
Proof.
  unfold byte_val. pose proof (N_ascii_bounded c). lia.
Qed.

Lemma load16_store16 host v :
  ushort v ->
  match store16 host v with
  | [b0; b1] => load16 host b0 b1 = v
  | _ => False
  end.
Proof.
  unfold ushort. intros Hv. destruct host; simpl; rewrite !byte_val_of.
  - rewrite (Z.mod_small (v / 256)) by
      (split; [apply Z.div_pos; lia|apply Z.div_lt_upper_bound; lia]).
    pose proof (Z.div_mod v 256). lia.
  - rewrite (Z.mod_small (v / 256)) by
      (split; [apply Z.div_pos; lia|apply Z.div_lt_upper_bound; lia]).
    pose proof (Z.div_mod v 256). lia.
Qed.

Lemma ushorts_of_bytes_of_ushorts host a :
  Forall ushort a -> ushorts_of_bytes host (bytes_of_ushorts host a) = a.
Proof.
  unfold bytes_of_ushorts. induction 1 as [|v a Hv _ IH]; [done|].
  pose proof (load16_store16 host v Hv) as Hl.
  cbn [map concat]. destruct (store16 host v) as [|b0 [|b1 [|]]]; try done.
  simpl. by rewrite IH, Hl.
Qed.

Lemma length_bytes_of_ushorts host a :
  length (bytes_of_ushorts host a) = (2 * length a)%nat.
Proof.
  unfold bytes_of_ushorts. induction a as [|v a IH]; [done|].
  cbn [map concat]. rewrite length_app, IH. destruct host; simpl; lia.
Qed.

Lemma pixel_loop_map f a n :
  (length a <= n)%nat -> pixel_loop f a n = map f a.
Proof.
  revert n. induction a as [|v a IH]; intros n Hn; simpl.
  - by destruct n.
  - destruct n; simpl in *; [lia|]. rewrite IH by lia. done.
Qed.

Lemma to_ushort_ushort z : ushort (to_ushort z).
Proof. unfold ushort, to_ushort. apply Z.mod_pos_bound. lia. Qed.

Lemma lendian_LittleEndian : lendian LittleEndian = true.
Proof. reflexivity. Qed.

Lemma lendian_BigEndian : lendian BigEndian = false.
Proof. reflexivity. Qed.

Lemma int_mul_small a b :
  -2147483648 <= a * b <= 2147483647 -> int_mul a b = a * b.
Proof.
  intros H. unfold int_mul, to_int.
  rewrite Z.mod_small by lia. lia.
Qed.

Lemma enFITSPixels_map host a npix :
  (length a <= Z.to_nat npix)%nat ->
  enFITSPixels host a npix
  = map (if lendian host then en_pixel_le else en_pixel_be) a.
Proof.
  intros H. unfold enFITSPixels.
  destruct (lendian host); by apply pixel_loop_map.
Qed.

Lemma unFITSPixels_map host a npix :
  (length a <= Z.to_nat npix)%nat ->
  unFITSPixels host a npix
  = map (if lendian host then un_pixel_le else un_pixel_be) a.
Proof.
  intros H. unfold unFITSPixels.
  destruct (lendian host); by apply pixel_loop_map.
Qed.

Lemma enFITSPixels_ushort host a npix :
  (length a <= Z.to_nat npix)%nat -> Forall ushort (enFITSPixels host a npix).
Proof.
  intros H. rewrite enFITSPixels_map by done.
  apply Forall_map, Forall_true. intros v.
  destruct (lendian host); apply to_ushort_ushort.
Qed.

Lemma un_en_pixels host a npix :
  Forall ushort a -> (length a <= Z.to_nat npix)%nat ->
  unFITSPixels host (enFITSPixels host a npix) npix = a.
Proof.
  intros Ha Hn. rewrite enFITSPixels_map by done.
  rewrite unFITSPixels_map by (by rewrite length_map).
  rewrite map_map. rewrite <- (map_id a) at 2.
  apply map_ext_Forall. eapply Forall_impl; [exact Ha|].
  intros v Hv. simpl.
  destruct (lendian host); [by apply un_en_pixel_le|by apply un_en_pixel_be].
Qed.

Lemma file_bytes_any_host host1 host2 a npix :
  Forall ushort a -> (length a <= Z.to_nat npix)%nat ->
  bytes_of_ushorts host1 (enFITSPixels host1 a npix)
  = bytes_of_ushorts host2 (enFITSPixels host2 a npix).
Proof.
  intros Ha Hn. rewrite !enFITSPixels_map by done.
  unfold bytes_of_ushorts. rewrite !map_map. f_equal.
  apply map_ext. intros v.
  pose proof (file_bytes_host_independent v).
  by destruct host1, host2.
Qed.

(** What [readFITS] makes of the pixel bytes [writeFITS] wrote, on any
    pair of hosts. *)
Lemma convert_written_pixels host_w host_r img npix :
  Forall ushort img -> length img = Z.to_nat npix ->
  convert_pixels host_r 16 npix
    (bytes_of_ushorts host_w (enFITSPixels host_w img npix))
  = img.
Proof.
  intros Himg Hlen.
  rewrite (file_bytes_any_host host_w host_r) by (done || lia).
  unfold convert_pixels. rewrite decide_True by done.
  rewrite ushorts_of_bytes_of_ushorts by (apply enFITSPixels_ushort; lia).
  rewrite un_en_pixels by (done || lia).
  apply take_ge. lia.
Qed.

(** *** 32-bit samples *)

Lemma swap_int_bytes p0 :
  swap_int p0 =
    (p0 mod 256) * 16777216 + ((p0 / 256) mod 256) * 65536
    + ((p0 / 65536) mod 256) * 256 + (p0 / 16777216) mod 256.
Proof.
  unfold swap_int.
  change 0xFF000000 with (Z.shiftl 255 24).
  change 0x00FF0000 with (Z.shiftl 255 16).
  change 0x0000FF00 with (Z.shiftl 255 8).
  change 0x000000FF with (Z.ones 8).
  rewrite !land_byte_mask, Z.land_ones by lia.
  rewrite !Z.shiftl_mul_pow2, !Z.shiftr_div_pow2 by lia.
  change (2 ^ 24) with 16777216. change (2 ^ 16) with 65536.
  change (2 ^ 8) with 256.
  rewrite Z.div_mul by lia.
  replace (p0 * 256 / 65536) with (p0 / 256)
    by (change 65536 with (256 * 256);
        rewrite Z.div_mul_cancel_r by lia; done).
  rewrite Z.div_div by lia. change (256 * 256) with 65536.
  assert (H0 := Z.mod_pos_bound p0 256 eq_refl).
  assert (H1 := Z.mod_pos_bound (p0 / 256) 256 eq_refl).
  assert (H2 := Z.mod_pos_bound (p0 / 65536) 256 eq_refl).
  assert (H3 := Z.mod_pos_bound (p0 / 16777216) 256 eq_refl).
  change 16777216 with (2 ^ 24) at 1.
  rewrite (lor_add_disjoint _ _ 24) by (change (2 ^ 24) with 16777216; lia).
  change (2 ^ 24) with 16777216.
  replace (p0 mod 256 * 16777216 + (p0 / 256) mod 256 * 65536)
    with ((p0 mod 256 * 256 + (p0 / 256) mod 256) * 2 ^ 16)
    by (change (2 ^ 16) with 65536; lia).
  rewrite (lor_add_disjoint _ _ 16) by (change (2 ^ 16) with 65536; lia).
  change (2 ^ 16) with 65536.
  replace ((p0 mod 256 * 256 + (p0 / 256) mod 256) * 65536
           + (p0 / 65536) mod 256 * 256)
    with (((p0 mod 256 * 256 + (p0 / 256) mod 256) * 256
           + (p0 / 65536) mod 256) * 2 ^ 8)
    by (change (2 ^ 8) with 256; lia).
  rewrite (lor_add_disjoint _ _ 8) by (change (2 ^ 8) with 256; lia).
  change (2 ^ 8) with 256. lia.
Qed.

(** On a little-endian host the swap turns the word the host sees into the
    word the file holds, most significant byte first. *)
Lemma un_float_le_load32 b0 b1 b2 b3 :
  un_float_le (load32 LittleEndian b0 b1 b2 b3)
  = load32 BigEndian b0 b1 b2 b3.
Proof.
  unfold un_float_le, load32, to_uint, to_int. rewrite swap_int_bytes.
  pose proof (byte_val_bound b0). pose proof (byte_val_bound b1).
  pose proof (byte_val_bound b2). pose proof (byte_val_bound b3).
  generalize dependent (byte_val b0). generalize dependent (byte_val b1).
  generalize dependent (byte_val b2). generalize dependent (byte_val b3).
  intros x3 H3 x2 H2 x1 H1 x0 H0.
  set (w := x0 + 256 * x1 + 65536 * x2 + 16777216 * x3).
  set (p0 := (w + 2147483648) mod 4294967296 - 2147483648).
  assert (Hp0 : p0 mod 256 = x0) by (subst p0 w; Z.div_mod_to_equations; lia).
  assert (Hp1 : (p0 / 256) mod 256 = x1) by (subst p0 w; Z.div_mod_to_equations; lia).
  assert (Hp2 : (p0 / 65536) mod 256 = x2) by (subst p0 w; Z.div_mod_to_equations; lia).
  assert (Hp3 : (p0 / 16777216) mod 256 = x3) by (subst p0 w; Z.div_mod_to_equations; lia).
  rewrite Hp0, Hp1, Hp2, Hp3. rewrite Z.mod_small; lia.
Qed.

Lemma clamp_cast_negative m e : clamp_cast (S754_finite true m e) = 0.
Proof. reflexivity. Qed.

Lemma clamp_cast_positive m e :
  clamp_cast (S754_finite false m e) =
    if -8 <? e then 65535
    else if e =? -8
         then if 16776960 <? Z.pos m then 65535 else to_ushort (Z.pos m / 256)
         else to_ushort (Z.pos m / 2 ^ (- e)).
Proof.
  unfold clamp_cast, SFltb, float_0, float_65535. cbn [SFcompare].
  change (PosDef.Pos.compare_cont Eq 16776960%positive m)
    with (Pos.compare 16776960 m).
  destruct (Z.compare_spec (-8) e) as [<-|Hlt|Hgt].
  - change (-8 <? -8) with false. change (-8 =? -8) with true. cbv iota.
    unfold Z.ltb. cbn [Z.compare].
    destruct (Pos.compare 16776960 m); reflexivity.
  - apply Z.ltb_lt in Hlt as Hlt'. rewrite Hlt'. reflexivity.
  - assert (H1 : (-8 <? e) = false) by (apply Z.ltb_ge; lia).
    assert (H2 : (e =? -8) = false) by (apply Z.eqb_neq; lia).
    rewrite H1, H2. unfold ushort_of_float.
    replace (0 <=? e) with false by (symmetry; apply Z.leb_gt; lia).
    reflexivity.
Qed.

Lemma float_pixel_clamped w :
  0 <= w < 4294967296 -> ieee_nan w = false ->
  float_pixel w = clamped_sample w.
Proof.
  intros Hw Hnan. unfold float_pixel.
  unfold clamped_sample, float_of_bits, ieee_nan, ieee_scaled in *.
  set (e := (w / 8388608) mod 256) in *.
  set (m := w mod 8388608) in *.
  assert (He : 0 <= e < 256) by (apply Z.mod_pos_bound; lia).
  assert (Hm : 0 <= m < 8388608) by (apply Z.mod_pos_bound; lia).
  clearbody e m.
  assert (H149 : 2 ^ 149 = 2 ^ 141 * 256) by reflexivity.
  assert (Hp141 : 0 < 2 ^ 141) by reflexivity.
  remember (2 ^ 141) as P eqn:HP.
  destruct (e =? 255) eqn:E255.
  { simpl in Hnan. apply negb_false_iff in Hnan. rewrite Hnan.
    by destruct (Z.testbit w 31). }
  apply Z.eqb_neq in E255.
  destruct (e =? 0) eqn:E0.
  { apply Z.eqb_eq in E0. destruct (m =? 0) eqn:M0.
    - apply Z.eqb_eq in M0. rewrite M0.
      destruct (Z.testbit w 31); reflexivity.
    - apply Z.eqb_neq in M0.
      destruct (Z.testbit w 31).
      + rewrite clamp_cast_negative. rewrite Z.max_l; [reflexivity|].
        apply Z.min_le_iff. left. lia.
      + rewrite clamp_cast_positive. change (-8 <? -149) with false.
        change (-149 =? -8) with false. cbv iota.
        rewrite Z2Pos.id by lia. change (- -149) with 149.
        rewrite Z.min_l by lia. rewrite Z.max_r by lia.
        rewrite (Z.div_small m) by lia. reflexivity. }
  apply Z.eqb_neq in E0.
  assert (Hpow : 0 < 2 ^ (e - 1)) by (apply Z.pow_pos_nonneg; lia).
  destruct (Z.testbit w 31).
  { rewrite clamp_cast_negative. rewrite Z.max_l; [reflexivity|].
    apply Z.min_le_iff. left. nia. }
  rewrite clamp_cast_positive. rewrite Z2Pos.id by lia.
  rewrite Z.max_r by (apply Z.min_glb; nia).
  destruct (-8 <? e - 150) eqn:Hhi.
  - (* beyond 65535 by the exponent alone *)
    apply Z.ltb_lt in Hhi.
    assert (Hsplit : 2 ^ (e - 1) = 2 ^ 142 * 2 ^ (e - 143))
      by (rewrite <- Z.pow_add_r by lia; f_equal; lia).
    assert (0 < 2 ^ (e - 143)) by (apply Z.pow_pos_nonneg; lia).
    rewrite Z.min_r; [by rewrite Z.div_mul|].
    rewrite Hsplit. change (2 ^ 142) with (2 ^ 141 * 2).
    rewrite <- HP, H149. nia.
  - apply Z.ltb_ge in Hhi. destruct (e - 150 =? -8) eqn:Heq.
    + (* the exponent of 65535 *)
      apply Z.eqb_eq in Heq. assert (e = 142) by lia. subst e.
      change (2 ^ (142 - 1)) with (2 ^ 141). rewrite <- HP.
      destruct (16776960 <? 8388608 + m) eqn:Hbig.
      * apply Z.ltb_lt in Hbig.
        rewrite Z.min_r; [by rewrite Z.div_mul|]. rewrite H149. nia.
      * apply Z.ltb_ge in Hbig.
        rewrite Z.min_l by (rewrite H149; nia).
        rewrite H149, (Z.mul_comm (8388608 + m)).
        rewrite Z.div_mul_cancel_l by lia.
        unfold to_ushort. rewrite Z.mod_small; [done|].
        split; [apply Z.div_pos; lia|apply Z.div_lt_upper_bound; lia].
    + (* below 65535 by the exponent alone *)
      apply Z.eqb_neq in Heq.
      assert (Hsplit : 2 ^ 149 = 2 ^ (e - 1) * 2 ^ (150 - e))
        by (rewrite <- Z.pow_add_r by lia; f_equal; lia).
      assert (Hlow : 2 ^ 9 <= 2 ^ (150 - e))
        by (apply Z.pow_le_mono_r; lia).
      assert (0 < 2 ^ (150 - e)) by lia.
      replace (- (e - 150)) with (150 - e) by lia.
      rewrite Z.min_l.
      * rewrite Hsplit, (Z.mul_comm (8388608 + m)).
        rewrite Z.div_mul_cancel_l by lia.
        unfold to_ushort. rewrite Z.mod_small; [done|].
        split; [apply Z.div_pos; lia|].
        apply Z.div_lt_upper_bound; [lia|].
        change (2 ^ 9) with 512 in Hlow. nia.
      * rewrite Hsplit. change (2 ^ 9) with 512 in Hlow. nia.
Qed.


Lemma load32_bound host b0 b1 b2 b3 :
  0 <= load32 host b0 b1 b2 b3 < 4294967296.
Proof.
  pose proof (byte_val_bound b0). pose proof (byte_val_bound b1).
  pose proof (byte_val_bound b2). pose proof (byte_val_bound b3).
  unfold load32. destruct host; lia.
Qed.

Lemma uints_of_bytes_bound host : forall mem,
  Forall (fun w => 0 <= w < 4294967296) (uints_of_bytes host mem).
Proof.
  fix IH 1. intros [|b0 [|b1 [|b2 [|b3 mem]]]]; simpl; try constructor.
  - apply load32_bound.
  - apply IH.
Qed.

(** After the swap a little-endian host holds the words the file holds. *)
Lemma un_float_le_words : forall mem,
  map un_float_le (uints_of_bytes LittleEndian mem)
  = uints_of_bytes BigEndian mem.
Proof.
  fix IH 1. intros [|b0 [|b1 [|b2 [|b3 mem]]]]; try reflexivity.
  cbn [uints_of_bytes map]. by rewrite un_float_le_load32, IH.
Qed.

Lemma take_map_pixel_loop {B} (g : Z -> B) f : forall a n,
  take n (map g (pixel_loop f a n)) = map (fun v => g (f v)) (take n a).
Proof.
  induction a as [|v a IH]; intros [|n]; simpl; try done.
  by rewrite IH.
Qed.

(** The float pixels of [readFITS], on either host, are made one by one of
    the words the file holds. *)
Lemma float_pixels_words host npixels imdata :
  convert_pixels host (-32) npixels imdata
  = map float_pixel
      (take (Z.to_nat npixels) (uints_of_bytes BigEndian imdata)).
Proof.
  unfold convert_pixels.
  rewrite decide_False, decide_False, decide_True by done.
  unfold unFITSPixelsFloat. destruct host.
  - rewrite lendian_LittleEndian, take_map_pixel_loop.
    rewrite <- un_float_le_words, firstn_map, map_map. done.
  - rewrite lendian_BigEndian. by rewrite firstn_map.
Qed.

(** The words of the first bytes of a buffer are words of the buffer. *)
Lemma uints_of_bytes_take host : forall mem k (i : nat) word,
  uints_of_bytes host (take k mem) !! i = Some word ->
  uints_of_bytes host mem !! i = Some word.
Proof.
  fix IH 1.
  intros [|b0 [|b1 [|b2 [|b3 mem]]]] [|[|[|[|k]]]] i word; try done.
  cbn [take uints_of_bytes]. destruct i as [|i]; [done|].
  cbn [lookup list_lookup]. apply IH.
Qed.

End PixelCodec.

Example six_floats_pixels :
  convert_pixels LittleEndian (-32) 6 six_floats = [1; 65534; 65535; 0; 65535; 0]%Z
  /\ convert_pixels BigEndian (-32) 6 six_floats = [1; 65534; 65535; 0; 65535; 0]%Z
  /\ map clamped_sample (uints_of_bytes BigEndian six_floats) = [1; 65534; 65535; 0; 65535; 0]%Z.
Proof. split_and!; vm_compute; reflexivity. Qed.

(** ** Writing a file when nothing fails *)

Section QuietWrite.

Variable host : endian.

Lemma writeFITS_loop_all fuel mem w :
  wscript w = [] -> mem <> [] -> 2 <= fuel ->
  writeFITS_loop fuel mem 0 (Z.of_nat (length mem)) w
  = (LoopDone, written w mem).
Proof.
  intros Hs Hmem Hf. destruct fuel as [|[|fuel]]; [lia..|].
  cbn [writeFITS_loop].
  assert (Hlen : 0 < length mem) by (destruct mem; [done|simpl; lia]).
  replace (0 <? Z.of_nat (length mem))%Z with true
    by (symmetry; apply Z.ltb_lt; lia).
  unfold bind at 1. unfold sys_write. rewrite Hs.
  change (Z.to_nat 0) with 0. rewrite drop_0, Z.sub_0_r, Nat2Z.id.
  rewrite take_ge by done.
  destruct (length mem) as [|n] eqn:Hn; [lia|].
  replace (0 + Z.of_nat (S n) <? Z.of_nat (S n))%Z with false
    by (symmetry; apply Z.ltb_ge; lia).
  unfold ret, written. by rewrite Hs.
Qed.

Lemma pad_2880_loop_all fuel padbuf w :
  wscript w = [] -> padbuf <> [] -> 2 <= fuel ->
  pad_2880_loop fuel padbuf 0 (Z.of_nat (length padbuf)) w
  = (LoopDone, written w padbuf).
Proof.
  intros Hs Hmem Hf. destruct fuel as [|[|fuel]]; [lia..|].
  cbn [pad_2880_loop].
  assert (Hlen : 0 < length padbuf) by (destruct padbuf; [done|simpl; lia]).
  replace (0 <? Z.of_nat (length padbuf))%Z with true
    by (symmetry; apply Z.ltb_lt; lia).
  unfold bind at 1. unfold sys_write. rewrite Hs.
  change (Z.to_nat 0) with 0. rewrite drop_0, Z.sub_0_r, Nat2Z.id.
  rewrite take_ge by done.
  destruct (length padbuf) as [|n] eqn:Hn; [lia|].
  replace (0 + Z.of_nat (S n) <? Z.of_nat (S n))%Z with false
    by (symmetry; apply Z.ltb_ge; lia).
  unfold ret, written. by rewrite Hs.
Qed.

Lemma pad_2880_quiet nbytes w :
  wscript w = [] -> pad_2880 nbytes w = (OK, written w (padding nbytes)).
Proof.
  intros Hs. unfold pad_2880, padding.
  set (n := Z.rem (2880 - Z.rem nbytes 2880) 2880).
  assert (Hn : (0 <= n)%Z).
  { unfold n. apply Z.rem_nonneg; [done|].
    pose proof (Z.rem_bound_abs nbytes 2880). lia. }
  case_decide as H0.
  - rewrite H0. unfold ret, written. simpl. rewrite app_nil_r.
    by destruct w.
  - unfold bind, write_fuel. rewrite Hs. simpl length.
    assert (Hlen : Z.of_nat (length (replicate (Z.to_nat n) NUL)) = n)
      by (rewrite length_replicate; lia).
    rewrite <- Hlen at 2.
    rewrite pad_2880_loop_all; [done|done| |lia].
    destruct (Z.to_nat n) eqn:E; [lia|done].
Qed.

Lemma writeFITSHeader_quiet fip w :
  wf_store fip -> allocs w = [] -> wscript w = [] ->
  writeFITSHeader fip w = (OK, written w (header_block fip)).
Proof.
  intros Hwf Ha Hs. rewrite writeFITSHeader_unfold by done.
  unfold bind, sys_malloc, next_alloc, sys_write, sys_free, ret, written.
  rewrite Ha. simpl. rewrite Hs. simpl. rewrite decide_True by done.
  do 2 f_equal. lia.
Qed.

(** With nothing failing [writeFITS] leaves the header block, the pixels in
    file order and the padding behind what was written before. *)
Lemma writeFITS_quiet fip a restore w :
  wf_store fip -> allocs w = [] -> wscript w = [] ->
  image fip = Some a -> a <> [] ->
  Z.of_nat (length a) = (sw fip * sh fip)%Z ->
  (sw fip * sh fip * 2 <= 2147483647)%Z ->
  let npix := (sw fip * sh fip)%Z in
  let a1 := enFITSPixels host a npix in
  writeFITS host fip restore w
  = (OK,
     set_image fip (Some (if restore then unFITSPixels host a1 npix else a1)),
     written w (header_block fip ++ bytes_of_ushorts host a1
                  ++ padding (npix * 2))).
Proof.
  intros Hwf Ha Hs Him Hne Hlen Hfit. cbv zeta.
  unfold writeFITS. rewrite Him. unfold bind at 1.
  rewrite writeFITSHeader_quiet by done.
  assert (Hnpix : int_mul (sw fip) (sh fip) = (sw fip * sh fip)%Z)
    by (apply int_mul_small; lia).
  rewrite Hnpix. rewrite int_mul_small by lia.
  set (a1 := enFITSPixels host a (sw fip * sh fip)).
  assert (Hla1 : length a1 = length a).
  { unfold a1. rewrite enFITSPixels_map by lia. apply length_map. }
  assert (Hbytes : Z.of_nat (length (bytes_of_ushorts host a1))
                   = (sw fip * sh fip * 2)%Z).
  { rewrite length_bytes_of_ushorts, Hla1. lia. }
  unfold bind at 1. unfold write_fuel at 1. cbn [fst snd].
  unfold bind at 1. rewrite <- Hbytes at 1.
  rewrite writeFITS_loop_all; [|done| |simpl; lia].
  2:{ intros Hnil. rewrite Hnil in Hbytes. simpl in Hbytes.
      destruct a; [done|simpl in Hlen; lia]. }
  unfold bind. rewrite pad_2880_quiet by done.
  unfold ret, written. simpl. by rewrite <- !app_assoc.
Qed.

End QuietWrite.

(** ** Reading back what was written *)

Section ReadBack.

Variable host : endian.
Variable atof_times_1000 : list ascii -> Z.

(** After END the loop reads on to the end of the block and stores
    nothing. *)
Lemma readFITSHeader_loop_blanks rest : forall rows fuel fip c w,
  Forall wf_row rows ->
  input w = map RdData rows ++ rest ->
  (c + length rows) mod FITS_HROWS = 0 ->
  (forall j, j < length rows -> (c + j) mod FITS_HROWS <> 0) ->
  length rows <= fuel ->
  (if negb true || negb (Z.rem (Z.of_nat c) (Z.of_nat FITS_HROWS) =? 0)%Z
   then readFITSHeader_loop fuel fip (Z.of_nat c) true
   else ret (LoopDone, fip)) w
  = (LoopDone, fip, with_input w rest).
Proof.
  assert (Hrem : forall c : nat,
    (Z.rem (Z.of_nat c) (Z.of_nat FITS_HROWS) =? 0)%Z
    = bool_decide (c mod FITS_HROWS = 0)).
  { intros c. rewrite Z.rem_mod_nonneg by (unfold FITS_HROWS; lia).
    rewrite <- Nat2Z.inj_mod. case_bool_decide as H.
    - rewrite H. done.
    - apply Z.eqb_neq. lia. }
  induction rows as [|row rows IH]; intros fuel fip c w Hwf Hi Hc Hmin Hf.
  - simpl in *. rewrite Nat.add_0_r in Hc. rewrite Hrem, bool_decide_eq_true_2 by done.
    simpl. unfold ret, with_input. rewrite <- Hi. by destruct w.
  - apply Forall_cons in Hwf as [Hrow Hwf].
    assert (H0 : c mod FITS_HROWS <> 0).
    { specialize (Hmin 0). rewrite Nat.add_0_r in Hmin. apply Hmin.
      simpl. lia. }
    rewrite Hrem, bool_decide_eq_false_2 by done. cbn [negb orb].
    destruct fuel as [|fuel]; [simpl in Hf; lia|].
    cbn [readFITSHeader_loop]. unfold bind at 1. unfold sys_read at 1. cbn [orb].
    rewrite Hi. cbn [map app]. unfold wf_row in Hrow.
    rewrite (take_ge row) by lia. rewrite decide_True by done.
    unfold bind at 1. unfold ret at 1.
    replace (Z.of_nat c + 1)%Z with (Z.of_nat (S c)) by lia.
    set (w1 := mkWorld _ _ _ _ _).
    rewrite (IH fuel fip (S c) w1); [done|done|done| | |simpl in Hf; lia].
    + rewrite <- Hc. f_equal. simpl. lia.
    + intros j Hj. replace (S c + j) with (c + S j) by lia.
      apply Hmin. simpl. lia.
Qed.

Lemma header_npad_least n j :
  j < header_npad n -> (n + 1 + j) mod FITS_HROWS <> 0.
Proof.
  intros Hj H0. pose proof (header_npad_spec n) as [_ Hleast].
  specialize (Hleast j H0). lia.
Qed.

(** The header loop on the reads of a regular file that holds the header
    block of [fip]: the rows of [fip] are stored, the rest of the block is
    passed over. *)
Lemma readFITSHeader_loop_file fip rest w :
  wf_store fip ->
  Forall (fun row => take 3 row <> chars "END") (var fip) ->
  allocs w = [] -> input w = file_reads fip rest ->
  exists w',
    readFITSHeader_loop (S (length (input w))) initFImage 0 false w
    = (LoopDone, set_var initFImage (var fip), w')
    /\ allocs w' = [] /\ input w' = [RdData rest].
Proof.
  intros Hwf Hne Ha Hi. unfold file_reads in Hi.
  rewrite map_app, <- app_assoc in Hi. cbn [map app] in Hi.
  set (blanks := replicate (header_npad (nvar fip)) blank_row) in *.
  set (fuel := S (length (input w))).
  pose (fuel2 := S (S (length blanks))).
  assert (Hfuel : fuel = length (var fip) + S fuel2).
  { unfold fuel, fuel2. rewrite Hi, length_app, length_map. simpl.
    rewrite length_app, length_map. simpl. lia. }
  clearbody fuel2.
  rewrite Hfuel.
  assert (Hfuel2 : length blanks <= fuel2).
  { unfold fuel in Hfuel. rewrite Hi, length_app, length_map in Hfuel.
    simpl in Hfuel. rewrite length_app, length_map in Hfuel. lia. }
  destruct (readFITSHeader_loop_rows _ (var fip) (S fuel2)
              initFImage 0 w Hwf Hne Ha Hi) as (w1 & Heq & Ha1 & Hi1).
  rewrite Heq. clear Heq. cbn [var initFImage app].
  change (set_var initFImage (var initFImage ++ var fip))
    with (set_var initFImage (var fip)).
  cbn [readFITSHeader_loop]. unfold bind at 1. unfold sys_read at 1. cbn [orb].
  rewrite Hi1.
  rewrite (take_ge fmtENDFITS) by (rewrite length_fmtENDFITS; done).
  rewrite decide_True by apply length_fmtENDFITS.
  change (strncmp_eq 3 fmtENDFITS (chars "END")) with true.
  unfold bind at 1. unfold ret at 1.
  set (w2 := mkWorld _ _ _ _ _).
  replace (0 + Z.of_nat (length (var fip)) + 1)%Z
    with (Z.of_nat (nvar fip + 1)) by (unfold nvar; lia).
  rewrite (readFITSHeader_loop_blanks [RdData rest] blanks).
  - eexists. split; [reflexivity|]. split; [exact Ha1|reflexivity].
  - apply Forall_replicate. unfold wf_row, blank_row.
    apply length_replicate.
  - reflexivity.
  - unfold blanks. rewrite length_replicate.
    apply (proj1 (header_npad_spec (nvar fip))).
  - unfold blanks. rewrite length_replicate. intros j Hj.
    by apply header_npad_least.
  - lia.
Qed.

Lemma readFITSHeader_file fip fip0 rest w fiph :
  wf_store fip ->
  Forall (fun row => take 3 row <> chars "END") (var fip) ->
  allocs w = [] -> input w = file_reads fip rest ->
  crack_fields atof_times_1000 (set_var initFImage (var fip)) = inr fiph ->
  exists w',
    readFITSHeader atof_times_1000 fip0 w = (OK, fiph, w')
    /\ allocs w' = [] /\ input w' = [RdData rest].
Proof.
  intros Hwf Hne Ha Hi Hc.
  destruct (readFITSHeader_loop_file fip rest w Hwf Hne Ha Hi)
    as (w' & Hloop & Ha' & Hi').
  exists w'. unfold readFITSHeader, bind, read_fuel. cbn [fst snd].
  rewrite Hloop. by rewrite Hc.
Qed.

Lemma crack_fields_bitpix fip fiph :
  crack_fields atof_times_1000 fip = inr fiph ->
  bitpix fiph = 16%Z \/ bitpix fiph = 32%Z \/ bitpix fiph = (-32)%Z.
Proof.
  unfold crack_fields. intros H.
  destruct (getLogicalFITS _ _) as [b|]; [|done].
  destruct (decide (b = 0%Z)); [done|].
  destruct (getIntFITS _ _) as [i|]; [|done].
  destruct (decide (i <> 16%Z /\ i <> 32%Z /\ i <> (-32)%Z)) as [|Hi];
    [done|].
  destruct (getNAXIS _) as [|[n1 n2]]; [done|].
  injection H as <-. repeat case_match; simpl; lia.
Qed.

(** [readFITS] on such a file: the pixel bytes wanted are read in one go
    and converted according to the BITPIX of the header. *)
Lemma readFITS_file fip fip0 rest w fiph :
  wf_store fip ->
  Forall (fun row => take 3 row <> chars "END") (var fip) ->
  allocs w = [] -> input w = file_reads fip rest ->
  crack_fields atof_times_1000 (set_var initFImage (var fip)) = inr fiph ->
  let npixels := (sw fiph * sh fiph)%Z in
  let nbytesfile := (npixels * (Z.abs (bitpix fiph) / 8))%Z in
  (1 <= npixels)%Z ->
  (npixels * Z.abs (bitpix fiph) <= 2147483647)%Z ->
  (nbytesfile <= Z.of_nat (length rest))%Z ->
  exists w',
    readFITS host atof_times_1000 fip0 w
    = (OK,
       set_bitpix
         (set_image fiph
            (Some (convert_pixels host (bitpix fiph) npixels
                     (take (Z.to_nat nbytesfile) rest))))
         16,
       w').
Proof.
  intros Hwf Hne Ha Hi Hc npixels nbytesfile Hn1 Hn32 Hrest.
  pose proof (crack_fields_bitpix _ _ Hc) as Hbp.
  destruct (readFITSHeader_file fip fip0 rest w fiph Hwf Hne Ha Hi Hc)
    as (w1 & Hh & Ha1 & Hi1).
  unfold readFITS. unfold bind at 1. rewrite Hh.
  assert (Habs : (Z.abs (bitpix fiph) = 8 * (Z.abs (bitpix fiph) / 8)
                  /\ 2 <= Z.abs (bitpix fiph) / 8 <= 4)%Z).
  { destruct Hbp as [-> | [-> | ->]];
      [change (Z.abs 16 / 8)%Z with 2%Z
      |change (Z.abs 32 / 8)%Z with 4%Z
      |change (Z.abs (-32) / 8)%Z with 4%Z];
      (split; [reflexivity|lia]). }
  destruct Habs as [Habs Hk].
  assert (Hnp : int_mul (sw fiph) (sh fiph) = npixels)
    by (apply int_mul_small; subst npixels; nia).
  rewrite Hnp.
  rewrite (int_mul_small npixels (Z.abs (bitpix fiph))) by nia.
  assert (Hq : (npixels * Z.abs (bitpix fiph) ÷ 8 = nbytesfile)%Z).
  { rewrite Habs at 1.
    replace (npixels * (8 * (Z.abs (bitpix fiph) / 8)))%Z
      with (nbytesfile * 8)%Z by (unfold nbytesfile; lia).
    apply Z.quot_mul. lia. }
  rewrite Hq.
  assert (Hnb : (0 < nbytesfile)%Z) by (unfold nbytesfile; nia).
  unfold bind at 1. unfold sys_malloc at 1. unfold next_alloc at 1.
  rewrite Ha1. cbn [hd tl fst snd].
  unfold bind at 1. unfold sys_malloc at 1. unfold next_alloc at 1.
  cbn [allocs hd tl fst snd].
  unfold bind at 1. unfold read_fuel at 1. cbn [input fst snd].
  rewrite Hi1. cbn [length].
  unfold bind at 1. cbn [readFITS_loop length].
  replace (Z.of_nat 0 <? nbytesfile)%Z with true
    by (symmetry; apply Z.ltb_lt; lia).
  unfold bind at 1. unfold sys_read at 1. cbn [orb]. cbn [input].
  rewrite Z.sub_0_r. rewrite app_nil_l.
  set (imdata := take (Z.to_nat nbytesfile) rest).
  assert (Hlen : length imdata = Z.to_nat nbytesfile).
  { unfold imdata. rewrite length_take. lia. }
  destruct imdata as [|b imdata'] eqn:Him; [simpl in Hlen; lia|].
  rewrite Hlen.
  replace (Z.of_nat (Z.to_nat nbytesfile) <? nbytesfile)%Z with false
    by (symmetry; apply Z.ltb_ge; lia).
  unfold ret at 1. unfold bind, sys_free, ret, next_alloc.
  cbn [fst snd allocs hd bitpix set_image]. rewrite <- Him.
  eexists. reflexivity.
Qed.

(** Without a bound on the pixel count: when [readFITS] returns 0 on such
    a file, the pixels are made of bytes from the head of what follows the
    header. *)
Lemma readFITS_file_any fip fip0 rest w fiph fipr w' :
  wf_store fip ->
  Forall (fun row => take 3 row <> chars "END") (var fip) ->
  allocs w = [] -> input w = file_reads fip rest ->
  crack_fields atof_times_1000 (set_var initFImage (var fip)) = inr fiph ->
  readFITS host atof_times_1000 fip0 w = (OK, fipr, w') ->
  exists k,
    fipr = set_bitpix
             (set_image fiph
                (Some (convert_pixels host (bitpix fiph)
                         (int_mul (sw fiph) (sh fiph)) (take k rest))))
             16.
Proof.
  intros Hwf Hne Ha Hi Hc.
  destruct (readFITSHeader_file fip fip0 rest w fiph Hwf Hne Ha Hi Hc)
    as (w1 & Hh & Ha1 & Hi1).
  unfold readFITS. unfold bind at 1. rewrite Hh.
  set (npixels := int_mul (sw fiph) (sh fiph)).
  set (nbytesfile := Z.quot _ 8).
  unfold bind at 1. unfold sys_malloc at 1. unfold next_alloc at 1.
  rewrite Ha1. cbn [hd tl fst snd].
  unfold bind at 1. unfold sys_malloc at 1. unfold next_alloc at 1.
  cbn [allocs hd tl fst snd].
  unfold bind at 1. unfold read_fuel at 1. cbn [input fst snd].
  rewrite Hi1. cbn [length].
  unfold bind at 1. cbn [readFITS_loop length].
  destruct (Z.of_nat 0 <? nbytesfile)%Z eqn:Hpos.
  2:{ unfold ret at 1. unfold bind, sys_free, ret.
      cbn [fst snd bitpix set_image].
      intros [= <- <-]. exists 0. by rewrite take_0. }
  unfold bind at 1. unfold sys_read at 1. cbn [orb input].
  rewrite Z.sub_0_r, app_nil_l.
  destruct (take (Z.to_nat nbytesfile) rest) as [|b imdata'] eqn:Him.
  { unfold ret at 1. unfold resetFImage, bind, sys_free, ret.
    repeat case_match; intros [=]. }
  cbn [fst snd].
  destruct (Z.of_nat (length (b :: imdata')) <? nbytesfile)%Z.
  { unfold bind at 1. unfold sys_read at 1. cbn [input].
    unfold ret at 1. unfold resetFImage, bind, sys_free, ret.
    repeat case_match; intros [=]. }
  unfold ret at 1. unfold bind, sys_free, ret.
  cbn [fst snd bitpix set_image].
  intros [= <- <-]. exists (Z.to_nat nbytesfile). by rewrite Him.
Qed.
End ReadBack.

(** ** Writing an image and reading it back *)

Section RoundTrip.

Variables host_w host_r : endian.
Variable atof_times_1000 : list ascii -> Z.

(** C1, as amended: an image of [sw] by [sh] unsigned shorts, both at
    least 1 and their product times 16 within an int, in a descriptor whose
    header rows declare it (none of them starting with END), written by
    [writeFITS] on a host of either byte order with nothing failing, and
    read by [readFITS] on a host of either byte order from a regular file
    that holds what was written, comes back pixel for pixel; and
    [unFITSPixels] after [enFITSPixels] is the identity on the buffer. *)
Theorem write_then_read fip img restore fiph w_w :
  wf_store fip ->
  Forall (fun row => take 3 row <> chars "END") (var fip) ->
  declares atof_times_1000 fip fiph ->
  image fip = Some img -> Forall ushort img ->
  (1 <= sw fip)%Z -> (1 <= sh fip)%Z ->
  (sw fip * sh fip * 16 <= 2147483647)%Z ->
  Z.of_nat (length img) = (sw fip * sh fip)%Z ->
  allocs w_w = [] -> wscript w_w = [] ->
  let npix := (sw fip * sh fip)%Z in
  unFITSPixels host_w (enFITSPixels host_w img npix) npix = img
  /\ exists fipw ww rest,
      writeFITS host_w fip restore w_w = (OK, fipw, ww)
      /\ output ww = output w_w ++ header_block fip ++ rest
      /\ forall fip0 w_r,
           allocs w_r = [] -> input w_r = file_reads fip rest ->
           exists fipr w',
             readFITS host_r atof_times_1000 fip0 w_r = (OK, fipr, w')
             /\ image fipr = Some img
             /\ var fipr = var fip
             /\ sw fipr = sw fip /\ sh fipr = sh fip /\ bitpix fipr = 16%Z.
Proof.
  intros Hwf Hne (Hc & Hbp & Hsw & Hsh) Him Himg Hw Hh Hfit Hlen Ha Hs npix.
  assert (Hnpix : (1 <= npix)%Z) by (unfold npix; nia).
  assert (Hne' : img <> []) by (intros ->; simpl in Hlen; lia).
  split; [apply un_en_pixels; [done|lia]|].
  pose proof (writeFITS_quiet host_w fip img restore w_w Hwf Ha Hs Him Hne'
                Hlen) as Hwr.
  cbv zeta in Hwr. rewrite Hwr by lia. fold npix.
  set (a1 := enFITSPixels host_w img npix).
  eexists _, _, (bytes_of_ushorts host_w a1 ++ padding (npix * 2)).
  split; [reflexivity|]. split; [reflexivity|].
  intros fip0 w_r Har Hir.
  assert (Hla1 : length a1 = length img).
  { unfold a1. rewrite enFITSPixels_map by lia. apply length_map. }
  assert (Hbl : length (bytes_of_ushorts host_w a1) = Z.to_nat (npix * 2)).
  { rewrite length_bytes_of_ushorts, Hla1. lia. }
  destruct (readFITS_file host_r atof_times_1000 fip fip0 _ w_r fiph
              Hwf Hne Har Hir Hc) as (w' & Hrd).
  - rewrite Hsw, Hsh. done.
  - rewrite Hbp, Hsw, Hsh. change (Z.abs 16) with 16%Z. done.
  - rewrite Hbp, Hsw, Hsh. change (Z.abs 16 / 8)%Z with 2%Z. fold npix.
    rewrite length_app. lia.
  - rewrite Hbp, Hsw, Hsh in Hrd. change (Z.abs 16 / 8)%Z with 2%Z in Hrd.
    fold npix in Hrd.
    rewrite take_app_length' in Hrd by done.
    unfold a1 in Hrd. rewrite convert_written_pixels in Hrd by (done || lia).
    eexists _, w'. split; [exact Hrd|]. simpl.
    apply (crack_fields_var atof_times_1000) in Hc. simpl in Hc.
    by rewrite Hc, Hsw, Hsh.
Qed.

End RoundTrip.

Lemma write_then_read_witness :
  exists fipw ww rest,
    writeFITS LittleEndian six_pixels true quiet_world = (OK, fipw, ww)
    /\ output ww = output quiet_world ++ header_block six_pixels ++ rest
    /\ forall fip0 w_r,
         allocs w_r = [] -> input w_r = file_reads six_pixels rest ->
         exists fipr w',
           readFITS BigEndian (fun _ => 0%Z) fip0 w_r = (OK, fipr, w')
           /\ image fipr = Some [0; 1; 65535; 32768; 32767; 256]%Z
           /\ var fipr = var six_pixels
           /\ sw fipr = sw six_pixels /\ sh fipr = sh six_pixels
           /\ bitpix fipr = 16%Z.
Proof.
  refine (proj2 (write_then_read LittleEndian BigEndian (fun _ => 0%Z)
                   six_pixels [0; 1; 65535; 32768; 32767; 256]%Z true
                   (set_size (set_bitpix (set_var initFImage naxis_1_rows) 16)
                      2 3)
                   quiet_world _ _ _ _ _ _ _ _ _ _ _)).
  - apply wf_naxis_1_rows.
  - repeat constructor; discriminate.
  - repeat split.
  - reflexivity.
  - unfold ushort. repeat constructor; lia.
  - simpl. lia.
  - simpl. lia.
  - simpl. lia.
  - reflexivity.
  - reflexivity.
  - reflexivity.
Defined.

Lemma pixel_loop_0 f a : pixel_loop f a 0 = a.
Proof. by destruct a. Qed.

(** Counterexample to C1 as stated: for a width and a height of 65536 the
    pixel count is 0 as an int. [writeFITS] returns 0 and has written the
    header block and not one pixel; [readFITS] on that file returns 0 with
    the declared size and an empty pixel buffer. *)
Lemma write_then_read_loses_pixels :
  (exists img,
     image huge_image = Some img
     /\ Z.of_nat (length img) = (sw huge_image * sh huge_image)%Z
     /\ Forall ushort img /\ img <> [])
  /\ declares (fun _ => 0%Z) huge_image
       (set_size (set_bitpix (set_var initFImage huge_rows) 16) 65536 65536)
  /\ writeFITS LittleEndian huge_image true quiet_world
     = (OK, huge_image, written quiet_world (header_block huge_image))
  /\ input huge_file = file_reads huge_image []
  /\ fst (readFITS LittleEndian (fun _ => 0%Z) initFImage huge_file)
     = (OK,
        set_image
          (set_size (set_bitpix (set_var initFImage huge_rows) 16) 65536 65536)
          (Some [])).
Proof.
  split_and!.
  - exists (replicate (Z.to_nat 4294967296) 0%Z). split_and!.
    + reflexivity.
    + rewrite length_replicate. change (sw huge_image) with 65536%Z.
      change (sh huge_image) with 65536%Z. lia.
    + apply Forall_replicate. unfold ushort. lia.
    + intros H. apply (f_equal length) in H.
      rewrite length_replicate in H. simpl length in H. lia.
  - unfold declares. change (var huge_image) with huge_rows.
    split_and!; [vm_compute; reflexivity|reflexivity..].
  - unfold writeFITS.
    change (image huge_image) with (Some (replicate (Z.to_nat 4294967296) 0%Z)).
    cbv iota. unfold bind at 1.
    rewrite writeFITSHeader_quiet;
      [|repeat constructor|reflexivity|reflexivity].
    change (int_mul (sw huge_image) (sh huge_image)) with 0%Z.
    change (int_mul 0 2) with 0%Z.
    unfold enFITSPixels, unFITSPixels. rewrite lendian_LittleEndian.
    change (Z.to_nat 0) with 0. rewrite !pixel_loop_0.
    unfold bind at 1. unfold write_fuel at 1. cbn [fst snd].
    unfold bind at 1. cbn [writeFITS_loop Z.ltb Z.compare].
    unfold ret at 1. unfold bind at 1.
    change (pad_2880 0) with (ret (A:=World) OK) || idtac.
    reflexivity.
  - reflexivity.
  - vm_compute. reflexivity.
Qed.

(** ** Float samples in a file *)

Lemma length_uints_of_bytes host : forall mem,
  length (uints_of_bytes host mem) = length mem / 4.
Proof.
  fix IH 1. intros [|b0 [|b1 [|b2 [|b3 mem]]]]; try reflexivity.
  cbn [uints_of_bytes length]. rewrite IH.
  change (S (S (S (S (length mem))))) with (4 + length mem).
  replace (4 + length mem) with (length mem + 1 * 4) by lia.
  rewrite Nat.div_add by lia. lia.
Qed.

Section FloatRead.

Variable host : endian.
Variable atof_times_1000 : list ascii -> Z.

(** C4: from a file whose header declares BITPIX = -32, each sample that
    [readFITS] stores is made of the four bytes at its place in the file
    alone: it is the value of the float they hold, most significant byte
    first, clamped to the closed range 0 to 65535 and then truncated, with
    no bias, on a host of either byte order, whatever the other samples
    are. (For a NaN the cast to unsigned short is left undefined by C.)
    And where width times height is at least 1 and, times 32, within an
    int, and the file has the bytes, [readFITS] returns 0 with that many
    samples. *)
Theorem readFITS_float_samples fip fip0 fiph rest w :
  wf_store fip ->
  Forall (fun row => take 3 row <> chars "END") (var fip) ->
  allocs w = [] -> input w = file_reads fip rest ->
  crack_fields atof_times_1000 (set_var initFImage (var fip)) = inr fiph ->
  bitpix fiph = (-32)%Z ->
  (forall fipr w' a (i : nat) v,
      readFITS host atof_times_1000 fip0 w = (OK, fipr, w') ->
      image fipr = Some a -> a !! i = Some v ->
      exists word,
        uints_of_bytes BigEndian rest !! i = Some word
        /\ (ieee_nan word = false -> v = clamped_sample word))
  /\ (let npixels := (sw fiph * sh fiph)%Z in
      (1 <= npixels)%Z -> (npixels * 32 <= 2147483647)%Z ->
      (npixels * 4 <= Z.of_nat (length rest))%Z ->
      exists fipr w' a,
        readFITS host atof_times_1000 fip0 w = (OK, fipr, w')
        /\ image fipr = Some a
        /\ Z.of_nat (length a) = npixels
        /\ bitpix fipr = 16%Z).
Proof.
  intros Hwf Hne Ha Hi Hc Hbp. split.
  - intros fipr w' a i v Hrd Him Hv.
    destruct (readFITS_file_any host atof_times_1000 fip fip0 rest w fiph
                fipr w' Hwf Hne Ha Hi Hc Hrd) as (k & ->).
    cbn [image set_image set_bitpix] in Him. injection Him as <-.
    rewrite Hbp, float_pixels_words in Hv.
    apply list_lookup_fmap_Some in Hv as (word & -> & Hword).
    apply lookup_take_Some in Hword as [Hword _].
    exists word. split; [by eapply uints_of_bytes_take|].
    intros Hnan. apply float_pixel_clamped; [|done].
    pose proof (uints_of_bytes_bound BigEndian (take k rest)) as Hb.
    by eapply Forall_lookup_1 in Hb.
  - intros npixels Hn1 Hn32 Hlen.
    destruct (readFITS_file host atof_times_1000 fip fip0 rest w fiph
                Hwf Hne Ha Hi Hc) as (w' & Hrd).
    + done.
    + rewrite Hbp. change (Z.abs (-32)) with 32%Z. done.
    + rewrite Hbp. change (Z.abs (-32) / 8)%Z with 4%Z. done.
    + eexists _, w', _. split; [exact Hrd|]. split; [reflexivity|].
      split; [|reflexivity].
      rewrite Hbp. change (Z.abs (-32) / 8)%Z with 4%Z. fold npixels.
      rewrite float_pixels_words, length_map, length_take.
      rewrite length_uints_of_bytes, length_take.
      assert (Z.to_nat npixels <= (Z.to_nat (npixels * 4) `min` length rest) / 4)%nat;
        [|lia].
      rewrite Nat.min_l by lia.
      replace (Z.to_nat (npixels * 4)) with (Z.to_nat npixels * 4)%nat by lia.
      rewrite Nat.div_mul by lia. done.
Qed.

End FloatRead.

Lemma readFITS_float_samples_witness :
  exists fipr w' a,
    readFITS LittleEndian (fun _ => 0%Z) initFImage nan_file = (OK, fipr, w')
    /\ image fipr = Some a
    /\ Z.of_nat (length a) = 6%Z
    /\ forall (i : nat) v, a !! i = Some v ->
         exists word,
           uints_of_bytes BigEndian (nan_floats ++ padding 24) !! i = Some word
           /\ (ieee_nan word = false -> v = clamped_sample word).
Proof.
  destruct (readFITS_float_samples LittleEndian (fun _ => 0%Z)
              (set_var initFImage float_rows) initFImage
              (set_size (set_bitpix (set_var initFImage float_rows) (-32)) 3 2)
              (nan_floats ++ padding 24) nan_file)
    as [Hsample Hreads].
  - repeat constructor.
  - repeat constructor; discriminate.
  - reflexivity.
  - reflexivity.
  - reflexivity.
  - reflexivity.
  - destruct Hreads as (fipr & w' & a & Hrd & Him & Hlen & _).
    + simpl. lia.
    + simpl. lia.
    + vm_compute. discriminate.
    + exists fipr, w', a. split_and!; [exact Hrd|exact Him|exact Hlen|].
      intros i v Hv. exact (Hsample fipr w' a i v Hrd Him Hv).
Defined.

Example float_file_pixels :
  fst (readFITS LittleEndian (fun _ => 0%Z) initFImage float_file)
  = (OK,
     set_image
       (set_size (set_bitpix (set_var initFImage float_rows) 16) 3 2)
       (Some [1; 65534; 65535; 0; 65535; 0]%Z)).
Proof. vm_compute. reflexivity. Qed.

(** * Further properties *)

(** ** Decimal numbers in cards *)

(** The digits of an unsigned decimal, as [digits_value] reads them. *)
Lemma digits_value_of_uint_acc d : forall acc rest,
  isdigit (hd NUL rest) = false ->
  digits_value (Z.pos acc) (chars (NilEmpty.string_of_uint d) ++ rest)
  = Z.pos (Pos.of_uint_acc d acc).
Proof.
  induction d; intros acc rest Hrest; simpl;
    try (rewrite <- (IHd _ rest Hrest); f_equal; lia).
  destruct rest as [|c rest]; simpl in *; [done|]. by rewrite Hrest.
Qed.

Lemma digits_value_of_uint d : forall rest,
  isdigit (hd NUL rest) = false ->
  digits_value 0 (chars (NilEmpty.string_of_uint d) ++ rest)
  = Z.of_N (Pos.of_uint d).
Proof.
  induction d; intros rest Hrest; simpl;
    try (by rewrite <- (digits_value_of_uint_acc d _ rest Hrest)).
  - destruct rest as [|c rest]; simpl in *; [done|]. by rewrite Hrest.
  - by apply IHd.
Qed.

Lemma digits_string_of_uint d :
  Forall (fun c => isdigit c = true) (chars (NilEmpty.string_of_uint d)).
Proof. induction d; simpl; by constructor. Qed.

Lemma length_string_of_uint d :
  length (chars (NilEmpty.string_of_uint d)) = Decimal.nb_digits d.
Proof. induction d; simpl; by f_equal. Qed.

(** A decimal of [n] digits whose first digit is not 0 is at least
    [10 ^ (n - 1)]. *)
Lemma of_uint_acc_lower d : forall acc,
  (Z.pos acc * 10 ^ Z.of_nat (Decimal.nb_digits d)
   <= Z.pos (Pos.of_uint_acc d acc))%Z.
Proof.
  induction d; intros acc; simpl Decimal.nb_digits; simpl Pos.of_uint_acc;
    [simpl; lia|..];
    (etrans; [|apply IHd]);
    rewrite Nat2Z.inj_succ, Z.pow_succ_r by lia;
    pose proof (Z.pow_pos_nonneg 10 (Z.of_nat (Decimal.nb_digits d))); nia.
Qed.

Lemma nb_digits_to_uint p :
  (10 ^ (Z.of_nat (Decimal.nb_digits (Pos.to_uint p)) - 1) <= Z.pos p)%Z.
Proof.
  pose proof (DecimalPos.Unsigned.of_to p) as Hof.
  pose proof (DecimalN.Unsigned.to_of (Pos.to_uint p)) as Hnorm.
  change (N.of_uint (Pos.to_uint p)) with (Pos.of_uint (Pos.to_uint p)) in Hnorm.
  rewrite Hof in Hnorm. simpl in Hnorm.
  destruct (Pos.to_uint p) as [|d|d|d|d|d|d|d|d|d|d] eqn:E;
    simpl Pos.of_uint in Hof; simpl Decimal.nb_digits;
    rewrite ?Nat2Z.inj_succ;
    try (injection Hof as Hof; rewrite <- Hof;
         match goal with
         | |- (_ <= Z.pos (Pos.of_uint_acc _ ?a))%Z =>
             pose proof (of_uint_acc_lower d a)
         end;
         replace (Z.succ (Z.of_nat (Decimal.nb_digits d)) - 1)%Z
           with (Z.of_nat (Decimal.nb_digits d)) by lia;
         lia).
  - simpl. lia.
  - exfalso. unfold Decimal.unorm in Hnorm.
    pose proof (nzhead_nonzero (Decimal.D0 d)) as Hnz.
    destruct (Decimal.nzhead (Decimal.D0 d)) eqn:E2; try discriminate.
    + by pose proof (DecimalPos.Unsigned.to_uint_nonzero p); congruence.
    + by eapply Hnz.
Qed.

Lemma string_of_uint_to_uint p :
  NilZero.string_of_uint (Pos.to_uint p) = NilEmpty.string_of_uint (Pos.to_uint p).
Proof.
  pose proof (DecimalPos.Unsigned.to_uint_nonnil p).
  by destruct (Pos.to_uint p).
Qed.

(** The text of "%d": an optional minus sign and digits that start with no
    0 unless the value is 0. *)
Lemma fmt_d_shape v :
  exists ds, ds <> [] /\ Forall (fun c => isdigit c = true) ds
    /\ fmt_d v = (if (v <? 0)%Z then ["-"%char] else []) ++ ds
    /\ (forall rest, isdigit (hd NUL rest) = false ->
          digits_value 0 (ds ++ rest) = Z.abs v)
    /\ (10 ^ (Z.of_nat (length ds) - 1) <= Z.max 1 (Z.abs v))%Z.
Proof.
  unfold fmt_d. destruct v as [|p|p]; simpl Z.to_int; simpl NilZero.string_of_int.
  - exists ["0"%char]. split_and!; try done.
    + by repeat constructor.
    + intros [|c rest] H; simpl in *; [done|]. by rewrite H.
  - rewrite string_of_uint_to_uint.
    exists (chars (NilEmpty.string_of_uint (Pos.to_uint p))). split_and!.
    + pose proof (DecimalPos.Unsigned.to_uint_nonnil p).
      by destruct (Pos.to_uint p).
    + apply digits_string_of_uint.
    + done.
    + intros rest H. rewrite digits_value_of_uint by done.
      by rewrite DecimalPos.Unsigned.of_to.
    + rewrite length_string_of_uint. pose proof (nb_digits_to_uint p). simpl. lia.
  - rewrite string_of_uint_to_uint.
    exists (chars (NilEmpty.string_of_uint (Pos.to_uint p))). split_and!.
    + pose proof (DecimalPos.Unsigned.to_uint_nonnil p).
      by destruct (Pos.to_uint p).
    + apply digits_string_of_uint.
    + done.
    + intros rest H. rewrite digits_value_of_uint by done.
      by rewrite DecimalPos.Unsigned.of_to.
    + rewrite length_string_of_uint. pose proof (nb_digits_to_uint p). simpl. lia.
Qed.

Lemma isdigit_not_space c : isdigit c = true -> isspace c = false.
Proof.
  unfold isdigit, isspace. intros H.
  apply andb_true_iff in H as [H1 H2].
  apply Nat.leb_le in H1, H2.
  apply orb_false_iff. split.
  - apply Nat.eqb_neq. lia.
  - apply andb_false_iff. right. apply Nat.leb_gt. lia.
Qed.

Lemma skip_space_blanks n p : skip_space (replicate n SP ++ p) = skip_space p.
Proof. induction n; simpl; [done|]. apply IHn. Qed.

Lemma skip_space_cons c p : isspace c = false -> skip_space (c :: p) = c :: p.
Proof. intros H. simpl. by rewrite H. Qed.

(** [atoi] reads back what "%d" wrote of an int, behind blanks and in
    front of anything that is not a digit. *)
Lemma to_int_small v :
  (-2147483648 <= v <= 2147483647)%Z -> to_int v = v.
Proof. intros H. unfold to_int. rewrite Z.mod_small by lia. lia. Qed.

Lemma to_int_range v : (-2147483648 <= to_int v <= 2147483647)%Z.
Proof.
  unfold to_int.
  pose proof (Z.mod_pos_bound (v + 2147483648) 4294967296 eq_refl). lia.
Qed.

Lemma atoi_fmt_d n v rest :
  (-2147483648 <= v <= 2147483647)%Z ->
  isdigit (hd NUL rest) = false ->
  atoi (replicate n SP ++ fmt_d v ++ rest) = v.
Proof.
  intros Hv Hrest.
  destruct (fmt_d_shape v) as (ds & Hne & Hds & Hfmt & Hval & _).
  unfold atoi, strtol. cbv zeta. rewrite skip_space_blanks, Hfmt.
  destruct ds as [|d ds]; [done|].
  apply Forall_cons in Hds as [Hd Hds].
  destruct (v <? 0)%Z eqn:Hsign; simpl app.
  - rewrite skip_space_cons by done.
    rewrite decide_True by done.
    change (d :: ds ++ rest) with ((d :: ds) ++ rest).
    rewrite (Hval rest Hrest). apply Z.ltb_lt in Hsign.
    rewrite to_int_small by lia. lia.
  - rewrite skip_space_cons by by apply isdigit_not_space.
    assert (d <> "-"%char) by (intros ->; done).
    assert (d <> "+"%char) by (intros ->; done).
    rewrite !decide_False by done.
    change (d :: ds ++ rest) with ((d :: ds) ++ rest).
    rewrite (Hval rest Hrest). apply Z.ltb_ge in Hsign.
    rewrite to_int_small by lia. lia.
Qed.

Lemma fmt_d_no_NUL v : Forall (fun c => c <> NUL) (fmt_d v).
Proof.
  destruct (fmt_d_shape v) as (ds & _ & Hds & -> & _).
  apply Forall_app. split.
  - destruct (v <? 0)%Z; by repeat constructor.
  - eapply Forall_impl; [exact Hds|]. by intros c Hc ->.
Qed.

Lemma cstr_id p : Forall (fun c => c <> NUL) p -> cstr p = p.
Proof.
  induction 1 as [|c p Hc _ IH]; simpl; [done|].
  rewrite decide_False by done. by rewrite IH.
Qed.

(** "%d" of an int takes 11 columns at most. *)
Lemma length_fmt_d v :
  (-2147483648 <= v <= 2147483647)%Z -> length (fmt_d v) <= 11.
Proof.
  intros Hv. destruct (fmt_d_shape v) as (ds & _ & _ & -> & _ & Hlen).
  rewrite length_app.
  assert (length ds <= 10); [|destruct (v <? 0)%Z; simpl; lia].
  destruct (decide (length ds <= 10)) as [|Hgt]; [done|exfalso].
  assert (10 ^ 10 <= 10 ^ (Z.of_nat (length ds) - 1))%Z
    by (apply Z.pow_le_mono_r; lia).
  lia.
Qed.

(** ** Setting a card and reading it back *)

Lemma findFImageVar_replace fip name i row :
  findFImageVar fip name = Some i -> bears name row ->
  findFImageVar (set_var fip (<[i := row]> (var fip))) name = Some i.
Proof.
  intros (old & Hi & Hold & Hbefore)%findFImageVar_Some Hrow.
  apply findFImageVar_Some. exists row. simpl. split_and!.
  - apply list_lookup_insert_eq. by eapply lookup_lt_Some.
  - done.
  - intros j y Hj Hlt. rewrite list_lookup_insert_ne in Hj by lia. eauto.
Qed.

(** One call of a setter: where the card is afterwards. *)
Lemma store_row_once fip name row w :
  bears name row -> length row <= FITS_HCOLS ->
  (findFImageVar fip name = None -> next_alloc w = true) ->
  let fip' := fst (store_row fip name row w) in
  let pos := default (nvar fip) (findFImageVar fip name) in
  findFImageVar fip' name = Some pos
  /\ var fip' !! pos = Some row
  /\ (forall j, j <> pos -> var fip' !! j = var fip !! j)
  /\ drop (S pos) (var fip') = drop (S pos) (var fip).
Proof.
  intros Hrow Hlen Halloc. cbv zeta. unfold store_row.
  destruct (findFImageVar fip name) as [i|] eqn:Hfind; simpl.
  - pose proof (findFImageVar_lt _ _ _ Hfind) as Hlt. unfold nvar in Hlt.
    split_and!.
    + by apply findFImageVar_replace.
    + by apply list_lookup_insert_eq.
    + intros j Hj. by apply list_lookup_insert_ne.
    + by rewrite drop_insert_lt by lia.
  - rewrite addFImageVar_ok by auto. rewrite take_ge by done. simpl.
    split_and!.
    + by apply findFImageVar_app.
    + rewrite lookup_app_r by done. by rewrite Nat.sub_diag.
    + intros j Hj. unfold nvar in Hj. destruct (decide (j < length (var fip))).
      * by rewrite lookup_app_l.
      * rewrite !lookup_ge_None_2; [done|lia|]. rewrite length_app. simpl. lia.
    + unfold nvar. rewrite !drop_ge; [done|lia|]. rewrite length_app. simpl. lia.
Qed.

Lemma length_fmtInlineComment_eq line comment :
  30 <= length line -> length (fmtInlineComment line comment) = FITS_HCOLS.
Proof.
  intros Hl. unfold fmtInlineComment, FITS_HCOLS.
  rewrite length_app, !length_take.
  destruct comment as [c|].
  - rewrite length_app, length_fmt_ls by done.
    change (length (chars " / ")) with 3. lia.
  - rewrite length_rjust. change (length (@nil ascii)) with 0. lia.
Qed.

(** The last 50 columns start with a blank. *)
Lemma fmtInlineComment_tail line comment :
  30 <= length line ->
  exists tail, length tail = 49
    /\ fmtInlineComment line comment = take 30 line ++ SP :: tail.
Proof.
  intros Hl. unfold fmtInlineComment. destruct comment as [c|].
  - exists (take 49 (chars "/ " ++ fmt_ls 47 47 c)). split.
    + rewrite length_take, length_app, length_fmt_ls by done. simpl. lia.
    + done.
  - exists (replicate 49 SP). split; [by rewrite length_replicate|done].
Qed.

(** The card of an int: keyword, "= ", blanks, the digits in columns that
    end at 30, a blank. *)
Lemma fmtIntFITS_shape name v comment :
  (-2147483648 <= v <= 2147483647)%Z ->
  exists n tail,
    fmtIntFITS name v comment
    = field name ++ chars "= " ++ replicate n SP ++ fmt_d v ++ SP :: tail
    /\ length tail = 49 /\ n + length (fmt_d v) = 20.
Proof.
  intros Hv. pose proof (length_fmt_d v Hv) as Hlen.
  unfold fmtIntFITS.
  rewrite (cstr_id (fmt_d v)) by apply fmt_d_no_NUL.
  unfold strlen. rewrite (cstr_id (fmt_d v)) by apply fmt_d_no_NUL.
  unfold fmt_star_s.
  replace (20 - Z.of_nat (length (fmt_d v)) <? 0)%Z with false
    by (symmetry; apply Z.ltb_ge; lia).
  unfold rjust. simpl cstr. simpl length. rewrite Nat.sub_0_r, app_nil_r.
  set (n := Z.to_nat (20 - Z.of_nat (length (fmt_d v)))).
  set (line := field name ++ chars "= " ++ replicate n SP ++ fmt_d v).
  assert (Hline : length line = 30).
  { unfold line. rewrite !length_app, length_field, length_replicate.
    simpl. lia. }
  destruct (fmtInlineComment_tail line comment ltac:(lia)) as (tail & Ht & ->).
  exists n, tail. split_and!; [|done|lia].
  rewrite take_ge by lia. unfold line. by rewrite <- !app_assoc.
Qed.

Lemma length_fmtIntFITS_eq name v comment :
  length (fmtIntFITS name v comment) = FITS_HCOLS.
Proof.
  unfold fmtIntFITS. apply length_fmtInlineComment_eq.
  rewrite !length_app, length_field. simpl.
  unfold fmt_star_s. simpl cstr.
  destruct (_ <? _)%Z eqn:E; rewrite ?length_ljust, ?length_rjust; simpl.
  - apply Z.ltb_lt in E. unfold strlen in *. lia.
  - apply Z.ltb_ge in E. unfold strlen in *. lia.
Qed.

(** [atoi] from column 11 of the card of an int, whatever lies behind the
    card. *)
Lemma atoi_fmtIntFITS name v comment rest :
  (-2147483648 <= v <= 2147483647)%Z ->
  atoi (drop 10 (fmtIntFITS name v comment ++ rest)) = v.
Proof.
  intros Hv.
  destruct (fmtIntFITS_shape name v comment Hv) as (n & tail & -> & _ & _).
  rewrite <- !app_assoc.
  rewrite (app_assoc (field name)).
  rewrite drop_app_length' by (rewrite length_app, length_field; done).
  apply atoi_fmt_d; done.
Qed.

(** X1: an int set with [setIntFITS] is the int [getIntFITS] returns. *)
Theorem getIntFITS_setIntFITS fip name v comment w :
  (-2147483648 <= v <= 2147483647)%Z ->
  (findFImageVar fip name = None -> next_alloc w = true) ->
  getIntFITS (fst (setIntFITS fip name v comment w)) name = Some v.
Proof.
  intros Hv Halloc. rewrite setIntFITS_store_row.
  destruct (store_row_once fip name (fmtIntFITS name v comment) w
              (bears_fmtIntFITS name v comment)
              (length_fmtIntFITS name v comment) Halloc)
    as (Hfind & Hrow & _).
  unfold getIntFITS. rewrite Hfind.
  rewrite (row_mem_lookup _ _ _ Hrow).
  f_equal. by apply atoi_fmtIntFITS.
Qed.

Lemma getIntFITS_setIntFITS_witness :
  getIntFITS
    (fst (setIntFITS two_history (chars "GAIN") (-42) (Some (chars "e/ADU"))
            quiet_world))
    (chars "GAIN")
  = Some (-42)%Z.
Proof.
  apply getIntFITS_setIntFITS; [lia|]. intros _. reflexivity.
Defined.

(** *** Logical cards *)

Lemma fmtLogicalFITS_shape name v comment :
  exists tail,
    fmtLogicalFITS name v comment
    = field name ++ chars "=" ++ replicate 20 SP
        ++ (if decide (v = 0%Z) then "F"%char else "T"%char) :: SP :: tail
    /\ length tail = 49.
Proof.
  unfold fmtLogicalFITS.
  set (line := field name ++ _).
  assert (Hline : length line = 30).
  { unfold line. rewrite !length_app, length_field. done. }
  destruct (fmtInlineComment_tail line comment ltac:(lia)) as (tail & Ht & ->).
  exists tail. split; [|done].
  rewrite take_ge by lia. unfold line. by rewrite <- !app_assoc.
Qed.

Lemma length_fmtLogicalFITS name v comment :
  length (fmtLogicalFITS name v comment) = FITS_HCOLS.
Proof.
  destruct (fmtLogicalFITS_shape name v comment) as (tail & -> & Ht).
  rewrite !length_app, length_field. simpl. rewrite Ht. done.
Qed.

Lemma bears_fmtLogicalFITS name v comment :
  bears name (fmtLogicalFITS name v comment).
Proof.
  apply bears_take.
  destruct (fmtLogicalFITS_shape name v comment) as (tail & -> & _).
  rewrite take_app_length'; [done|by rewrite length_field].
Qed.

(** Column 30 of the card of a logical, whatever lies behind the card. *)
Lemma peek_fmtLogicalFITS name v comment rest :
  peek (fmtLogicalFITS name v comment ++ rest) 29
  = if decide (v = 0%Z) then "F"%char else "T"%char.
Proof.
  destruct (fmtLogicalFITS_shape name v comment) as (tail & -> & _).
  unfold peek. rewrite <- !app_assoc.
  rewrite lookup_app_r by (rewrite length_field; lia).
  rewrite length_field. done.
Qed.

(** X2: a logical set with [setLogicalFITS] reads back with
    [getLogicalFITS] as 0 when it was 0 and as 1 when it was anything
    else. *)
Theorem getLogicalFITS_setLogicalFITS fip name v comment w :
  (findFImageVar fip name = None -> next_alloc w = true) ->
  getLogicalFITS (fst (setLogicalFITS fip name v comment w)) name
  = Some (if decide (v = 0%Z) then 0%Z else 1%Z).
Proof.
  intros Halloc.
  change (setLogicalFITS fip name v comment)
    with (store_row fip name (fmtLogicalFITS name v comment)).
  destruct (store_row_once fip name (fmtLogicalFITS name v comment) w
              (bears_fmtLogicalFITS name v comment)
              ltac:(by rewrite length_fmtLogicalFITS) Halloc)
    as (Hfind & Hrow & _).
  unfold getLogicalFITS. rewrite Hfind.
  rewrite (row_mem_lookup _ _ _ Hrow), peek_fmtLogicalFITS.
  by destruct (decide (v = 0%Z)).
Qed.

Lemma getLogicalFITS_setLogicalFITS_witness :
  getLogicalFITS
    (fst (setLogicalFITS initFImage (chars "SIMPLE") 5 None quiet_world))
    (chars "SIMPLE")
  = Some 1%Z.
Proof.
  apply (getLogicalFITS_setLogicalFITS initFImage (chars "SIMPLE") 5 None
           quiet_world).
  intros _. reflexivity.
Defined.

(** *** String cards *)

Lemma strip_trailing_blanks n : strip_trailing (replicate n SP) = [].
Proof. induction n; simpl; [done|]. by rewrite IHn. Qed.

Lemma strip_trailing_app s n :
  strip_trailing (s ++ replicate n SP) = strip_trailing s.
Proof.
  induction s as [|c s IH]; simpl; [apply strip_trailing_blanks|].
  by rewrite IH.
Qed.

(** The card of a string: keyword, "= '", the text in [l] columns, the
    closing quote. *)
Lemma fmtStringFITS_shape name value comment :
  let l0 := strlen value in
  let l := if l0 <? 8 then 8 else if 68 <? l0 then 68 else l0 in
  exists tail,
    fmtStringFITS name value comment
    = field name ++ chars "= '" ++ fmt_ls l l value ++ QUOTE :: tail
    /\ length tail = 68 - l.
Proof.
  cbv zeta. unfold fmtStringFITS.
  set (l := if strlen value <? 8 then 8 else if 68 <? strlen value then 68
            else strlen value).
  assert (Hl : 8 <= l <= 68).
  { unfold l. destruct (strlen value <? 8) eqn:E1; [lia|].
    apply Nat.ltb_ge in E1.
    destruct (68 <? strlen value) eqn:E2; [lia|].
    apply Nat.ltb_ge in E2. lia. }
  unfold fmt_star_s.
  replace (80 - 12 - Z.of_nat l <? 0)%Z with false
    by (symmetry; apply Z.ltb_ge; lia).
  unfold rjust. simpl cstr. simpl length. rewrite Nat.sub_0_r, app_nil_r.
  set (head := field name ++ chars "= '" ++ fmt_ls l l value ++ chars "'").
  assert (Hhead : length head = 12 + l).
  { unfold head. rewrite !length_app, length_field, length_fmt_ls by done.
    simpl. lia. }
  assert (Hassoc : forall t,
    field name ++ chars "= '" ++ fmt_ls l l value ++ chars "'" ++ t
    = head ++ t) by (intros t; unfold head; by rewrite <- !app_assoc).
  rewrite Hassoc.
  assert (Hgoal : forall t, length t = 68 - l ->
    exists tail,
      take FITS_HCOLS (head ++ t)
      = field name ++ chars "= '" ++ fmt_ls l l value ++ QUOTE :: tail
      /\ length tail = 68 - l).
  { intros t Ht. exists t. split; [|done].
    rewrite take_ge by (rewrite length_app; unfold FITS_HCOLS; lia).
    unfold head. by rewrite <- !app_assoc. }
  destruct comment as [c|]; [|apply Hgoal; rewrite length_replicate; lia].
  destruct (l <? 80 - 3 - 12) eqn:Hfit;
    [|apply Hgoal; rewrite length_replicate; lia].
  apply Nat.ltb_lt in Hfit.
  set (start := if 12 + l <? 30 then 30 else 12 + l).
  assert (Hstart : 12 + l <= start <= 76).
  { unfold start. destruct (12 + l <? 30) eqn:E; [|lia].
    apply Nat.ltb_lt in E. lia. }
  rewrite (take_app_ge head) by lia. rewrite Hhead, <- app_assoc.
  apply Hgoal.
  rewrite !length_app, length_take, length_replicate, length_fmt_ls by done.
  simpl. lia.
Qed.

Lemma length_fmtStringFITS name value comment :
  length (fmtStringFITS name value comment) = FITS_HCOLS.
Proof.
  destruct (fmtStringFITS_shape name value comment) as (tail & -> & Ht).
  set (l := if strlen value <? 8 then _ else _) in *.
  assert (Hl : 8 <= l <= 68).
  { unfold l. destruct (strlen value <? 8) eqn:E1; [lia|].
    apply Nat.ltb_ge in E1.
    destruct (68 <? strlen value) eqn:E2; [lia|].
    apply Nat.ltb_ge in E2. lia. }
  rewrite !length_app, length_field, length_fmt_ls by done. simpl.
  rewrite Ht. unfold FITS_HCOLS. lia.
Qed.

Lemma bears_fmtStringFITS name value comment :
  bears name (fmtStringFITS name value comment).
Proof.
  apply bears_take.
  destruct (fmtStringFITS_shape name value comment) as (tail & -> & _).
  rewrite take_app_length'; [done|by rewrite length_field].
Qed.

(** The text the card holds between its quotes, less the blanks at its
    end. *)
Lemma fmt_ls_clamp value :
  let l0 := strlen value in
  let l := if l0 <? 8 then 8 else if 68 <? l0 then 68 else l0 in
  exists n, fmt_ls l l value = take 68 (cstr value) ++ replicate n SP.
Proof.
  cbv zeta. unfold fmt_ls, ljust, strlen.
  destruct (length (cstr value) <? 8) eqn:E1.
  - apply Nat.ltb_lt in E1.
    rewrite !take_ge by lia. eauto.
  - apply Nat.ltb_ge in E1.
    destruct (68 <? length (cstr value)) eqn:E2; [eauto|].
    apply Nat.ltb_ge in E2. rewrite !take_ge by lia. eauto.
Qed.

(** X3: a string set with [setStringFITS] reads back with [getStringFITS] as its
    first 68 characters less the blanks at their end, when there is no
    quote among them. *)
Theorem getStringFITS_setStringFITS fip name value comment w :
  QUOTE ∉ take 68 (cstr value) ->
  (findFImageVar fip name = None -> next_alloc w = true) ->
  getStringFITS (fst (setStringFITS fip name value comment w)) name
  = Some (strip_trailing (take 68 (cstr value))).
Proof.
  intros Hq Halloc.
  change (setStringFITS fip name value comment)
    with (store_row fip name (fmtStringFITS name value comment)).
  destruct (store_row_once fip name (fmtStringFITS name value comment) w
              (bears_fmtStringFITS name value comment)
              ltac:(by rewrite length_fmtStringFITS) Halloc)
    as (Hfind & Hrow & _).
  rewrite (getStringFITS_row _ _ _ _ Hfind Hrow)
    by apply length_fmtStringFITS.
  destruct (fmtStringFITS_shape name value comment) as (tail & -> & _).
  destruct (fmt_ls_clamp value) as (n & ->).
  assert (Hpeek :
    peek (field name ++ chars "= '"
            ++ (take 68 (cstr value) ++ replicate n SP) ++ QUOTE :: tail) 10
    = QUOTE).
  { unfold peek. rewrite lookup_app_r by (rewrite length_field; lia).
    by rewrite length_field. }
  rewrite Hpeek, decide_True by done.
  rewrite (app_assoc (field name)).
  rewrite drop_app_length' by (rewrite length_app, length_field; done).
  rewrite getStringFITS_scan_quote.
  - simpl. by rewrite strip_trailing_app.
  - intros [H|H]%elem_of_app; [done|].
    apply elem_of_replicate in H as [H _]. discriminate H.
Qed.

Lemma getStringFITS_setStringFITS_witness :
  getStringFITS
    (fst (setStringFITS initFImage (chars "OBJECT") (chars "M31  ") None
            quiet_world))
    (chars "OBJECT")
  = Some (strip_trailing (take 68 (cstr (chars "M31  ")))).
Proof.
  apply getStringFITS_setStringFITS.
  - vm_compute. intros H. repeat (apply elem_of_cons in H as [H|H]; [discriminate H|]).
    by apply elem_of_nil in H.
  - intros _. reflexivity.
Defined.

(** *** Other keywords *)

Lemma bears_field_eq n1 n2 row : bears n1 row -> bears n2 row -> field n1 = field n2.
Proof. intros H1%bears_take H2%bears_take. congruence. Qed.

(** A setter's card does not get in the way of a search for another
    keyword. *)
Lemma store_row_other fip n1 n2 row w :
  field n1 <> field n2 -> bears n2 row ->
  let fip' := fst (store_row fip n2 row w) in
  findFImageVar fip' n1 = findFImageVar fip n1
  /\ forall i, findFImageVar fip n1 = Some i -> var fip' !! i = var fip !! i.
Proof.
  intros Hne Hrow. cbv zeta.
  assert (Hnot : ~ bears n1 row) by (intros H; by apply Hne, (bears_field_eq _ _ row)).
  unfold store_row. destruct (findFImageVar fip n2) as [i|] eqn:Hfind2; simpl.
  - apply findFImageVar_Some in Hfind2 as (old & Hi & Hold & _).
    assert (Hnotold : ~ bears n1 old)
      by (intros H; by apply Hne, (bears_field_eq _ _ old)).
    assert (Hsame : forall j y, j <> i ->
              <[i := row]> (var fip) !! j = Some y <-> var fip !! j = Some y).
    { intros j y Hj. by rewrite list_lookup_insert_ne. }
    split.
    + destruct (findFImageVar fip n1) as [k|] eqn:Hfind1.
      * apply findFImageVar_Some in Hfind1 as (y & Hk & Hy & Hbefore).
        assert (k <> i) by (intros ->; congruence).
        apply findFImageVar_Some. exists y. simpl. split_and!.
        -- by apply Hsame.
        -- done.
        -- intros j z Hj Hlt. destruct (decide (j = i)) as [->|Hji].
           ++ rewrite list_lookup_insert_eq in Hj by (by eapply lookup_lt_Some).
              by injection Hj as <-.
           ++ apply Hsame in Hj; eauto.
      * apply findFImageVar_None. apply findFImageVar_None in Hfind1. simpl.
        apply Forall_insert; [done|done].
    + intros k (y & Hk & Hy & _)%findFImageVar_Some.
      assert (k <> i) by (intros ->; congruence).
      by rewrite list_lookup_insert_ne.
  - unfold addFImageVar, bind.
    destruct (match var fip with [] => sys_malloc | _ => sys_realloc end w)
      as [[|] w1]; simpl; [|done].
    assert (Hnot' : ~ bears n1 (take FITS_HCOLS row)).
    { intros H%bears_take. apply Hnot, bears_take.
      rewrite take_take in H. by replace (8 `min` FITS_HCOLS) with 8 in H by done. }
    split.
    + destruct (findFImageVar fip n1) as [k|] eqn:Hfind1.
      * apply findFImageVar_Some in Hfind1 as (y & Hk & Hy & Hbefore).
        apply findFImageVar_Some. exists y. simpl. split_and!.
        -- by apply lookup_app_l_Some.
        -- done.
        -- intros j z Hj Hlt. apply lookup_lt_Some in Hk as Hklt.
           rewrite lookup_app_l in Hj by lia. eauto.
      * apply findFImageVar_None. apply findFImageVar_None in Hfind1. simpl.
        apply Forall_app. split; [done|]. by constructor.
    + intros k (y & Hk & _)%findFImageVar_Some.
      apply lookup_lt_Some in Hk as Hklt. by rewrite lookup_app_l.
Qed.

(** X4: setting a card with one keyword neither moves nor changes the first
    card of a keyword that differs from it in its first eight columns. *)
Theorem setters_other_keyword fip n1 n2 w :
  field n1 <> field n2 ->
  (forall v c, keeps_card fip (fst (setLogicalFITS fip n2 v c w)) n1)
  /\ (forall v c, keeps_card fip (fst (setIntFITS fip n2 v c w)) n1)
  /\ (forall s c, keeps_card fip (fst (setStringFITS fip n2 s c w)) n1).
Proof.
  intros Hne. split_and!; intros v c.
  - apply (store_row_other fip n1 n2 (fmtLogicalFITS n2 v c) w Hne).
    apply bears_fmtLogicalFITS.
  - apply (store_row_other fip n1 n2 (fmtIntFITS n2 v c) w Hne).
    apply bears_fmtIntFITS.
  - apply (store_row_other fip n1 n2 (fmtStringFITS n2 v c) w Hne).
    apply bears_fmtStringFITS.
Qed.

Lemma setters_other_keyword_witness :
  keeps_card no_pixels
    (fst (setIntFITS no_pixels (chars "NAXIS2") 7 None quiet_world))
    (chars "NAXIS1").
Proof.
  refine (proj1 (proj2 (setters_other_keyword no_pixels (chars "NAXIS1")
                          (chars "NAXIS2") quiet_world _)) 7%Z None).
  vm_compute. discriminate.
Defined.

(** *** Rows stay 80 columns wide *)

Lemma addFImageVar_wf fip row w :
  wf_store fip -> FITS_HCOLS <= length row ->
  wf_store (fst (addFImageVar fip row w)).
Proof.
  intros Hwf Hlen. unfold addFImageVar, bind.
  destruct (match var fip with [] => sys_malloc | _ => sys_realloc end w)
    as [[|] w1]; simpl; [|done].
  apply Forall_app. split; [done|]. constructor; [|done].
  unfold wf_row. rewrite length_take. lia.
Qed.

Lemma store_row_wf fip name row w :
  wf_store fip -> length row = FITS_HCOLS ->
  wf_store (fst (store_row fip name row w)).
Proof.
  intros Hwf Hlen. unfold store_row.
  destruct (findFImageVar fip name) as [i|]; simpl.
  - by apply Forall_insert.
  - apply addFImageVar_wf; [done|lia].
Qed.

Lemma setCommentFITS_loop_wf name comment l : forall fuel fip n w,
  wf_store fip ->
  wf_store (fst (setCommentFITS_loop fuel fip name comment n l w)).
Proof.
  induction fuel as [|fuel IH]; intros fip n w Hwf; simpl; [done|].
  destruct (n <? l); [|done].
  destruct (n =? 0); unfold bind.
  - pose proof (addFImageVar_wf fip (field name ++ fmt_ls 72 72 comment) w Hwf)
      as Hadd.
    destruct (addFImageVar _ _ w) as [fip1 w1]. apply IH, Hadd.
    rewrite length_app, length_field, length_fmt_ls by done. done.
  - pose proof (addFImageVar_wf fip
                  (field name ++ chars "... " ++ fmt_ls 68 68 (drop n comment))
                  w Hwf) as Hadd.
    destruct (addFImageVar _ _ w) as [fip1 w1]. apply IH, Hadd.
    rewrite !length_app, length_field, length_fmt_ls by done. done.
Qed.

(** X5: the setters keep every row of the store 80 columns wide, whatever
    the keyword, the value and the comment are and whether memory is to be
    had or not. *)
Theorem setters_keep_rows fip w :
  wf_store fip ->
  (forall name v c, wf_store (fst (setLogicalFITS fip name v c w)))
  /\ (forall name v c, wf_store (fst (setIntFITS fip name v c w)))
  /\ (forall name s c, wf_store (fst (setStringFITS fip name s c w)))
  /\ (forall name text, wf_store (fst (setCommentFITS fip name text w))).
Proof.
  intros Hwf. split_and!.
  - intros name v c. apply (store_row_wf fip name _ w Hwf).
    apply length_fmtLogicalFITS.
  - intros name v c. apply (store_row_wf fip name _ w Hwf).
    apply length_fmtIntFITS_eq.
  - intros name s c. apply (store_row_wf fip name _ w Hwf).
    apply length_fmtStringFITS.
  - intros name text. by apply setCommentFITS_loop_wf.
Qed.

Lemma setters_keep_rows_witness :
  wf_store (fst (setCommentFITS no_pixels (chars "HISTORY")
                   (replicate 200 "x"%char) quiet_world)).
Proof.
  refine (proj2 (proj2 (proj2 (setters_keep_rows no_pixels quiet_world _)))
            (chars "HISTORY") (replicate 200 "x"%char)).
  apply wf_naxis_1_rows.
Defined.

(** ** Deleting a card *)

Lemma set_var_id fip : set_var fip (var fip) = fip.
Proof. by destruct fip. Qed.

(** What a successful [delFImageVar] returns. *)
Lemma delFImageVar_found fip name i w :
  findFImageVar fip name = Some i -> next_alloc w = true ->
  delFImageVar fip name w
  = (match delete i (var fip) with
     | [] => DelEmptied
     | rows => DelOK (set_var fip rows)
     end,
     mkWorld (tl (allocs w)) (input w) (wscript w) (output w)
       (live w + 1 - 1)).
Proof.
  intros Hfind Halloc.
  apply findFImageVar_Some in Hfind as Hf.
  destruct Hf as (row & Hi & _).
  unfold delFImageVar. destruct (var fip); [done|].
  rewrite Hfind. unfold bind, sys_malloc, sys_free, ret. by rewrite Halloc.
Qed.

(** X6: with memory to be had, [delFImageVar] on a store of more rows than
    one takes out the first card that bears the name and no other: the rows
    before and behind it close up in their order, one card fewer bears the
    name, the other fields of the descriptor are as they were, and the
    block count is unchanged; when one card bore the name, a search for it
    fails afterwards. On a store whose only row bears the name it returns 0
    with the block count unchanged and the store emptied, its [var] not
    NULL. *)
Theorem delFImageVar_first fip name i w :
  findFImageVar fip name = Some i -> next_alloc w = true ->
  (1 < length (var fip) ->
   exists fip' w',
     delFImageVar fip name w = (DelOK fip', w')
     /\ var fip' = take i (var fip) ++ drop (S i) (var fip)
     /\ var fip' <> []
     /\ set_var fip' (var fip) = fip
     /\ S (count_bearing name fip') = count_bearing name fip
     /\ (count_bearing name fip = 1 -> findFImageVar fip' name = None)
     /\ live w' = live w)
  /\ (length (var fip) = 1 ->
      exists w',
        delFImageVar fip name w = (DelEmptied, w') /\ live w' = live w).
Proof.
  intros Hfind Halloc.
  apply findFImageVar_Some in Hfind as Hf.
  destruct Hf as (row & Hi & Hrow & Hbefore).
  pose proof (take_drop_middle _ _ _ Hi) as Hsplit.
  pose proof (length_delete (var fip) i ltac:(eauto)) as Hlen.
  rewrite (delFImageVar_found _ _ _ _ Hfind Halloc). split.
  - intros Hmore.
    destruct (delete i (var fip)) as [|r0 rows] eqn:Hdel;
      [simpl in Hlen; lia|].
    rewrite <- Hdel. eexists _, _. split; [reflexivity|].
    cbn [var set_var live]. rewrite delete_take_drop in Hdel |- *.
    assert (Hcount : S (length (filter (bears name)
                                  (take i (var fip) ++ drop (S i) (var fip))))
                     = count_bearing name fip).
    { unfold count_bearing. rewrite <- Hsplit at 3.
      rewrite !filter_app, filter_cons, decide_True by done.
      rewrite !length_app. simpl. lia. }
    split_and!.
    + done.
    + by rewrite Hdel.
    + destruct fip; done.
    + exact Hcount.
    + intros Hone. apply findFImageVar_None. cbn [var set_var].
      rewrite Hone in Hcount. injection Hcount as Hcount.
      apply length_zero_iff_nil in Hcount.
      apply Forall_forall. intros y Hy Hby.
      assert (Hin : y ∈ filter (bears name)
                          (take i (var fip) ++ drop (S i) (var fip)))
        by (by apply list_elem_of_filter).
      rewrite Hcount in Hin. by apply elem_of_nil in Hin.
    + lia.
  - intros Hone.
    destruct (delete i (var fip)) as [|r0 rows] eqn:Hdel;
      [|simpl in Hlen; lia].
    eexists. split; [reflexivity|]. simpl. lia.
Qed.

Lemma delFImageVar_first_witness :
  exists fip' w',
    delFImageVar two_history (chars "HISTORY") quiet_world = (DelOK fip', w')
    /\ S (count_bearing (chars "HISTORY") fip')
       = count_bearing (chars "HISTORY") two_history.
Proof.
  destruct (proj1 (delFImageVar_first two_history (chars "HISTORY") 0
                     quiet_world eq_refl eq_refl))
    as (fip' & w' & H & _ & _ & _ & Hc & _).
  - simpl. lia.
  - by exists fip', w'.
Defined.

(** X7: [delFImageVar] returns -1 when no card bears the name, and then
    without asking for memory, or when the memory for the new rows is
    refused, and in no other case. *)
Theorem delFImageVar_fails fip name w :
  (fst (delFImageVar fip name w) = DelFail
   <-> findFImageVar fip name = None \/ next_alloc w = false)
  /\ (findFImageVar fip name = None -> delFImageVar fip name w = (DelFail, w)).
Proof.
  assert (Hnil : var fip = [] -> findFImageVar fip name = None).
  { intros H. apply findFImageVar_None. rewrite H. constructor. }
  unfold delFImageVar. split.
  - destruct (var fip) as [|r0 rows] eqn:Hvar.
    { simpl. split; [left; by apply Hnil|done]. }
    destruct (findFImageVar fip name) as [i|]; simpl; [|by split; [left|]].
    unfold bind, sys_malloc, sys_free, ret.
    destruct (next_alloc w); simpl.
    + split; [by destruct (delete i (r0 :: rows))|]. by intros [|].
    + split; [by right|done].
  - intros Hfind. rewrite Hfind. by destruct (var fip).
Qed.

(** X8: a card that [setIntFITS] added to a store with rows, for a keyword
    the store did not have, is taken out again by [delFImageVar], which
    leaves the descriptor as it was before the two calls. *)
Theorem delFImageVar_setIntFITS fip name v comment w :
  var fip <> [] -> findFImageVar fip name = None -> allocs w = [] ->
  let r := setIntFITS fip name v comment w in
  fst (delFImageVar (fst r) name (snd r)) = DelOK fip.
Proof.
  intros Hrows Hfind Hallocs. cbv zeta.
  assert (Halloc : next_alloc w = true) by (unfold next_alloc; by rewrite Hallocs).
  rewrite setIntFITS_store_row.
  destruct (store_row_once fip name (fmtIntFITS name v comment) w
              (bears_fmtIntFITS name v comment)
              (length_fmtIntFITS name v comment) ltac:(auto))
    as (Hfind' & _).
  rewrite Hfind in Hfind'. simpl in Hfind'.
  assert (Hr : store_row fip name (fmtIntFITS name v comment) w
               = (set_var fip (var fip ++ [fmtIntFITS name v comment]),
                  snd (store_row fip name (fmtIntFITS name v comment) w))).
  { unfold store_row. rewrite Hfind.
    rewrite (surjective_pairing (addFImageVar _ _ _)). f_equal.
    rewrite addFImageVar_ok by done.
    by rewrite take_ge by apply length_fmtIntFITS. }
  assert (Hallocs' :
    allocs (snd (store_row fip name (fmtIntFITS name v comment) w)) = []).
  { unfold store_row. rewrite Hfind. unfold addFImageVar, bind.
    destruct (var fip); unfold sys_malloc, sys_realloc; rewrite Halloc;
      simpl; by rewrite Hallocs. }
  rewrite Hr in Hfind' |- *. cbn [fst snd] in *.
  rewrite (delFImageVar_found _ name _ _ Hfind'
             ltac:(unfold next_alloc; by rewrite Hallocs')).
  cbn [fst var set_var]. unfold nvar.
  rewrite delete_take_drop.
  rewrite take_app_length, drop_ge by (rewrite length_app; simpl; lia).
  rewrite app_nil_r.
  destruct (var fip) as [|r0 rows] eqn:Hvar; [done|].
  rewrite <- Hvar. by destruct fip.
Qed.

Lemma delFImageVar_setIntFITS_witness :
  fst (delFImageVar
         (fst (setIntFITS no_pixels (chars "GAIN") 2 None quiet_world))
         (chars "GAIN")
         (snd (setIntFITS no_pixels (chars "GAIN") 2 None quiet_world)))
  = DelOK no_pixels.
Proof.
  apply (delFImageVar_setIntFITS no_pixels (chars "GAIN") 2 None quiet_world);
    [discriminate|reflexivity|reflexivity].
Defined.

(** ** Copying a descriptor *)

(** X9: [copyFITS] of a descriptor whose [var] is NULL when it has no rows
    and whose pixels, if it has any, are [sw] by [sh] of them, their bytes
    counted within an int. On success the copy has the rows and the fields
    of the source and pixels equal to its pixels; but where the source has
    no pixels the copy keeps the pixels the target had. The blocks the target
    held before are never freed: after success the number of blocks
    allocated has grown by the number the source holds, and after a failure
    it is what it was, the target reset or left without rows. *)
Theorem copyFITS_heap tip fip w r w' :
  (forall a, image fip = Some a ->
     Z.of_nat (length a) = (sw fip * sh fip)%Z
     /\ (sw fip * sh fip * 2 <= 2147483647)%Z) ->
  copyFITS tip fip w = (r, w') ->
  match r with
  | CopyOK t =>
      t = set_image fip
            (match image fip with None => image tip | Some a => Some a end)
      /\ live w' = (live w + held fip)%Z
  | CopyNoRows => var fip <> [] /\ live w' = live w
  | CopyReset t => t = initFImage /\ image fip <> None /\ live w' = live w
  end.
Proof.
  intros Hsize. unfold copyFITS, copyFITSHeader, held.
  assert (Hid : forall o, set_image (set_image fip o) (image fip) = fip)
    by (intros o; by destruct fip).
  assert (Htake : forall a, image fip = Some a ->
            take (Z.to_nat (int_mul (int_mul (sw fip) (sh fip)) sizeof_CamPixel
                            / sizeof_CamPixel)) a = a).
  { intros a Ha. destruct (Hsize a Ha) as [Hl Hb].
    unfold sizeof_CamPixel.
    rewrite (int_mul_small (sw fip) (sh fip)) by lia.
    rewrite int_mul_small by lia.
    rewrite Z.div_mul by done. apply take_ge. lia. }
  unfold bind, ret, sys_malloc, resetFImage, sys_free.
  destruct (var fip) as [|r0 rows] eqn:Hv;
    destruct (image fip) as [a|] eqn:Hi; cbn [fst snd];
    repeat match goal with
           | |- context [next_alloc ?w] => destruct (next_alloc w)
           end;
    cbn [fst snd var image set_image live];
    rewrite ?Hv; cbn [live];
    intros [= <- <-]; cbn [live];
    repeat split; try done; try lia;
    try (rewrite (Htake a eq_refl)); try (by destruct fip; simplify_eq/=).
Qed.

Lemma copyFITS_heap_witness :
  let r := copyFITS initFImage six_pixels quiet_world in
  match r.1 with
  | CopyOK t =>
      t = set_image six_pixels
            (match image six_pixels with
             | None => image initFImage
             | Some a => Some a
             end)
      /\ live r.2 = (live quiet_world + held six_pixels)%Z
  | CopyNoRows => var six_pixels <> [] /\ live r.2 = live quiet_world
  | CopyReset t =>
      t = initFImage /\ image six_pixels <> None
      /\ live r.2 = live quiet_world
  end.
Proof.
  intros r.
  refine (copyFITS_heap initFImage six_pixels quiet_world r.1 r.2 _
            ltac:(vm_compute; reflexivity)).
  intros a [= <-]. simpl. lia.
Defined.

(** ** Comment cards *)

Lemma cstr_drop n : forall p, n <= strlen p -> cstr (drop n p) = drop n (cstr p).
Proof.
  unfold strlen. induction n as [|n IH]; intros p Hn; [by rewrite !drop_0|].
  destruct p as [|c p]; simpl in *; [done|].
  destruct (decide (c = NUL)); simpl in *; [lia|]. apply IH. lia.
Qed.

Lemma addFImageVar_quiet fip row w :
  allocs w = [] -> length row = FITS_HCOLS ->
  exists w', addFImageVar fip row w = (set_var fip (var fip ++ [row]), w')
    /\ allocs w' = [].
Proof.
  intros Ha Hlen. unfold addFImageVar, bind.
  destruct (var fip); unfold sys_malloc, sys_realloc, next_alloc;
    rewrite Ha; simpl; rewrite take_ge by lia;
    (eexists; split; [reflexivity|done]).
Qed.

(** The rows the loop adds from column [n] of the text on. *)
Lemma setCommentFITS_loop_rows name text :
  let l := strlen text in
  forall fuel fip n w,
    allocs w = [] -> 0 < n -> l < n + fuel ->
    exists rows,
      var (fst (setCommentFITS_loop fuel fip name text n l w))
      = var fip ++ rows
      /\ length rows = (l - n + 67) / 68
      /\ Forall (fun r => wf_row r /\ take 12 r = field name ++ chars "... ")
           rows
      /\ exists k, concat (map (drop 12) rows)
                   = drop n (cstr text) ++ replicate k SP.
Proof.
  intros l.
  assert (Hend : forall (fip : FImage) n, l <= n ->
    exists rows : list FITSRow,
      var fip = var fip ++ rows
      /\ length rows = (l - n + 67) / 68
      /\ Forall (fun r => wf_row r /\ take 12 r = field name ++ chars "... ")
           rows
      /\ exists k, concat (map (drop 12) rows)
                   = drop n (cstr text) ++ replicate k SP).
  { intros fip n Hge. exists []. rewrite app_nil_r. split_and!.
    - done.
    - cbn [length]. symmetry. apply Nat.div_small. lia.
    - constructor.
    - exists 0. simpl. rewrite drop_ge; [done|]. unfold l, strlen in *. lia. }
  induction fuel as [|fuel IH]; intros fip n w Ha Hn Hfuel;
    [apply Hend; lia|].
  cbn [setCommentFITS_loop].
  destruct (n <? l) eqn:Hlt; [|apply Hend; by apply Nat.ltb_ge].
  apply Nat.ltb_lt in Hlt.
  replace (n =? 0) with false by (symmetry; apply Nat.eqb_neq; lia).
  set (row := field name ++ chars "... " ++ fmt_ls 68 68 (drop n text)).
  assert (Hrow : length row = FITS_HCOLS).
  { unfold row. by rewrite !length_app, length_field, length_fmt_ls by done. }
  destruct (addFImageVar_quiet fip row w Ha Hrow) as (w1 & Hadd & Ha1).
  unfold bind. rewrite Hadd.
  destruct (IH (set_var fip (var fip ++ [row])) (n + 68) w1 Ha1
              ltac:(lia) ltac:(lia)) as (rows & Hvar & Hlen & Hall & k & Hcat).
  exists (row :: rows). split_and!.
  - rewrite Hvar. simpl. by rewrite <- app_assoc.
  - cbn [length]. rewrite Hlen.
    destruct (decide (l - n <= 68)).
    + replace (l - (n + 68)) with 0 by lia.
      rewrite (Nat.div_small 67) by lia.
      apply (Nat.div_unique _ 68 1 (l - n - 1)); lia.
    + replace (l - n + 67) with (l - (n + 68) + 67 + 1 * 68) by lia.
      rewrite Nat.div_add by lia. lia.
  - constructor; [|done]. split; [done|]. unfold row.
    rewrite (app_assoc (field name)).
    rewrite take_app_length'; [done|by rewrite length_app, length_field].
  - cbn [map concat]. unfold row at 1.
    rewrite (app_assoc (field name)).
    rewrite drop_app_length' by (by rewrite length_app, length_field).
    unfold fmt_ls, ljust.
    rewrite cstr_drop by (fold l; lia).
    rewrite Hcat.
    assert (Hd : length (drop n (cstr text)) = l - n)
      by (rewrite length_drop; done).
    destruct (decide (l - n <= 68)).
    + rewrite take_ge by lia.
      rewrite (drop_ge (cstr text) (n + 68)) by (unfold l, strlen in *; lia).
      rewrite <- app_assoc. simpl. rewrite <- replicate_add. eauto.
    + rewrite length_take, Hd.
      replace (68 - 68 `min` (l - n)) with 0 by lia. simpl.
      rewrite app_nil_r, app_assoc, <- (drop_drop (cstr text)), take_drop. eauto.
Qed.

Lemma setCommentFITS_loop_first fuel fip name text l w :
  0 < l ->
  setCommentFITS_loop (S fuel) fip name text 0 l w
  = (fip' <- addFImageVar fip (field name ++ fmt_ls 72 72 text) ;;
     setCommentFITS_loop fuel fip' name text 72 l) w.
Proof. intros Hl. destruct l; [lia|]. reflexivity. Qed.

(** X10: [setCommentFITS] with a text that is not empty, and memory to be
    had, adds behind the rows of the store one card with the first 72
    characters of the text and one card for each 68 characters that follow;
    each card is 80 columns wide and begins with the keyword, the cards
    that follow the first one go on with "... ", and the columns behind
    these, taken together, are the text followed by blanks. *)
Theorem setCommentFITS_rows fip name text w :
  allocs w = [] -> 0 < strlen text ->
  exists first rest k,
    var (fst (setCommentFITS fip name text w)) = var fip ++ first :: rest
    /\ length rest = (strlen text - 72 + 67) / 68
    /\ Forall (fun r => wf_row r /\ bears name r) (first :: rest)
    /\ Forall (fun r => take 4 (drop 8 r) = chars "... ") rest
    /\ drop 8 first ++ concat (map (drop 12) rest)
       = cstr text ++ replicate k SP.
Proof.
  intros Ha Hl. unfold setCommentFITS.
  rewrite setCommentFITS_loop_first by done.
  set (row := field name ++ fmt_ls 72 72 text).
  assert (Hrow : length row = FITS_HCOLS).
  { unfold row. by rewrite !length_app, length_field, length_fmt_ls by done. }
  destruct (addFImageVar_quiet fip row w Ha Hrow) as (w1 & Hadd & Ha1).
  unfold bind. rewrite Hadd.
  destruct (setCommentFITS_loop_rows name text (strlen text)
              (set_var fip (var fip ++ [row])) 72 w1 Ha1 ltac:(lia)
              ltac:(lia))
    as (rows & Hvar & Hlen & Hall & k & Hcat).
  assert (Hd : drop 8 row = fmt_ls 72 72 text).
  { unfold row. rewrite drop_app_length'; [done|by rewrite length_field]. }
  eexists row, rows, _. split_and!.
  - rewrite Hvar. simpl. by rewrite <- app_assoc.
  - done.
  - constructor.
    + split; [done|]. apply bears_take. unfold row.
      rewrite take_app_length'; [done|by rewrite length_field].
    + eapply Forall_impl; [exact Hall|]. intros r [Hwf Htake]. split; [done|].
      apply bears_take.
      replace (take 8 r) with (take 8 (take 12 r))
        by (rewrite take_take; f_equal).
      rewrite Htake.
      rewrite take_app_length'; [done|by rewrite length_field].
  - eapply Forall_impl; [exact Hall|]. intros r [_ Htake].
    rewrite take_drop_commute. change (8 + 4) with 12. rewrite Htake.
    rewrite drop_app_length'; [done|by rewrite length_field].
  - rewrite Hd, Hcat. unfold fmt_ls, ljust. unfold strlen in *.
    destruct (decide (length (cstr text) <= 72)).
    + rewrite take_ge by lia. rewrite drop_ge by lia.
      rewrite <- app_assoc. simpl. rewrite <- replicate_add. done.
    + rewrite length_take.
      replace (72 - 72 `min` length (cstr text)) with 0 by lia.
      replace (72 - length (cstr text)) with 0 by lia.
      simpl. rewrite app_nil_r, app_assoc, take_drop. done.
Qed.

Lemma setCommentFITS_rows_witness :
  exists first rest k,
    var (fst (setCommentFITS no_pixels (chars "HISTORY")
                (replicate 150 "x"%char) quiet_world))
    = var no_pixels ++ first :: rest
    /\ length rest = 2
    /\ drop 8 first ++ concat (map (drop 12) rest)
       = replicate 150 "x"%char ++ replicate k SP.
Proof.
  destruct (setCommentFITS_rows no_pixels (chars "HISTORY")
              (replicate 150 "x"%char) quiet_world eq_refl
              ltac:(vm_compute; lia))
    as (first & rest & k & Hvar & Hlen & _ & _ & Hcat).
  exists first, rest, k. split_and!; [exact Hvar|exact Hlen|exact Hcat].
Defined.

(** ** The axes a header may declare *)

(** With NAXIS below the largest int the counter does not wrap, and the
    loop ends within its turns. *)
Lemma getNAXIS_loop_Done fip n :
  (n < 2147483647)%Z ->
  forall k i,
    (-2147483648 <= i)%Z ->
    (1 <= Z.of_nat k)%Z -> (n - i + 2 <= Z.of_nat k)%Z ->
    getNAXIS_loop k fip n i <> LoopFuel
    /\ (getNAXIS_loop k fip n i = LoopDone
        <-> forall j, (i <= j <= n)%Z ->
              getIntFITS fip (chars "NAXIS" ++ fmt_d j) = Some 1%Z).
Proof.
  intros Hn. induction k as [|k IH]; intros i Hi Hk1 Hk; [lia|].
  cbn [getNAXIS_loop].
  destruct (Z.leb_spec i n) as [Hin|Hin].
  2:{ split; [done|]. split; [intros _ j Hj; lia|done]. }
  destruct (getIntFITS fip (chars "NAXIS" ++ fmt_d i)) as [ni|] eqn:Hget.
  2:{ split; [done|]. split; [done|]. intros Hall.
      rewrite (Hall i) in Hget by lia. done. }
  case_decide as H1.
  2:{ split; [done|]. split; [done|]. intros Hall.
      rewrite (Hall i) in Hget by lia. congruence. }
  subst ni. rewrite to_int_small by lia.
  destruct (IH (i + 1)%Z) as [Hfuel Hdone]; [lia..|].
  split; [done|]. rewrite Hdone. split.
  - intros Hall j Hj. destruct (decide (j = i)) as [->|]; [done|].
    apply Hall. lia.
  - intros Hall j Hj. apply Hall. lia.
Qed.

(** X11: for a store whose NAXIS card has a value below the largest int,
    [getNAXIS] returns a width and a height when, and only when, the store
    has a card NAXISi of value 1 for every [i] from 3 up to the value of
    NAXIS, and the cards NAXIS1 and NAXIS2, whose values it returns; the
    value of NAXIS has no lower bound. (At the largest int the loop counter
    overflows, which C leaves undefined.) *)
Theorem getNAXIS_spec fip n n1 n2 :
  getIntFITS fip (chars "NAXIS") = Some n -> (n < 2147483647)%Z ->
  getNAXIS fip = inr (n1, n2)
  <-> (forall i, (3 <= i <= n)%Z ->
         getIntFITS fip (chars "NAXIS" ++ fmt_d i) = Some 1%Z)
      /\ getIntFITS fip (chars "NAXIS1") = Some n1
      /\ getIntFITS fip (chars "NAXIS2") = Some n2.
Proof.
  intros Hnax Hn. unfold getNAXIS, getNAXIS_fuel. rewrite Hnax.
  replace (n <? 2147483647)%Z with true by (symmetry; apply Z.ltb_lt; lia).
  destruct (getNAXIS_loop_Done fip n Hn (S (Z.to_nat (n - 2))) 3)
    as [Hfuel Hdone]; [lia..|].
  destruct (getNAXIS_loop _ fip n 3) eqn:Hloop.
  - pose proof (proj1 Hdone eq_refl) as Hall.
    destruct (getIntFITS fip (chars "NAXIS1")) as [m1|];
      [|split; [done|by intros (_ & ? & _)]].
    destruct (getIntFITS fip (chars "NAXIS2")) as [m2|];
      [|split; [done|by intros (_ & _ & ?)]].
    split.
    + by intros [= <- <-].
    + by intros (_ & [= <-] & [= <-]).
  - split; [done|]. intros (Hall & _). by apply Hdone in Hall.
  - done.
Qed.

Lemma getNAXIS_spec_witness : getNAXIS (set_var initFImage naxis_3_rows) = inr (2%Z, 3%Z).
Proof.
  apply (getNAXIS_spec (set_var initFImage naxis_3_rows) 3 2 3);
    [reflexivity|lia| ].
  split_and!; [|reflexivity..].
  intros i Hi. assert (i = 3%Z) as -> by lia. reflexivity.
Defined.

(** ** What a header that was read holds *)

(** The getters look at the rows only. *)
Lemma findFImageVar_var fip fip' name :
  var fip' = var fip -> findFImageVar fip' name = findFImageVar fip name.
Proof. unfold findFImageVar. by intros ->. Qed.

Lemma getIntFITS_var fip fip' name :
  var fip' = var fip -> getIntFITS fip' name = getIntFITS fip name.
Proof. unfold getIntFITS, findFImageVar, row_mem. by intros ->. Qed.

Lemma getLogicalFITS_var fip fip' name :
  var fip' = var fip -> getLogicalFITS fip' name = getLogicalFITS fip name.
Proof. unfold getLogicalFITS, findFImageVar, row_mem. by intros ->. Qed.

Lemma getRealFITS_buf_var fip fip' name :
  var fip' = var fip -> getRealFITS_buf fip' name = getRealFITS_buf fip name.
Proof. unfold getRealFITS_buf, findFImageVar, row_mem. by intros ->. Qed.

Lemma getNAXIS_loop_var fip fip' n :
  var fip' = var fip ->
  forall k i, getNAXIS_loop k fip' n i = getNAXIS_loop k fip n i.
Proof.
  intros Hv. induction k as [|k IH]; intros i; cbn [getNAXIS_loop]; [done|].
  destruct (i <=? n)%Z; [|done].
  rewrite (getIntFITS_var fip fip') by done.
  destruct (getIntFITS fip _); [|done]. case_decide; [apply IH|done].
Qed.

Lemma getNAXIS_var fip fip' :
  var fip' = var fip -> getNAXIS fip' = getNAXIS fip.
Proof.
  intros Hv. unfold getNAXIS.
  rewrite !(getIntFITS_var fip fip') by done.
  destruct (getIntFITS fip (chars "NAXIS")); [|done].
  by rewrite (getNAXIS_loop_var fip fip').
Qed.

Lemma addFImageVar_scalars fip row w :
  set_var (fst (addFImageVar fip row w)) (var fip) = fip.
Proof.
  unfold addFImageVar, bind.
  destruct (match var fip with [] => sys_malloc | _ => sys_realloc end w)
    as [[|] w1]; simpl; by destruct fip.
Qed.

(** The loop of [readFITSHeader] changes the rows of the descriptor and
    nothing else. *)
Lemma readFITSHeader_loop_scalars fuel : forall fip nrows sawend w,
  set_var (snd (fst (readFITSHeader_loop fuel fip nrows sawend w))) (var fip)
  = fip.
Proof.
  assert (Hid : forall fip, set_var fip (var fip) = fip) by (by intros []).
  induction fuel as [|fuel IH]; intros fip nrows sawend w;
    cbn [readFITSHeader_loop]; [apply Hid|].
  unfold bind at 1.
  destruct (sys_read true FITS_HCOLS w) as [[m|row] w1]; [apply Hid|].
  case_decide; [|destruct sawend; apply Hid].
  unfold bind at 1.
  destruct sawend; cbn [ret negb orb].
  { destruct (negb _); [apply IH|apply Hid]. }
  destruct (strncmp_eq 3 row (chars "END")); cbn [ret negb orb].
  { destruct (negb _); [apply IH|apply Hid]. }
  unfold bind at 1.
  pose proof (addFImageVar_scalars fip row w1) as Hadd.
  destruct (addFImageVar fip row w1) as [fip1 w2]. cbn [fst snd] in Hadd.
  unfold ret at 1. cbn [negb orb].
  specialize (IH fip1 (nrows + 1)%Z false w2).
  rewrite <- IH in Hadd. exact Hadd.
Qed.

(** The card an optional field is taken from, as a card of [fip]. *)
Ltac int_card_of fip name :=
  match goal with
  | H : context [getIntFITS ?f (chars name)] |- _ =>
      change (getIntFITS f (chars name)) with (getIntFITS fip (chars name)) in H
  end.

Section HeaderFields.

Variable atof_times_1000 : list ascii -> Z.

(** What [crack_fields] requires and what it sets. *)
Lemma crack_fields_spec fip fip' :
  crack_fields atof_times_1000 fip = inr fip' ->
  var fip' = var fip /\ image fip' = image fip
  /\ getLogicalFITS fip (chars "SIMPLE") = Some 1%Z
  /\ getIntFITS fip (chars "BITPIX") = Some (bitpix fip')
  /\ (bitpix fip' = 16 \/ bitpix fip' = 32 \/ bitpix fip' = -32)%Z
  /\ getNAXIS fip = inr (sw fip', sh fip')
  /\ bx fip' = default (bx fip) (getIntFITS fip (chars "XFACTOR"))
  /\ by_ fip' = default (by_ fip) (getIntFITS fip (chars "YFACTOR"))
  /\ sx fip' = default (sx fip) (getIntFITS fip (chars "OFFSET1"))
  /\ sy fip' = default (sy fip) (getIntFITS fip (chars "OFFSET2"))
  /\ dur fip' = default (dur fip)
                  (atof_times_1000 <$> getRealFITS_buf fip (chars "EXPTIME")).
Proof.
  unfold crack_fields. intros H.
  assert (Hlog : forall b, getLogicalFITS fip (chars "SIMPLE") = Some b ->
                   b = 0%Z \/ b = 1%Z).
  { intros b. unfold getLogicalFITS. destruct (findFImageVar _ _); [|done].
    repeat case_decide; intros [= <-]; auto. }
  destruct (getLogicalFITS _ _) as [b|] eqn:Hb; [|done].
  destruct (decide (b = 0%Z)); [done|].
  destruct (Hlog b eq_refl) as [? | ->]; [done|].
  destruct (getIntFITS fip (chars "BITPIX")) as [i|] eqn:Hbit; [|done].
  destruct (decide _) as [|Hok]; [done|].
  rewrite (getNAXIS_var fip (set_bitpix fip i) eq_refl) in H.
  destruct (getNAXIS fip) as [|[n1 n2]] eqn:Hax; [done|].
  int_card_of fip "XFACTOR".
  destruct (getIntFITS fip (chars "XFACTOR"));
    int_card_of fip "YFACTOR";
    destruct (getIntFITS fip (chars "YFACTOR"));
    int_card_of fip "OFFSET1";
    destruct (getIntFITS fip (chars "OFFSET1"));
    int_card_of fip "OFFSET2";
    destruct (getIntFITS fip (chars "OFFSET2"));
    match type of H with context [getRealFITS_buf ?f _] =>
      change (getRealFITS_buf f (chars "EXPTIME"))
        with (getRealFITS_buf fip (chars "EXPTIME")) in H
    end;
    destruct (getRealFITS_buf fip (chars "EXPTIME"));
    injection H as <-; cbn; (split_and!; try done; lia).
Qed.

(** The fields in order are accepted, and set as [crack_fields_spec]
    says. *)
Lemma crack_fields_accepts fip b n1 n2 :
  getLogicalFITS fip (chars "SIMPLE") = Some 1%Z ->
  getIntFITS fip (chars "BITPIX") = Some b ->
  (b = 16 \/ b = 32 \/ b = -32)%Z ->
  getNAXIS fip = inr (n1, n2) ->
  exists fip',
    crack_fields atof_times_1000 fip = inr fip'
    /\ bitpix fip' = b /\ sw fip' = n1 /\ sh fip' = n2.
Proof.
  intros Hs Hb Hok Hax. unfold crack_fields.
  rewrite Hs, decide_False, Hb by done. rewrite decide_False by lia.
  rewrite (getNAXIS_var fip (set_bitpix fip b) eq_refl), Hax.
  eexists. split; [reflexivity|].
  repeat match goal with
         | |- context [match ?g with Some _ => _ | None => _ end] =>
             destruct g
         end; done.
Qed.

(** A header is accepted when the loop ends well and the fields of what
    it stored are in order. *)
Lemma readFITSHeader_ok fip0 w fip w' :
  readFITSHeader atof_times_1000 fip0 w = (OK, fip, w') ->
  exists fipl,
    crack_fields atof_times_1000 fipl = inr fip
    /\ set_var fipl [] = initFImage.
Proof.
  unfold readFITSHeader, read_fuel. unfold bind at 1. unfold bind at 1.
  pose proof (readFITSHeader_loop_scalars (S (length (input w))) initFImage 0
                false w) as Hsc.
  destruct (readFITSHeader_loop _ _ _ _ _) as [[e fipl] wl]. cbn [fst snd] in *.
  assert (Hreset : forall m,
    (fip' <- resetFImage fipl ;; ret (ERR m, fip')) wl <> (OK, fip, w')).
  { intros m. unfold bind, ret. by destruct (resetFImage fipl wl). }
  destruct e; [|intros H; by apply Hreset in H..].
  destruct (crack_fields _ _) as [m|fipc] eqn:Hc;
    [intros H; by apply Hreset in H|].
  intros [= <- <-]. by exists fipl.
Qed.

(** What [getIntFITS] returns is an int. *)
Lemma getIntFITS_int_range fip name v :
  getIntFITS fip name = Some v -> int_range v.
Proof.
  unfold getIntFITS, atoi. destruct (findFImageVar fip name); [|done].
  intros [= <-]. apply to_int_range.
Qed.

Lemma getNAXIS_inr fip n1 n2 :
  getNAXIS fip = inr (n1, n2) ->
  getIntFITS fip (chars "NAXIS1") = Some n1
  /\ getIntFITS fip (chars "NAXIS2") = Some n2.
Proof.
  unfold getNAXIS. intros H.
  destruct (getIntFITS fip (chars "NAXIS")); [|done].
  destruct (getNAXIS_loop _ _ _ _); [|done..].
  destruct (getIntFITS fip (chars "NAXIS1")); [|done].
  destruct (getIntFITS fip (chars "NAXIS2")); [|done].
  by injection H as -> ->.
Qed.

(** X12: a header that [readFITSHeader] accepts has a SIMPLE card that is
    true, a BITPIX card of 16, 32 or -32, and the axes [getNAXIS] asks for;
    the bit depth, the width and the height of the descriptor are the
    values of these cards as ints; the binning factors, the offsets and the
    exposure time are those of the cards XFACTOR, YFACTOR, OFFSET1, OFFSET2
    and EXPTIME where the header has them, and 1, 1, 0, 0 and 0 where it
    has not; the descriptor has no pixels; and width, height, binning
    factors and offsets are within the range of an int whatever digits the
    cards hold. *)
Theorem readFITSHeader_fields fip0 w fip w' :
  readFITSHeader atof_times_1000 fip0 w = (OK, fip, w') ->
  getLogicalFITS fip (chars "SIMPLE") = Some 1%Z
  /\ getIntFITS fip (chars "BITPIX") = Some (bitpix fip)
  /\ (bitpix fip = 16 \/ bitpix fip = 32 \/ bitpix fip = -32)%Z
  /\ getNAXIS fip = inr (sw fip, sh fip)
  /\ bx fip = default 1%Z (getIntFITS fip (chars "XFACTOR"))
  /\ by_ fip = default 1%Z (getIntFITS fip (chars "YFACTOR"))
  /\ sx fip = default 0%Z (getIntFITS fip (chars "OFFSET1"))
  /\ sy fip = default 0%Z (getIntFITS fip (chars "OFFSET2"))
  /\ dur fip = default 0%Z
                 (atof_times_1000 <$> getRealFITS_buf fip (chars "EXPTIME"))
  /\ image fip = None
  /\ Forall int_range [sw fip; sh fip; bx fip; by_ fip; sx fip; sy fip].
Proof.
  intros (fipl & Hc & Hsc)%readFITSHeader_ok.
  apply crack_fields_spec in Hc
    as (Hv & Him & H1 & H2 & H3 & H4 & H5 & H6 & H7 & H8 & H9).
  assert (Hfl : bx fipl = 1%Z /\ by_ fipl = 1%Z /\ sx fipl = 0%Z
                /\ sy fipl = 0%Z /\ dur fipl = 0%Z /\ image fipl = None).
  { destruct fipl. cbn in Hsc. by injection Hsc as -> -> -> -> -> -> -> -> ->. }
  destruct Hfl as (Hbx & Hby & Hsx & Hsy & Hdur & Himl).
  rewrite Hbx in H5. rewrite Hby in H6. rewrite Hsx in H7. rewrite Hsy in H8.
  rewrite Hdur in H9.
  rewrite (getLogicalFITS_var fipl fip), !(getIntFITS_var fipl fip),
    (getNAXIS_var fipl fip), (getRealFITS_buf_var fipl fip) by done.
  assert (Hdef : forall d name,
            int_range d -> int_range (default d (getIntFITS fipl name))).
  { intros d name Hd. destruct (getIntFITS fipl name) eqn:E; [|done].
    by eapply getIntFITS_int_range. }
  assert (H01 : int_range 0 /\ int_range 1) by (unfold int_range; lia).
  destruct (getNAXIS_inr _ _ _ H4) as [Hw Hh].
  apply getIntFITS_int_range in Hw, Hh.
  split_and!; try done; [congruence|].
  rewrite H5, H6, H7, H8.
  repeat (constructor; [first [done | apply Hdef; tauto]|]). constructor.
Qed.

End HeaderFields.

Lemma readFITSHeader_fields_witness :
  bx (readFITSHeader (fun _ => 0%Z) initFImage naxis_1_file).1.2 = 1%Z
  /\ getNAXIS (readFITSHeader (fun _ => 0%Z) initFImage naxis_1_file).1.2
     = inr (2%Z, 3%Z).
Proof.
  destruct (readFITSHeader_fields (fun _ => 0%Z) initFImage naxis_1_file
              (readFITSHeader (fun _ => 0%Z) initFImage naxis_1_file).1.2
              (readFITSHeader (fun _ => 0%Z) initFImage naxis_1_file).2
              ltac:(vm_compute; reflexivity))
    as (_ & _ & _ & Hax & Hbx & _).
  split; [exact Hbx|exact Hax].
Defined.

(** ** A header without END *)

Section ShortHeader.

Variable atof_times_1000 : list ascii -> Z.

Lemma readFITSHeader_loop_short rest : forall rows fuel fip nrows w,
  Forall wf_row rows ->
  Forall (fun row => take 3 row <> chars "END") rows ->
  input w = map RdData rows ++ rest ->
  (exists short, hd (RdData []) rest = RdData short
                 /\ length short < FITS_HCOLS) ->
  length rows < fuel ->
  exists fip' w',
    readFITSHeader_loop fuel fip nrows false w
    = (LoopErr "header is short", fip', w').
Proof.
  induction rows as [|row rows IH];
    intros fuel fip nrows w Hwf Hne Hi (short & Hhd & Hshort) Hfuel;
    (destruct fuel as [|fuel]; [simpl in Hfuel; lia|]);
    cbn [readFITSHeader_loop]; unfold bind at 1; unfold sys_read at 1;
    cbn [orb]; rewrite Hi; cbn [map app].
  - destruct rest as [|ev rest']; cbn [hd] in Hhd.
    + rewrite decide_False by done. eauto.
    + subst ev. cbn [fst snd].
      rewrite decide_False by (rewrite length_take; lia). eauto.
  - apply Forall_cons in Hwf as [Hrow Hwf].
    apply Forall_cons in Hne as [Hnoend Hne].
    unfold wf_row in Hrow. rewrite (take_ge row) by lia. cbn [fst snd].
    rewrite decide_True by done.
    replace (strncmp_eq 3 row (chars "END")) with false
      by (symmetry; apply not_true_is_false; by rewrite is_END_take).
    unfold bind at 1. unfold bind at 1.
    destruct (addFImageVar fip row _) as [fip1 w2] eqn:Hadd.
    unfold ret at 1. cbn [negb orb].
    apply (IH fuel fip1 (nrows + 1)%Z w2); try done.
    + pose proof (addFImageVar_input fip row
                    (mkWorld (allocs w) (map RdData rows ++ rest) (wscript w)
                       (output w) (live w))) as Hin.
      rewrite Hadd in Hin. exact Hin.
    + eauto.
    + simpl in Hfuel. lia.
Qed.

(** X13: a file that gives whole rows none of which starts with END, and then
    ends or gives less than a row, is rejected by [readFITSHeader] as a
    short header, whatever memory is to be had; the descriptor is reset and
    no block is left behind. *)
Theorem readFITSHeader_short fip0 w rows rest :
  Forall wf_row rows ->
  Forall (fun row => take 3 row <> chars "END") rows ->
  input w = map RdData rows ++ rest ->
  (exists short, hd (RdData []) rest = RdData short
                 /\ length short < FITS_HCOLS) ->
  exists w',
    readFITSHeader atof_times_1000 fip0 w
    = (ERR "header is short", initFImage, w')
    /\ live w' = live w.
Proof.
  intros Hwf Hne Hi Hshort.
  destruct (readFITSHeader atof_times_1000 fip0 w) as [[st fip] w'] eqn:Hr.
  pose proof (readFITSHeader_result _ _ _ _ _ _ Hr) as Hres.
  revert Hr. unfold readFITSHeader, read_fuel.
  unfold bind at 1. unfold bind at 1.
  assert (Hfuel : length rows < S (length (input w))).
  { rewrite Hi, length_app, length_map. unfold FITSRow. lia. }
  destruct (readFITSHeader_loop_short rest rows (S (length (input w)))
              initFImage 0 w Hwf Hne Hi Hshort Hfuel) as (fipl & wl & ->).
  unfold bind, ret. destruct (resetFImage fipl wl) as [fipr wr].
  intros [= <- <- <-]. destruct Hres as [-> Hl]. by exists wr.
Qed.

End ShortHeader.

Lemma readFITSHeader_short_witness :
  exists w',
    readFITSHeader (fun _ => 0%Z) initFImage
      (mkWorld [] (map RdData naxis_1_rows) [] [] 0)
    = (ERR "header is short", initFImage, w').
Proof.
  destruct (readFITSHeader_short (fun _ => 0%Z) initFImage
              (mkWorld [] (map RdData naxis_1_rows) [] [] 0)
              naxis_1_rows [] wf_naxis_1_rows)
    as (w' & H & _).
  - repeat constructor; discriminate.
  - by rewrite app_nil_r.
  - exists []. split; [done|]. unfold FITS_HCOLS. simpl. lia.
  - by exists w'.
Defined.

(** ** 32-bit integer samples in a file *)

Section IntCodec.

Local Open Scope Z_scope.

Lemma to_ushort_to_int x : to_ushort (to_int x) = x mod 65536.
Proof. unfold to_ushort, to_int. Z.div_mod_to_equations. lia. Qed.

Lemma to_uint_to_int x : to_uint (to_int x) = x mod 4294967296.
Proof. unfold to_uint, to_int. Z.div_mod_to_equations. lia. Qed.

Lemma mod_mod_65536 x : (x mod 4294967296) mod 65536 = x mod 65536.
Proof. Z.div_mod_to_equations. lia. Qed.

Lemma un_int_le_load32 b0 b1 b2 b3 :
  to_ushort (to_int (un_int_le (load32 LittleEndian b0 b1 b2 b3)))
  = int_sample (load32 BigEndian b0 b1 b2 b3).
Proof.
  rewrite to_ushort_to_int. unfold un_int_le, int_sample, to_uint.
  rewrite mod_mod_65536.
  rewrite <- (un_float_le_load32 b0 b1 b2 b3). unfold un_float_le, to_uint.
  rewrite <- (mod_mod_65536 (swap_int _ + BZERO)).
  rewrite <- Zplus_mod_idemp_l. by rewrite mod_mod_65536.
Qed.

Lemma un_int_be_load32 b0 b1 b2 b3 :
  to_ushort (to_int (un_int_be (load32 BigEndian b0 b1 b2 b3)))
  = int_sample (load32 BigEndian b0 b1 b2 b3).
Proof.
  rewrite to_ushort_to_int. unfold un_int_be, int_sample, to_uint.
  rewrite mod_mod_65536. unfold to_int.
  generalize (load32 BigEndian b0 b1 b2 b3). intros x. unfold BZERO.
  Z.div_mod_to_equations. lia.
Qed.

Lemma un_int_words host : forall mem,
  map (fun v => to_ushort
                  (to_int ((if lendian host then un_int_le else un_int_be) v)))
    (uints_of_bytes host mem)
  = map int_sample (uints_of_bytes BigEndian mem).
Proof.
  fix IH 1. intros [|b0 [|b1 [|b2 [|b3 mem]]]]; try reflexivity.
  cbn [uints_of_bytes map]. rewrite (IH mem). clear IH.
  apply (f_equal (fun x => x :: _)).
  destruct host.
  - rewrite lendian_LittleEndian. apply un_int_le_load32.
  - rewrite lendian_BigEndian. apply un_int_be_load32.
Qed.

(** The 32-bit pixels of [readFITS], on either host. *)
Lemma int_samples host npixels imdata :
  convert_pixels host 32 npixels imdata
  = map int_sample
      (take (Z.to_nat npixels) (uints_of_bytes BigEndian imdata)).
Proof.
  unfold convert_pixels. rewrite decide_False, decide_True by done.
  unfold unFITSPixelsInt.
  rewrite <- firstn_map, <- (un_int_words host).
  destruct (lendian host);
    by rewrite take_map_pixel_loop, firstn_map.
Qed.

End IntCodec.

Section IntRead.

Variable host : endian.
Variable atof_times_1000 : list ascii -> Z.

(** X14: from a file whose header declares BITPIX = 32, each sample that
    [readFITS] stores is the number that the four bytes at its place in the
    file make, most significant byte first, plus BZERO, cut down to its low
    16 bits without any clamping, on a host of either byte order. And where
    width times height is at least 1 and, times 32, within an int, and the
    file has the bytes, [readFITS] returns 0 with all the samples and a bit
    depth of 16. *)
Theorem readFITS_int_samples fip fip0 fiph rest w :
  wf_store fip ->
  Forall (fun row => take 3 row <> chars "END") (var fip) ->
  allocs w = [] -> input w = file_reads fip rest ->
  crack_fields atof_times_1000 (set_var initFImage (var fip)) = inr fiph ->
  bitpix fiph = 32%Z ->
  (forall fipr w' a (i : nat) v,
      readFITS host atof_times_1000 fip0 w = (OK, fipr, w') ->
      image fipr = Some a -> a !! i = Some v ->
      exists word,
        uints_of_bytes BigEndian rest !! i = Some word
        /\ v = int_sample word)
  /\ (forall pixel_bytes tail,
        rest = pixel_bytes ++ tail ->
        let npixels := (sw fiph * sh fiph)%Z in
        (1 <= npixels)%Z -> (npixels * 32 <= 2147483647)%Z ->
        Z.of_nat (length pixel_bytes) = (npixels * 4)%Z ->
        exists fipr w',
          readFITS host atof_times_1000 fip0 w = (OK, fipr, w')
          /\ image fipr
             = Some (map int_sample (uints_of_bytes BigEndian pixel_bytes))
          /\ bitpix fipr = 16%Z).
Proof.
  intros Hwf Hne Ha Hi Hc Hbp. split.
  - intros fipr w' a i v Hrd Him Hv.
    destruct (readFITS_file_any host atof_times_1000 fip fip0 rest w fiph
                fipr w' Hwf Hne Ha Hi Hc Hrd) as (k & ->).
    cbn [image set_image set_bitpix] in Him. injection Him as <-.
    rewrite Hbp, int_samples in Hv.
    apply list_lookup_fmap_Some in Hv as (word & -> & Hword).
    apply lookup_take_Some in Hword as [Hword _].
    exists word. split; [by eapply uints_of_bytes_take|done].
  - intros pixel_bytes tail -> npixels Hn1 Hn32 Hlen.
    destruct (readFITS_file host atof_times_1000 fip fip0 _ w fiph
                Hwf Hne Ha Hi Hc) as (w' & Hrd).
    + done.
    + rewrite Hbp. change (Z.abs 32) with 32%Z. done.
    + rewrite Hbp. change (Z.abs 32 / 8)%Z with 4%Z. fold npixels.
      rewrite length_app. lia.
    + rewrite Hbp in Hrd. change (Z.abs 32 / 8)%Z with 4%Z in Hrd.
      fold npixels in Hrd.
      rewrite take_app_length' in Hrd by lia.
      rewrite int_samples in Hrd.
      rewrite take_ge in Hrd.
      2:{ rewrite length_uints_of_bytes.
          replace (length pixel_bytes) with (Z.to_nat npixels * 4) by lia.
          rewrite Nat.div_mul by lia. done. }
      eexists _, w'. split; [exact Hrd|]. done.
Qed.

End IntRead.

Lemma readFITS_int_samples_witness :
  exists fipr w',
    readFITS LittleEndian (fun _ => 0%Z) initFImage int_file = (OK, fipr, w')
    /\ image fipr = Some (map int_sample (uints_of_bytes BigEndian six_ints))
    /\ bitpix fipr = 16%Z.
Proof.
  refine (proj2 (readFITS_int_samples LittleEndian (fun _ => 0%Z)
                   (set_var initFImage int_rows) initFImage
                   (set_size (set_bitpix (set_var initFImage int_rows) 32) 3 2)
                   (six_ints ++ padding 24) int_file _ _ _ _ _ _)
            six_ints (padding 24) _ _ _ _).
  - repeat constructor.
  - repeat constructor; discriminate.
  - reflexivity.
  - reflexivity.
  - reflexivity.
  - reflexivity.
  - reflexivity.
  - simpl. lia.
  - simpl. lia.
  - reflexivity.
Defined.

Example int_file_pixels :
  fst (readFITS BigEndian (fun _ => 0%Z) initFImage int_file)
  = (OK,
     set_image
       (set_size (set_bitpix (set_var initFImage int_rows) 16) 3 2)
       (Some [32768; 32769; 32767; 65535; 0; 32768]%Z)).
Proof. vm_compute. reflexivity. Qed.

(** ** Writing under partial writes *)

(** What one [write] leaves behind. *)
Lemma sys_write_output buf w r w' :
  sys_write buf w = (r, w') ->
  match r with
  | inl _ => output w' = output w
  | inr n => output w' = output w ++ take n buf /\ n <= length buf
  end.
Proof.
  unfold sys_write. destruct (wscript w) as [|[m|k] rest]; intros [= <- <-]; simpl.
  - by rewrite firstn_all.
  - done.
  - rewrite length_take. split; [|lia]. f_equal.
    destruct (decide (k <= length buf)).
    + by rewrite Nat.min_l.
    + rewrite Nat.min_r, !take_ge by lia. done.
Qed.

Lemma take_take_drop {A} (l : list A) i j k :
  j <= k ->
  take j (take k (drop i l)) = take j (drop i l).
Proof. intros. rewrite take_take. f_equal. lia. Qed.

Lemma take_add_app {A} (l : list A) i j k :
  j <= length (drop i l) ->
  take j (drop i l) ++ take k (drop (i + j) l) = take (j + k) (drop i l).
Proof.
  intros Hj. rewrite <- drop_drop.
  rewrite <- (take_drop j (drop i l)) at 3.
  rewrite take_app_add'; [done|]. rewrite length_take. lia.
Qed.

(** The loop of [writeFITS] writes a prefix of what is left, all of it
    when it ends well; a failure never reports the system's message. *)
Lemma writeFITS_loop_output fuel : forall mem nw nbytes w e w',
  (0 <= nw)%Z ->
  writeFITS_loop fuel mem nw nbytes w = (e, w') ->
  exists k,
    output w' = output w ++ take k (drop (Z.to_nat nw) mem)
    /\ k <= Z.to_nat (nbytes - nw)
    /\ k <= length (drop (Z.to_nat nw) mem)
    /\ (e = LoopDone -> k = Z.to_nat (nbytes - nw))
    /\ (forall m, e = LoopErr m -> m = "Short write of FITS pixels"%string).
Proof.
  induction fuel as [|fuel IH]; intros mem nw nbytes w e w' Hnw H;
    cbn [writeFITS_loop] in H.
  { injection H as <- <-. exists 0. rewrite take_0, app_nil_r.
    split_and!; [done|lia|lia|done|done]. }
  destruct (nw <? nbytes)%Z eqn:Hlt.
  2:{ injection H as <- <-. apply Z.ltb_ge in Hlt. exists 0.
      rewrite take_0, app_nil_r. split_and!; [done|lia|lia|intros _; lia|done]. }
  apply Z.ltb_lt in Hlt.
  unfold bind at 1 in H.
  match type of H with context [sys_write ?b w] =>
    pose proof (sys_write_output b w) as Hout;
    destruct (sys_write b w) as [[m|[|n]] w1] end;
    specialize (Hout _ _ eq_refl); simpl in Hout.
  - replace (nw <? 0)%Z with false in H by (symmetry; apply Z.ltb_ge; lia).
    injection H as <- <-. exists 0. rewrite take_0, app_nil_r.
    split_and!; [done|lia|lia|done|by intros ? [= <-]].
  - replace (nw <? 0)%Z with false in H by (symmetry; apply Z.ltb_ge; lia).
    injection H as <- <-. exists 0. rewrite take_0, app_nil_r.
    destruct Hout as [Hout _]. rewrite take_0, app_nil_r in Hout.
    split_and!; [done|lia|lia|done|by intros ? [= <-]].
  - destruct Hout as [Hout Hn]. rewrite length_take in Hn.
    apply IH in H as (k & Hk & Hk1 & Hk2 & Hdone & Herr); [|lia].
    replace (Z.to_nat (nw + Z.of_nat (S n))) with (Z.to_nat nw + S n) in * by lia.
    exists (S n + k). split_and!.
    + rewrite Hk, Hout, <- app_assoc. f_equal.
      rewrite take_take_drop by lia. apply take_add_app. lia.
    + lia.
    + rewrite length_drop in *. lia.
    + intros He. specialize (Hdone He). lia.
    + done.
Qed.

Lemma pad_2880_loop_output fuel : forall padbuf nw nbytes w e w',
  (0 <= nw)%Z ->
  pad_2880_loop fuel padbuf nw nbytes w = (e, w') ->
  exists k,
    output w' = output w ++ take k (drop (Z.to_nat nw) padbuf)
    /\ k <= Z.to_nat (nbytes - nw)
    /\ k <= length (drop (Z.to_nat nw) padbuf)
    /\ (e = LoopDone -> k = Z.to_nat (nbytes - nw))
    /\ (forall m, e = LoopErr m ->
          m = ("Error adding padding of " +:+ show_d nbytes)%string).
Proof.
  induction fuel as [|fuel IH]; intros mem nw nbytes w e w' Hnw H;
    cbn [pad_2880_loop] in H.
  { injection H as <- <-. exists 0. rewrite take_0, app_nil_r.
    split_and!; [done|lia|lia|done|done]. }
  destruct (nw <? nbytes)%Z eqn:Hlt.
  2:{ injection H as <- <-. apply Z.ltb_ge in Hlt. exists 0.
      rewrite take_0, app_nil_r. split_and!; [done|lia|lia|intros _; lia|done]. }
  apply Z.ltb_lt in Hlt.
  unfold bind at 1 in H.
  match type of H with context [sys_write ?b w] =>
    pose proof (sys_write_output b w) as Hout;
    destruct (sys_write b w) as [[m|[|n]] w1] end;
    specialize (Hout _ _ eq_refl); simpl in Hout.
  - replace (nw <? 0)%Z with false in H by (symmetry; apply Z.ltb_ge; lia).
    injection H as <- <-. exists 0. rewrite take_0, app_nil_r.
    split_and!; [done|lia|lia|done|by intros ? [= <-]].
  - replace (nw <? 0)%Z with false in H by (symmetry; apply Z.ltb_ge; lia).
    injection H as <- <-. exists 0. rewrite take_0, app_nil_r.
    destruct Hout as [Hout _]. rewrite take_0, app_nil_r in Hout.
    split_and!; [done|lia|lia|done|by intros ? [= <-]].
  - destruct Hout as [Hout Hn]. rewrite length_take in Hn.
    apply IH in H as (k & Hk & Hk1 & Hk2 & Hdone & Herr); [|lia].
    replace (Z.to_nat (nw + Z.of_nat (S n))) with (Z.to_nat nw + S n) in * by lia.
    exists (S n + k). split_and!.
    + rewrite Hk, Hout, <- app_assoc. f_equal.
      rewrite take_take_drop by lia. apply take_add_app. lia.
    + lia.
    + rewrite length_drop in *. lia.
    + intros He. specialize (Hdone He). lia.
    + done.
Qed.

Lemma padding_length nbytes :
  (0 <= nbytes)%Z ->
  length (padding nbytes) < 2880
  /\ (Z.to_nat nbytes + length (padding nbytes)) mod 2880 = 0.
Proof.
  intros Hn. unfold padding. rewrite length_replicate.
  rewrite (Z.rem_mod_nonneg nbytes) by lia.
  pose proof (Z.mod_pos_bound nbytes 2880 ltac:(lia)) as Hb.
  rewrite Z.rem_mod_nonneg by lia.
  pose proof (Z.mod_pos_bound (2880 - nbytes mod 2880) 2880 ltac:(lia)) as Hb2.
  split; [lia|].
  apply Nat2Z.inj. rewrite Nat2Z.inj_mod, Nat2Z.inj_add, !Z2Nat.id by lia.
  change (Z.of_nat 2880) with 2880%Z. change (Z.of_nat 0) with 0%Z.
  clear Hb Hb2. Z.div_mod_to_equations. lia.
Qed.

(** What [pad_2880] has written when it returns, and what it reports. *)
Lemma pad_2880_output nbytes w st w' :
  pad_2880 nbytes w = (st, w') ->
  exists k,
    output w' = output w ++ replicate k NUL
    /\ k <= length (padding nbytes)
    /\ (st = OK -> k = length (padding nbytes))
    /\ (forall m, st = ERR m ->
          m = ("Error adding padding of "
                 +:+ show_d (Z.rem (2880 - Z.rem nbytes 2880) 2880))%string).
Proof.
  unfold pad_2880, padding. set (n := Z.rem (2880 - Z.rem nbytes 2880) 2880).
  case_decide as H0.
  { intros [= <- <-]. exists 0. rewrite H0. simpl. rewrite app_nil_r.
    split_and!; done. }
  unfold bind, write_fuel.
  destruct (pad_2880_loop _ _ _ _ _) as [e w1] eqn:Hloop.
  assert (Hfuel : e <> LoopFuel).
  { eapply pad_2880_loop_fuel; [| |exact Hloop]; simpl; lia. }
  apply pad_2880_loop_output in Hloop as (k & Hk & Hk1 & Hk2 & Hdone & Herr);
    [|lia].
  change (Z.to_nat 0) with 0 in *. rewrite drop_0 in *.
  rewrite length_replicate in *. rewrite Z.sub_0_r in *.
  rewrite take_replicate, Nat.min_l in Hk by lia. simpl in Hk.
  destruct e; [| |done]; intros [= <- <-]; exists k;
    (split_and!; [done|lia| |]).
  - intros _. by apply Hdone.
  - done.
  - done.
  - intros m [= <-]. by apply Herr.
Qed.

(** What [writeFITSHeader] has written when it returns. *)
Lemma writeFITSHeader_output fip w st w' :
  wf_store fip ->
  writeFITSHeader fip w = (st, w') ->
  match st with
  | OK => output w' = output w ++ header_block fip
  | ERR _ => exists k, k < length (header_block fip)
               /\ output w' = output w ++ take k (header_block fip)
  end.
Proof.
  intros Hwf. rewrite writeFITSHeader_unfold by done.
  assert (Hpos : 0 < length (header_block fip)).
  { rewrite length_header_block by done. unfold FITS_HCOLS. lia. }
  unfold bind at 1. unfold sys_malloc at 1.
  destruct (next_alloc w); cbn [fst snd].
  2:{ intros [= <- <-]. exists 0. simpl. by rewrite take_0, app_nil_r. }
  unfold bind at 1.
  match goal with |- context [sys_write ?b ?w0] =>
    pose proof (sys_write_output b w0) as Hout;
    destruct (sys_write b w0) as [[m|n] w1] end;
    specialize (Hout _ _ eq_refl); simpl in Hout.
  - unfold bind, sys_free, ret. intros [= <- <-]. exists 0. simpl.
    by rewrite take_0, app_nil_r.
  - destruct Hout as [Hout Hn]. unfold bind, sys_free, ret.
    case_decide as Hall; intros [= <- <-]; simpl.
    + by rewrite Hout, Hall, firstn_all.
    + exists n. split; [lia|done].
Qed.

(** ** The bytes of the pixels in a file *)

Lemma store16_en_pixel host v :
  store16 host ((if lendian host then en_pixel_le else en_pixel_be) v)
  = [byte_of ((v - BZERO) / 256); byte_of (v - BZERO)].
Proof.
  assert (Hbe : store16 BigEndian (en_pixel_be v)
                = [byte_of ((v - BZERO) / 256); byte_of (v - BZERO)]).
  { unfold store16, en_pixel_be, to_ushort.
    f_equal; [|f_equal]; apply byte_of_mod; Z.div_mod_to_equations; lia. }
  destruct host.
  - rewrite lendian_LittleEndian, file_bytes_host_independent. exact Hbe.
  - rewrite lendian_BigEndian. exact Hbe.
Qed.

Lemma bytes_of_enFITSPixels host a npix :
  length a <= Z.to_nat npix ->
  bytes_of_ushorts host (enFITSPixels host a npix) = file_bytes a.
Proof.
  intros Hlen. rewrite enFITSPixels_map by done.
  unfold bytes_of_ushorts, file_bytes. rewrite map_map. f_equal.
  apply map_ext. intros v. apply store16_en_pixel.
Qed.

Lemma length_file_bytes a : length (file_bytes a) = 2 * length a.
Proof.
  unfold file_bytes. induction a as [|v a IH]; simpl; [done|]. rewrite IH. lia.
Qed.

(** X15: on either host the bytes [enFITSPixels] leaves in memory are, sample
    by sample, [v - BZERO] as a signed 16-bit number with its most
    significant byte first, two bytes a sample. *)
Theorem enFITSPixels_file_bytes host a npix :
  length a <= Z.to_nat npix ->
  bytes_of_ushorts host (enFITSPixels host a npix) = file_bytes a
  /\ length (file_bytes a) = 2 * length a.
Proof.
  intros Hlen. split; [by apply bytes_of_enFITSPixels|].
  apply length_file_bytes.
Qed.

Lemma enFITSPixels_file_bytes_witness :
  bytes_of_ushorts LittleEndian (enFITSPixels LittleEndian [0; 32768; 65535]%Z 3)
  = file_bytes [0; 32768; 65535]%Z.
Proof.
  refine (proj1 (enFITSPixels_file_bytes LittleEndian [0; 32768; 65535]%Z 3 _)).
  simpl. lia.
Defined.

Section WriteAnyWorld.

Variable host : endian.

(** X16: when [writeFITS] returns 0 it has written, whatever the writes took
    at a time, the header block, two bytes a pixel in file order and the
    zero bytes up to the next multiple of 2880, and nothing else; the bytes
    written are a whole number of blocks; the pixels in memory are as they
    were when [restore] is set and in file form when it is not. *)
Theorem writeFITS_file fip a restore w fip' w' :
  wf_store fip -> image fip = Some a -> Forall ushort a ->
  Z.of_nat (length a) = (sw fip * sh fip)%Z ->
  (sw fip * sh fip * 2 <= 2147483647)%Z ->
  writeFITS host fip restore w = (OK, fip', w') ->
  (exists k,
      k < 2880
      /\ output w'
         = output w ++ header_block fip ++ file_bytes a ++ replicate k NUL
      /\ length (header_block fip ++ file_bytes a ++ replicate k NUL)
           mod 2880 = 0)
  /\ fip' = (if restore then fip
             else set_image fip
                    (Some (enFITSPixels host a (sw fip * sh fip)))).
Proof.
  intros Hwf Him Hus Hlen Hfit. unfold writeFITS. rewrite Him.
  unfold bind at 1.
  destruct (writeFITSHeader fip w) as [st wh] eqn:Hh.
  apply writeFITSHeader_output in Hh; [|done].
  destruct st; [|done].
  assert (Hnpix : int_mul (sw fip) (sh fip) = (sw fip * sh fip)%Z)
    by (apply int_mul_small; lia).
  rewrite Hnpix. rewrite int_mul_small by lia.
  set (npix := (sw fip * sh fip)%Z) in *.
  rewrite bytes_of_enFITSPixels by lia.
  unfold bind at 1. unfold write_fuel at 1. cbn [fst snd].
  unfold bind at 1.
  destruct (writeFITS_loop _ _ _ _ _) as [e wl] eqn:Hloop.
  apply writeFITS_loop_output in Hloop as (k & Hk & _ & Hk2 & Hdone & _); [|lia].
  destruct e; [|done..].
  specialize (Hdone eq_refl).
  change (Z.to_nat 0) with 0 in *. rewrite drop_0 in *.
  rewrite length_file_bytes in Hk2.
  rewrite take_ge in Hk by (rewrite length_file_bytes; lia).
  unfold bind.
  destruct (pad_2880 _ wl) as [st wp] eqn:Hp.
  apply pad_2880_output in Hp as (kp & Hkp & _ & Hok & _).
  destruct st; [|done]. specialize (Hok eq_refl).
  pose proof (padding_length (npix * 2) ltac:(lia)) as [Hlt Hpad].
  intros [= <- <-]. split; [exists kp; split_and!|].
  - lia.
  - by rewrite Hkp, Hk, Hh, <- !app_assoc.
  - rewrite !length_app, length_header_block, length_file_bytes by done.
    pose proof (header_npad_spec (nvar fip)) as [Hmod _].
    apply Nat.Div0.mod_divides in Hmod as [c Hc]. rewrite Hc.
    apply Nat.Div0.mod_divides in Hpad as [c2 Hc2].
    rewrite length_replicate, Hok.
    replace (2 * length a) with (Z.to_nat (npix * 2)) by lia.
    rewrite Hc2. unfold FITS_HROWS, FITS_HCOLS.
    replace (36 * c * 80 + 2880 * c2) with ((c + c2) * 2880) by lia.
    apply Nat.Div0.mod_mul.
  - destruct restore; [|done].
    rewrite un_en_pixels by (try done; lia).
    destruct fip; simpl in *; by subst.
Qed.

End WriteAnyWorld.

Lemma writeFITS_file_witness :
  exists k,
    k < 2880
    /\ output (writeFITS LittleEndian six_pixels true partial_write_world).2
       = output partial_write_world ++ header_block six_pixels
           ++ file_bytes [0; 1; 65535; 32768; 32767; 256]%Z
           ++ replicate k NUL
    /\ length (header_block six_pixels
                 ++ file_bytes [0; 1; 65535; 32768; 32767; 256]%Z
                 ++ replicate k NUL) mod 2880 = 0.
Proof.
  refine (proj1 (writeFITS_file LittleEndian six_pixels
                   [0; 1; 65535; 32768; 32767; 256]%Z true
                   partial_write_world
                   (writeFITS LittleEndian six_pixels true
                      partial_write_world).1.2
                   _ _ _ _ _ _ _)).
  - apply wf_naxis_1_rows.
  - reflexivity.
  - unfold ushort. repeat constructor; lia.
  - reflexivity.
  - simpl. lia.
  - vm_compute. reflexivity.
Defined.

(** ** What [writeFITS] leaves alone *)

Lemma sys_write_input buf w : input (snd (sys_write buf w)) = input w.
Proof. unfold sys_write. by destruct (wscript w) as [|[m|k] rest]. Qed.

Lemma writeFITS_loop_input fuel : forall mem nw nbytes w e w',
  writeFITS_loop fuel mem nw nbytes w = (e, w') -> input w' = input w.
Proof.
  induction fuel as [|fuel IH]; intros mem nw nbytes w e w' H;
    cbn [writeFITS_loop] in H.
  { by injection H as <- <-. }
  destruct (nw <? nbytes)%Z; [|by injection H as <- <-].
  unfold bind at 1 in H.
  match type of H with context [sys_write ?b w] =>
    pose proof (sys_write_input b w) as Hl;
    destruct (sys_write b w) as [[m|[|n]] w1] end; simpl in Hl.
  - destruct (nw <? 0)%Z; by injection H as <- <-.
  - destruct (nw <? 0)%Z; by injection H as <- <-.
  - apply IH in H. congruence.
Qed.

Lemma pad_2880_loop_input fuel : forall padbuf nw nbytes w e w',
  pad_2880_loop fuel padbuf nw nbytes w = (e, w') -> input w' = input w.
Proof.
  induction fuel as [|fuel IH]; intros mem nw nbytes w e w' H;
    cbn [pad_2880_loop] in H.
  { by injection H as <- <-. }
  destruct (nw <? nbytes)%Z; [|by injection H as <- <-].
  unfold bind at 1 in H.
  match type of H with context [sys_write ?b w] =>
    pose proof (sys_write_input b w) as Hl;
    destruct (sys_write b w) as [[m|[|n]] w1] end; simpl in Hl.
  - destruct (nw <? 0)%Z; by injection H as <- <-.
  - destruct (nw <? 0)%Z; by injection H as <- <-.
  - apply IH in H. congruence.
Qed.

Lemma pad_2880_input nbytes w st w' :
  pad_2880 nbytes w = (st, w') -> input w' = input w.
Proof.
  unfold pad_2880. case_decide; [by intros [= <- <-]|].
  unfold bind, write_fuel.
  destruct (pad_2880_loop _ _ _ _ _) as [e w1] eqn:Hloop.
  apply pad_2880_loop_input in Hloop. simpl in Hloop.
  destruct e; intros [= <- <-]; done.
Qed.

Lemma writeFITSHeader_input fip w st w' :
  writeFITSHeader fip w = (st, w') -> input w' = input w.
Proof.
  unfold writeFITSHeader, bind, sys_malloc.
  destruct (next_alloc w); [|by intros [= <- <-]].
  match goal with |- context [sys_write ?b ?w0] =>
    pose proof (sys_write_input b w0) as Hl;
    destruct (sys_write b w0) as [nw w1] end.
  simpl in *. destruct nw as [m|nw]; [by intros [= <- <-]|].
  case_decide; by intros [= <- <-].
Qed.

Section WriteFrame.

Variable host : endian.

(** However it ends, [writeFITS] changes the pixels at most and holds no
    block when it returns. *)
Lemma writeFITS_any fip restore w st fip' w' :
  writeFITS host fip restore w = (st, fip', w') ->
  set_image fip' (image fip) = fip
  /\ (image fip' = None <-> image fip = None)
  /\ live w' = live w.
Proof.
  assert (Hid : set_image fip (image fip) = fip) by (by destruct fip).
  unfold writeFITS. destruct (image fip) as [a|] eqn:Him.
  2:{ intros [= <- <- <-]. rewrite Him. split_and!; auto. }
  unfold bind at 1.
  destruct (writeFITSHeader fip w) as [sth wh] eqn:Hh.
  pose proof (writeFITSHeader_live _ _ _ _ Hh) as Hl1.
  destruct sth.
  2:{ intros [= <- <- <-]. rewrite Him. split_and!; auto. }
  unfold bind at 1. unfold write_fuel at 1. unfold bind at 1.
  destruct (writeFITS_loop _ _ _ _ _) as [e wl] eqn:Hloop.
  pose proof (writeFITS_loop_live _ _ _ _ _ _ _ Hloop) as Hl2.
  simpl in Hl2.
  assert (Hset : forall i, set_image (set_image fip (Some i)) (Some a) = fip)
    by (intros i; rewrite <- Hid at 2; done).
  destruct e.
  - unfold bind. destruct (pad_2880 _ wl) as [stp wp] eqn:Hp.
    pose proof (pad_2880_live _ _ _ _ Hp).
    destruct stp; intros [= <- <- <-]; simpl;
      (split_and!; [apply Hset|done|lia]).
  - intros [= <- <- <-]. simpl. split_and!; [apply Hset|done|lia].
  - intros [= <- <- <-]. simpl. split_and!; [apply Hset|done|lia].
Qed.

(** Nor does it read. *)
Lemma writeFITS_input fip restore w st fip' w' :
  writeFITS host fip restore w = (st, fip', w') -> input w' = input w.
Proof.
  unfold writeFITS. destruct (image fip) as [a|]; [|by intros [= <- <- <-]].
  unfold bind at 1.
  destruct (writeFITSHeader fip w) as [sth wh] eqn:Hh.
  pose proof (writeFITSHeader_input _ _ _ _ Hh) as Hi1.
  destruct sth; [|by intros [= <- <- <-]].
  unfold bind at 1. unfold write_fuel at 1. unfold bind at 1.
  destruct (writeFITS_loop _ _ _ _ _) as [e wl] eqn:Hloop.
  pose proof (writeFITS_loop_input _ _ _ _ _ _ _ Hloop) as Hi2.
  simpl in Hi2.
  destruct e; [|intros [= <- <- <-]; congruence..].
  unfold bind. destruct (pad_2880 _ wl) as [stp wp] eqn:Hp.
  pose proof (pad_2880_input _ _ _ _ Hp).
  destruct stp; intros [= <- <- <-]; congruence.
Qed.

(** X17: however it ends, [writeFITS] changes nothing of the descriptor but the
    pixels, whose buffer it neither obtains nor gives up; it holds no block
    of memory when it returns, and it reads nothing. *)
Theorem writeFITS_frame fip restore w st fip' w' :
  writeFITS host fip restore w = (st, fip', w') ->
  set_image fip' (image fip) = fip
  /\ (image fip' = None <-> image fip = None)
  /\ live w' = live w
  /\ input w' = input w.
Proof.
  intros H. destruct (writeFITS_any _ _ _ _ _ _ H) as (H1 & H2 & H3).
  pose proof (writeFITS_input _ _ _ _ _ _ H). done.
Qed.

(** X18: what a failing [writeFITS] reports and leaves in the pixel buffer.
    Without pixels nothing is done. Otherwise the failure is that of the
    header, with the pixels untouched; or a write of pixels took nothing or
    failed, which is reported as a short write whatever the system said,
    with the pixels put back when [restore] is set; or the padding could
    not be written, and then the pixels stay in file form even when
    [restore] is set. *)
Theorem writeFITS_errors fip restore w m fip' w' :
  writeFITS host fip restore w = (ERR m, fip', w') ->
  match image fip with
  | None => m = "No pixels :-("%string /\ fip' = fip /\ w' = w
  | Some a =>
      let npix := int_mul (sw fip) (sh fip) in
      let a1 := enFITSPixels host a npix in
      (writeFITSHeader fip w = (ERR m, w') /\ fip' = fip)
      \/ (m = "Short write of FITS pixels"%string
          /\ fip' = set_image fip
                      (Some (if restore then unFITSPixels host a1 npix
                             else a1)))
      \/ (m = ("Error adding padding of "
                 +:+ show_d (Z.rem (2880 - Z.rem (int_mul npix 2) 2880) 2880))%string
          /\ fip' = set_image fip (Some a1))
  end.
Proof.
  unfold writeFITS. destruct (image fip) as [a|] eqn:Him.
  2:{ by intros [= <- <- <-]. }
  cbv zeta. unfold bind at 1.
  destruct (writeFITSHeader fip w) as [sth wh] eqn:Hh.
  destruct sth.
  2:{ intros [= <- <- <-]. by left. }
  unfold bind at 1. unfold write_fuel at 1. unfold bind at 1.
  destruct (writeFITS_loop _ _ _ _ _) as [e wl] eqn:Hloop.
  assert (Hfuel : e <> LoopFuel).
  { eapply writeFITS_loop_fuel; [| |exact Hloop]; simpl; lia. }
  apply writeFITS_loop_output in Hloop as (k & _ & _ & _ & _ & Herr); [|lia].
  destruct e; [| |done].
  - unfold bind. destruct (pad_2880 _ wl) as [stp wp] eqn:Hp.
    apply pad_2880_output in Hp as (kp & _ & _ & _ & Hm).
    destruct stp; intros [= <- <- <-]. right. right. split; [|done].
    by apply Hm.
  - intros [= <- <- <-]. right. left. split; [|done]. by apply Herr.
Qed.

End WriteFrame.

Lemma writeFITS_frame_witness :
  let r := writeFITS LittleEndian six_pixels false short_write_world in
  set_image r.1.2 (image six_pixels) = six_pixels
  /\ (image r.1.2 = None <-> image six_pixels = None)
  /\ live r.2 = live short_write_world
  /\ input r.2 = input short_write_world.
Proof.
  intros r.
  exact (writeFITS_frame LittleEndian six_pixels false short_write_world
           r.1.1 r.1.2 r.2 ltac:(vm_compute; reflexivity)).
Defined.

Lemma writeFITS_errors_witness :
  (writeFITS LittleEndian six_pixels true short_write_world).1.2
  = set_image six_pixels
      (Some (unFITSPixels LittleEndian
               (enFITSPixels LittleEndian [0; 1; 65535; 32768; 32767; 256]%Z 6)
               6)).
Proof.
  pose proof (writeFITS_errors LittleEndian six_pixels true short_write_world
                "Short write of FITS pixels"
                (writeFITS LittleEndian six_pixels true short_write_world).1.2
                (writeFITS LittleEndian six_pixels true short_write_world).2
                ltac:(vm_compute; reflexivity)) as H.
  change (image six_pixels) with (Some [0; 1; 65535; 32768; 32767; 256]%Z) in H.
  cbv zeta in H. destruct H as [[H _]|[[_ H]|[H _]]].
  - vm_compute in H. discriminate H.
  - exact H.
  - vm_compute in H. discriminate H.
Defined.

(** ** A file with too few pixels *)

Section ShortData.

Variable host : endian.
Variable atof_times_1000 : list ascii -> Z.

(** X19: from a file whose header is in order and declares at least one
    pixel and a number of bits, width times height times the bit depth,
    that is within an int, and that ends before it has given the bytes of
    all these pixels, [readFITS] returns -1 with the message that the data
    is short; the descriptor is reset and no block is left behind. *)
Theorem readFITS_data_short fip fip0 rest w fiph :
  wf_store fip ->
  Forall (fun row => take 3 row <> chars "END") (var fip) ->
  allocs w = [] -> input w = file_reads fip rest ->
  crack_fields atof_times_1000 (set_var initFImage (var fip)) = inr fiph ->
  let npixels := (sw fiph * sh fiph)%Z in
  let nbytesfile := (npixels * (Z.abs (bitpix fiph) / 8))%Z in
  (1 <= npixels)%Z ->
  (npixels * Z.abs (bitpix fiph) <= 2147483647)%Z ->
  (Z.of_nat (length rest) < nbytesfile)%Z ->
  exists w',
    readFITS host atof_times_1000 fip0 w
    = (ERR "data is short", initFImage, w')
    /\ live w' = live w.
Proof.
  intros Hwf Hne Ha Hi Hc npixels nbytesfile Hn1 Hn32 Hrest.
  destruct (readFITS host atof_times_1000 fip0 w) as [[st fipr] w'] eqn:Hr.
  assert (Hst : st = ERR "data is short").
  { revert Hr.
    pose proof (crack_fields_bitpix _ _ _ Hc) as Hbp.
    destruct (readFITSHeader_file atof_times_1000 fip fip0 rest w fiph
                Hwf Hne Ha Hi Hc) as (w1 & Hh & Ha1 & Hi1).
    unfold readFITS. unfold bind at 1. rewrite Hh.
    assert (Habs : (Z.abs (bitpix fiph) = 8 * (Z.abs (bitpix fiph) / 8)
                    /\ 2 <= Z.abs (bitpix fiph) / 8 <= 4)%Z).
    { destruct Hbp as [-> | [-> | ->]];
        [change (Z.abs 16 / 8)%Z with 2%Z
        |change (Z.abs 32 / 8)%Z with 4%Z
        |change (Z.abs (-32) / 8)%Z with 4%Z];
        (split; [reflexivity|lia]). }
    destruct Habs as [Habs Hk].
    assert (Hnp : int_mul (sw fiph) (sh fiph) = npixels)
      by (apply int_mul_small; subst npixels; nia).
    rewrite Hnp.
    rewrite (int_mul_small npixels (Z.abs (bitpix fiph))) by nia.
    assert (Hq : (npixels * Z.abs (bitpix fiph) ÷ 8 = nbytesfile)%Z).
    { rewrite Habs at 1.
      replace (npixels * (8 * (Z.abs (bitpix fiph) / 8)))%Z
        with (nbytesfile * 8)%Z by (unfold nbytesfile; lia).
      apply Z.quot_mul. lia. }
    rewrite Hq.
    unfold bind at 1. unfold sys_malloc at 1. unfold next_alloc at 1.
    rewrite Ha1. cbn [hd tl fst snd].
    unfold bind at 1. unfold sys_malloc at 1. unfold next_alloc at 1.
    cbn [allocs hd tl fst snd].
    unfold bind at 1. unfold read_fuel at 1. cbn [input fst snd].
    rewrite Hi1. cbn [length].
    unfold bind at 1. cbn [readFITS_loop length].
    replace (Z.of_nat 0 <? nbytesfile)%Z with true
      by (symmetry; apply Z.ltb_lt; lia).
    unfold bind at 1. unfold sys_read at 1. cbn [orb]. cbn [input].
    rewrite Z.sub_0_r. rewrite app_nil_l.
    rewrite take_ge by lia.
    destruct rest as [|b rest'].
    { unfold ret at 1. unfold bind. destruct (resetFImage _ _).
      by intros [= <- <- <-]. }
    replace (Z.of_nat (length (b :: rest')) <? nbytesfile)%Z with true
      by (symmetry; apply Z.ltb_lt; lia).
    unfold bind at 1. unfold sys_read at 1. cbn [input fst snd].
    unfold ret at 1. unfold bind. destruct (resetFImage _ _).
    by intros [= <- <- <-]. }
  subst st. apply readFITS_failure in Hr as [-> Hl]. by exists w'.
Qed.

End ShortData.

Lemma readFITS_data_short_witness :
  exists w',
    readFITS LittleEndian (fun _ => 0%Z) initFImage
      (mkWorld []
         (file_reads (set_var initFImage float_rows) (take 23 six_ints))
         [] [] 0)
    = (ERR "data is short", initFImage, w').
Proof.
  destruct (readFITS_data_short LittleEndian (fun _ => 0%Z)
              (set_var initFImage float_rows) initFImage
              (take 23 six_ints)
              (mkWorld []
                 (file_reads (set_var initFImage float_rows) (take 23 six_ints))
                 [] [] 0)
              (set_size (set_bitpix (set_var initFImage float_rows) (-32)) 3 2))
    as (w' & H & _).
  - repeat constructor.
  - repeat constructor; discriminate.
  - reflexivity.
  - reflexivity.
  - reflexivity.
  - simpl. lia.
  - simpl. lia.
  - vm_compute. reflexivity.
  - exists w'. exact H.
Defined.

(** ** What a successful read leaves *)

Lemma length_pixel_loop f : forall a n, length (pixel_loop f a n) = length a.
Proof. induction a as [|v a IH]; intros [|n]; simpl; try done. by rewrite IH. Qed.

Lemma length_ushorts_of_bytes host : forall mem,
  length (ushorts_of_bytes host mem) = length mem / 2.
Proof.
  fix IH 1. intros [|b0 [|b1 mem]]; try reflexivity.
  cbn [ushorts_of_bytes length]. rewrite (IH mem). clear IH.
  change (S (S (length mem))) with (2 + length mem).
  replace (2 + length mem) with (length mem + 1 * 2) by lia.
  rewrite Nat.div_add by lia. lia.
Qed.

(** The number of pixels [convert_pixels] makes of the bytes of a file. *)
Lemma length_convert_pixels host b npixels imdata :
  (b = 16 \/ b = 32 \/ b = -32)%Z -> (0 <= npixels)%Z ->
  Z.of_nat (length imdata) = (npixels * (Z.abs b / 8))%Z ->
  Z.of_nat (length (convert_pixels host b npixels imdata)) = npixels.
Proof.
  intros Hb Hn Hlen. unfold convert_pixels.
  destruct Hb as [-> | [-> | ->]].
  - rewrite decide_True by done. change (Z.abs 16 / 8)%Z with 2%Z in Hlen.
    rewrite length_take. unfold unFITSPixels.
    assert (length imdata / 2 = Z.to_nat npixels)
      by (replace (length imdata) with (Z.to_nat npixels * 2) by lia;
          by rewrite Nat.div_mul).
    destruct (lendian host);
      rewrite length_pixel_loop, length_ushorts_of_bytes; lia.
  - rewrite decide_False, decide_True by done.
    change (Z.abs 32 / 8)%Z with 4%Z in Hlen.
    rewrite length_take, length_map. unfold unFITSPixelsInt.
    assert (length imdata / 4 = Z.to_nat npixels)
      by (replace (length imdata) with (Z.to_nat npixels * 4) by lia;
          by rewrite Nat.div_mul).
    destruct (lendian host);
      rewrite length_pixel_loop, length_uints_of_bytes; lia.
  - rewrite decide_False, decide_False, decide_True by done.
    change (Z.abs (-32) / 8)%Z with 4%Z in Hlen.
    rewrite length_take, length_map. unfold unFITSPixelsFloat.
    assert (length imdata / 4 = Z.to_nat npixels)
      by (replace (length imdata) with (Z.to_nat npixels * 4) by lia;
          by rewrite Nat.div_mul).
    destruct (lendian host);
      rewrite ?length_pixel_loop, length_uints_of_bytes; lia.
Qed.

(** The loop of [readFITS] ends well with exactly the bytes wanted. *)
Lemma readFITS_loop_done fuel : forall ok imdata n w imdata' w',
  readFITS_loop fuel ok imdata n w = (LoopDone, imdata', w') ->
  (Z.of_nat (length imdata) <= n)%Z ->
  Z.of_nat (length imdata') = n.
Proof.
  induction fuel as [|fuel IH]; intros ok imdata n w imdata' w' H Hle;
    cbn [readFITS_loop] in H; [done|].
  destruct (_ <? _)%Z eqn:Hlt.
  2:{ apply Z.ltb_ge in Hlt. injection H as <- <-. lia. }
  unfold bind at 1 in H. unfold sys_read in H.
  destruct (input w) as [|[m|bytes] rest]; cbn [fst snd] in H; [done..|].
  destruct (ok || _); [|done].
  destruct (take _ bytes) as [|b bs] eqn:Htake; [done|].
  apply IH in H; [done|].
  rewrite length_app, <- Htake, length_take. lia.
Qed.

Section ReadSuccess.

Variable host : endian.
Variable atof_times_1000 : list ascii -> Z.

(** What [readFITS] has done when it returns 0. *)
Lemma readFITS_ok fip0 w fipr w' :
  readFITS host atof_times_1000 fip0 w = (OK, fipr, w') ->
  exists fiph w1 imdata,
    readFITSHeader atof_times_1000 fip0 w = (OK, fiph, w1)
    /\ let npixels := int_mul (sw fiph) (sh fiph) in
       let nbytesfile := Z.quot (int_mul npixels (Z.abs (bitpix fiph))) 8 in
       fipr = set_bitpix
                (set_image fiph
                   (Some (convert_pixels host (bitpix fiph) npixels imdata)))
                16
       /\ ((0 <= nbytesfile)%Z -> Z.of_nat (length imdata) = nbytesfile)
       /\ live w' = (live w1 + 1)%Z.
Proof.
  unfold readFITS. unfold bind at 1.
  destruct (readFITSHeader _ _ _) as [[st fiph] w1] eqn:Hh.
  destruct st; [|done].
  unfold bind at 1. unfold sys_malloc at 1.
  destruct (next_alloc w1); cbn [fst snd].
  2:{ unfold bind. by destruct (resetFImage _ _). }
  unfold bind at 1. unfold sys_malloc at 1. cbn [fst snd].
  set (ok := next_alloc _). set (w2 := mkWorld _ _ _ _ _).
  unfold bind at 1. unfold read_fuel at 1. unfold bind at 1.
  destruct (readFITS_loop _ _ _ _ _) as [[e imdata] w3] eqn:Hloop.
  pose proof (readFITS_loop_live _ _ _ _ _ _ _ _ Hloop) as Hl.
  destruct e.
  2,3: unfold bind; destruct (resetFImage _ _); by destruct ok.
  intros H. exists fiph, w1, imdata. split; [done|]. cbv zeta.
  cbn [fst snd] in Hloop.
  assert (Hlen : (0 <= Z.quot (int_mul (int_mul (sw fiph) (sh fiph))
                                 (Z.abs (bitpix fiph))) 8)%Z ->
                 Z.of_nat (length imdata)
                 = Z.quot (int_mul (int_mul (sw fiph) (sh fiph))
                             (Z.abs (bitpix fiph))) 8).
  { intros Hn. by apply (readFITS_loop_done _ _ _ _ _ _ _ Hloop). }
  revert H. unfold bind, ret, sys_free. cbn [fst snd] in Hl.
  subst w2. cbn [live] in Hl.
  destruct ok; intros [= <- <-]; cbn [live]; (split_and!; [done|done|lia]).
Qed.

(** X20: when [readFITS] returns 0 the bit depth of the descriptor is 16
    whatever the file held, while the BITPIX card of its header rows still
    has the depth of the file, 16, 32 or -32; the descriptor has a pixel
    buffer, of width times height pixels when this product times the depth
    of the file is an int; and the blocks obtained and not given back are
    those the descriptor holds. *)
Theorem readFITS_success fip0 w fipr w' :
  readFITS host atof_times_1000 fip0 w = (OK, fipr, w') ->
  bitpix fipr = 16%Z
  /\ (exists b, getIntFITS fipr (chars "BITPIX") = Some b
        /\ (b = 16 \/ b = 32 \/ b = -32)%Z
        /\ exists a, image fipr = Some a
             /\ ((0 <= sw fipr * sh fipr)%Z ->
                 (sw fipr * sh fipr * Z.abs b <= 2147483647)%Z ->
                 Z.of_nat (length a) = (sw fipr * sh fipr)%Z))
  /\ live w' = (live w + held fipr)%Z.
Proof.
  intros (fiph & w1 & imdata & Hh & Hr)%readFITS_ok. cbv zeta in Hr.
  destruct Hr as (-> & Hlen & Hl).
  pose proof (readFITSHeader_result _ _ _ _ _ _ Hh) as [Him Hl1].
  apply readFITSHeader_ok in Hh as (fipl & Hc & _).
  apply crack_fields_spec in Hc as (Hv & _ & _ & Hbit & Hb & _).
  split_and!.
  - done.
  - exists (bitpix fiph). split_and!.
    + by rewrite (getIntFITS_var fipl), Hbit.
    + done.
    + eexists. split; [reflexivity|]. cbn [sw sh set_bitpix set_image].
      intros H0 Hfit.
      assert (Habs : (Z.abs (bitpix fiph) = 8 * (Z.abs (bitpix fiph) / 8)
                      /\ 2 <= Z.abs (bitpix fiph) / 8 <= 4)%Z).
      { destruct Hb as [-> | [-> | ->]];
          [change (Z.abs 16 / 8)%Z with 2%Z
          |change (Z.abs 32 / 8)%Z with 4%Z
          |change (Z.abs (-32) / 8)%Z with 4%Z];
          (split; [reflexivity|lia]). }
      destruct Habs as [Habs Hk].
      assert (Hnp : int_mul (sw fiph) (sh fiph) = (sw fiph * sh fiph)%Z)
        by (apply int_mul_small; nia).
      rewrite Hnp in *.
      rewrite (int_mul_small _ (Z.abs (bitpix fiph))) in Hlen by nia.
      assert (Hq : ((sw fiph * sh fiph) * Z.abs (bitpix fiph) ÷ 8
                    = (sw fiph * sh fiph) * (Z.abs (bitpix fiph) / 8))%Z).
      { rewrite Habs at 1.
        replace (sw fiph * sh fiph * (8 * (Z.abs (bitpix fiph) / 8)))%Z
          with ((sw fiph * sh fiph) * (Z.abs (bitpix fiph) / 8) * 8)%Z by lia.
        apply Z.quot_mul. lia. }
      rewrite Hq in Hlen.
      apply length_convert_pixels; [done|done|]. apply Hlen. nia.
  - unfold held in *. cbn [var image set_bitpix set_image]. rewrite Him in Hl1.
    lia.
Qed.

(** X21: [resetFImage] after [readFITS], however that ended, leaves as many
    blocks of memory allocated as there were before the two calls. *)
Theorem readFITS_resetFImage fip0 w st fipr w' :
  readFITS host atof_times_1000 fip0 w = (st, fipr, w') ->
  fst (resetFImage fipr w') = initFImage
  /\ live (snd (resetFImage fipr w')) = live w.
Proof.
  intros Hr. pose proof (resetFImage_spec fipr w') as [Hinit Hl].
  split; [done|]. rewrite Hl. destruct st.
  - apply readFITS_ok in Hr as (fiph & w1 & imdata & Hh & Hr).
    cbv zeta in Hr. destruct Hr as (-> & _ & Hl2).
    pose proof (readFITSHeader_result _ _ _ _ _ _ Hh) as [Him Hl1].
    unfold held in *. cbn [var image set_bitpix set_image]. rewrite Him in Hl1.
    lia.
  - apply readFITS_failure in Hr as [-> ->]. change (held initFImage) with 0%Z.
    lia.
Qed.

End ReadSuccess.

Lemma readFITS_success_witness :
  bitpix (readFITS LittleEndian (fun _ => 0%Z) initFImage float_file).1.2
  = 16%Z
  /\ getIntFITS (readFITS LittleEndian (fun _ => 0%Z) initFImage float_file).1.2
       (chars "BITPIX")
     = Some (-32)%Z.
Proof.
  destruct (readFITS_success LittleEndian (fun _ => 0%Z) initFImage float_file
              (readFITS LittleEndian (fun _ => 0%Z) initFImage float_file).1.2
              (readFITS LittleEndian (fun _ => 0%Z) initFImage float_file).2
              ltac:(vm_compute; reflexivity))
    as (Hb & _ & _).
  split; [exact Hb|]. vm_compute. reflexivity.
Defined.

Lemma readFITS_resetFImage_witness :
  live (snd (resetFImage
               (readFITS LittleEndian (fun _ => 0%Z) initFImage float_file).1.2
               (readFITS LittleEndian (fun _ => 0%Z) initFImage float_file).2))
  = live float_file.
Proof.
  refine (proj2 (readFITS_resetFImage LittleEndian (fun _ => 0%Z) initFImage
                   float_file OK _ _ _)).
  vm_compute. reflexivity.
Defined.

(** ** More on the 16-bit codec *)

Section ShortCodec.

Local Open Scope Z_scope.

Lemma en_un_pixel_le v : ushort v -> en_pixel_le (un_pixel_le v) = v.
Proof.
  unfold ushort. intros Hv. rewrite un_pixel_le_bytes by lia.
  rewrite en_pixel_le_bytes. unfold BZERO.
  Z.div_mod_to_equations. lia.
Qed.

Lemma en_un_pixel_be v : ushort v -> en_pixel_be (un_pixel_be v) = v.
Proof.
  unfold ushort, un_pixel_be, en_pixel_be, to_ushort, BZERO. intros Hv.
  Z.div_mod_to_equations. lia.
Qed.

Lemma unFITSPixels_ushort host a npix :
  (length a <= Z.to_nat npix)%nat -> Forall ushort (unFITSPixels host a npix).
Proof.
  intros H. rewrite unFITSPixels_map by done.
  apply Forall_map, Forall_true. intros v.
  destruct (lendian host); apply to_ushort_ushort.
Qed.

(** X22: on a buffer of unsigned shorts [enFITSPixels] undoes [unFITSPixels],
    as [unFITSPixels] undoes [enFITSPixels]: the two are inverse to each
    other, and each leaves unsigned shorts. *)
Theorem en_un_pixels host a npix :
  Forall ushort a -> (length a <= Z.to_nat npix)%nat ->
  enFITSPixels host (unFITSPixels host a npix) npix = a
  /\ unFITSPixels host (enFITSPixels host a npix) npix = a
  /\ Forall ushort (enFITSPixels host a npix)
  /\ Forall ushort (unFITSPixels host a npix).
Proof.
  intros Ha Hn. split_and!.
  - rewrite unFITSPixels_map by done.
    rewrite enFITSPixels_map by (by rewrite length_map).
    rewrite map_map. rewrite <- (map_id a) at 2.
    apply map_ext_Forall. eapply Forall_impl; [exact Ha|].
    intros v Hv. simpl.
    destruct (lendian host); [by apply en_un_pixel_le|by apply en_un_pixel_be].
  - by apply un_en_pixels.
  - by apply enFITSPixels_ushort.
  - by apply unFITSPixels_ushort.
Qed.

Lemma en_un_pixels_witness :
  enFITSPixels LittleEndian
    (unFITSPixels LittleEndian [0; 255; 256; 65535] 4) 4
  = [0; 255; 256; 65535].
Proof.
  refine (proj1 (en_un_pixels LittleEndian [0; 255; 256; 65535] 4 _ _)).
  - unfold ushort. repeat constructor; lia.
  - simpl. lia.
Defined.

Lemma pixel_loop_bounds f : forall a n,
  length (pixel_loop f a n) = length a
  /\ drop n (pixel_loop f a n) = drop n a
  /\ take n (pixel_loop f a n) = map f (take n a).
Proof.
  induction a as [|v a IH]; intros [|n]; simpl; try done.
  destruct (IH n) as (H1 & H2 & H3). by rewrite H1, H2, H3.
Qed.

(** X23: the four conversions of the codec work on the first [npix] words
    of the buffer and on no other: the buffer keeps its length, the words
    from [npix] on are as they were, and with [npix] at or below 0 nothing
    changes. *)
Theorem codec_bounds host a npix :
  Forall (fun codec : endian -> list Z -> Z -> list Z =>
            length (codec host a npix) = length a
            /\ drop (Z.to_nat npix) (codec host a npix)
               = drop (Z.to_nat npix) a
            /\ (npix <= 0 -> codec host a npix = a))
    codecs.
Proof.
  assert (H : forall f,
    length (pixel_loop f a (Z.to_nat npix)) = length a
    /\ drop (Z.to_nat npix) (pixel_loop f a (Z.to_nat npix))
       = drop (Z.to_nat npix) a
    /\ (npix <= 0 -> pixel_loop f a (Z.to_nat npix) = a)).
  { intros f. destruct (pixel_loop_bounds f a (Z.to_nat npix)) as (H1 & H2 & _).
    split_and!; [done|done|]. intros Hn.
    replace (Z.to_nat npix) with 0%nat by lia. by destruct a. }
  unfold codecs.
  repeat (constructor;
          [unfold enFITSPixels, unFITSPixels, unFITSPixelsInt,
             unFITSPixelsFloat; destruct (lendian host);
           first [apply H | done]|]).
  constructor.
Qed.

Lemma un_pixel_le_load16 b0 b1 :
  un_pixel_le (load16 LittleEndian b0 b1)
  = int_sample (load16 BigEndian b0 b1).
Proof.
  pose proof (byte_val_bound b0). pose proof (byte_val_bound b1).
  rewrite un_pixel_le_bytes by (unfold load16; lia).
  unfold int_sample, load16, BZERO. Z.div_mod_to_equations. lia.
Qed.

Lemma un_pixel_words host : forall mem,
  map (if lendian host then un_pixel_le else un_pixel_be)
    (ushorts_of_bytes host mem)
  = map int_sample (ushorts_of_bytes BigEndian mem).
Proof.
  fix IH 1. intros [|b0 [|b1 mem]]; try reflexivity.
  cbn [ushorts_of_bytes map]. rewrite (IH mem). clear IH.
  apply (f_equal (fun x => x :: _)).
  destruct host.
  - rewrite lendian_LittleEndian. apply un_pixel_le_load16.
  - rewrite lendian_BigEndian. reflexivity.
Qed.

(** The 16-bit pixels of [readFITS], on either host. *)
Lemma short_samples host npixels imdata :
  convert_pixels host 16 npixels imdata
  = map int_sample
      (take (Z.to_nat npixels) (ushorts_of_bytes BigEndian imdata)).
Proof.
  unfold convert_pixels. rewrite decide_True by done.
  unfold unFITSPixels.
  rewrite <- firstn_map, <- (un_pixel_words host).
  pose proof (take_map_pixel_loop (fun v => v)) as Hid.
  destruct (lendian host).
  - specialize (Hid un_pixel_le (ushorts_of_bytes host imdata)
                  (Z.to_nat npixels)).
    rewrite map_id in Hid. rewrite Hid. by rewrite firstn_map.
  - specialize (Hid un_pixel_be (ushorts_of_bytes host imdata)
                  (Z.to_nat npixels)).
    rewrite map_id in Hid. rewrite Hid. by rewrite firstn_map.
Qed.

End ShortCodec.

Section ShortRead.

Variable host : endian.
Variable atof_times_1000 : list ascii -> Z.

(** The shorts of the first bytes of a buffer are shorts of the buffer. *)
Lemma ushorts_of_bytes_take h : forall mem k (i : nat) word,
  ushorts_of_bytes h (take k mem) !! i = Some word ->
  ushorts_of_bytes h mem !! i = Some word.
Proof.
  fix IH 1.
  intros [|b0 [|b1 mem]] [|[|k]] i word; try done.
  cbn [take ushorts_of_bytes]. destruct i as [|i]; [done|].
  cbn [lookup list_lookup]. apply IH.
Qed.

(** X24: from a file whose header declares BITPIX = 16, each sample that
    [readFITS] stores is the number that the two bytes at its place in the
    file make, most significant byte first, plus BZERO, modulo 65536, on a
    host of either byte order. And where width times height is at least 1
    and, times 16, within an int, and the file has the bytes, [readFITS]
    returns 0 with all the samples. *)
Theorem readFITS_short_samples fip fip0 fiph rest w :
  wf_store fip ->
  Forall (fun row => take 3 row <> chars "END") (var fip) ->
  allocs w = [] -> input w = file_reads fip rest ->
  crack_fields atof_times_1000 (set_var initFImage (var fip)) = inr fiph ->
  bitpix fiph = 16%Z ->
  (forall fipr w' a (i : nat) v,
      readFITS host atof_times_1000 fip0 w = (OK, fipr, w') ->
      image fipr = Some a -> a !! i = Some v ->
      exists word,
        ushorts_of_bytes BigEndian rest !! i = Some word
        /\ v = int_sample word)
  /\ (forall pixel_bytes tail,
        rest = pixel_bytes ++ tail ->
        let npixels := (sw fiph * sh fiph)%Z in
        (1 <= npixels)%Z -> (npixels * 16 <= 2147483647)%Z ->
        Z.of_nat (length pixel_bytes) = (npixels * 2)%Z ->
        exists fipr w',
          readFITS host atof_times_1000 fip0 w = (OK, fipr, w')
          /\ image fipr
             = Some (map int_sample (ushorts_of_bytes BigEndian pixel_bytes))).
Proof.
  intros Hwf Hne Ha Hi Hc Hbp. split.
  - intros fipr w' a i v Hrd Him Hv.
    destruct (readFITS_file_any host atof_times_1000 fip fip0 rest w fiph
                fipr w' Hwf Hne Ha Hi Hc Hrd) as (k & ->).
    cbn [image set_image set_bitpix] in Him. injection Him as <-.
    rewrite Hbp, short_samples in Hv.
    apply list_lookup_fmap_Some in Hv as (word & -> & Hword).
    apply lookup_take_Some in Hword as [Hword _].
    exists word. split; [by eapply ushorts_of_bytes_take|done].
  - intros pixel_bytes tail -> npixels Hn1 Hn32 Hlen.
    destruct (readFITS_file host atof_times_1000 fip fip0 _ w fiph
                Hwf Hne Ha Hi Hc) as (w' & Hrd).
    + done.
    + rewrite Hbp. change (Z.abs 16) with 16%Z. done.
    + rewrite Hbp. change (Z.abs 16 / 8)%Z with 2%Z. fold npixels.
      rewrite length_app. lia.
    + rewrite Hbp in Hrd. change (Z.abs 16 / 8)%Z with 2%Z in Hrd.
      fold npixels in Hrd.
      rewrite take_app_length' in Hrd by lia.
      rewrite short_samples in Hrd.
      rewrite take_ge in Hrd.
      2:{ rewrite length_ushorts_of_bytes.
          replace (length pixel_bytes) with (Z.to_nat npixels * 2) by lia.
          rewrite Nat.div_mul by lia. done. }
      eexists _, w'. split; [exact Hrd|]. done.
Qed.

End ShortRead.

Lemma readFITS_short_samples_witness :
  exists fipr w',
    readFITS LittleEndian (fun _ => 0%Z) initFImage short_file
    = (OK, fipr, w')
    /\ image fipr
       = Some (map int_sample (ushorts_of_bytes BigEndian (take 12 six_ints))).
Proof.
  refine (proj2 (readFITS_short_samples LittleEndian (fun _ => 0%Z)
                   (set_var initFImage naxis_1_rows) initFImage
                   (set_size (set_bitpix (set_var initFImage naxis_1_rows) 16)
                      2 3)
                   (take 12 six_ints ++ padding 12) short_file _ _ _ _ _ _)
            (take 12 six_ints) (padding 12) _ _ _ _).
  - apply wf_naxis_1_rows.
  - repeat constructor; discriminate.
  - reflexivity.
  - reflexivity.
  - reflexivity.
  - reflexivity.
  - reflexivity.
  - simpl. lia.
  - simpl. lia.
  - reflexivity.
Defined.

(** ** The nominal header and the files made with it *)

Lemma store_row_fresh fip name row w :
  findFImageVar fip name = None -> allocs w = [] ->
  length row = FITS_HCOLS ->
  store_row fip name row w
  = (set_var fip (var fip ++ [row]),
     mkWorld [] (input w) (wscript w) (output w)
       (live w + match var fip with [] => 1 | _ => 0 end)).
Proof.
  intros Hfind Ha Hlen. unfold store_row. rewrite Hfind.
  unfold addFImageVar, bind.
  destruct (var fip); unfold sys_malloc, sys_realloc, next_alloc;
    rewrite Ha; simpl; rewrite take_ge by lia; repeat f_equal; lia.
Qed.

Section NominalHeader.

Variable double : Type.
Variable double_of_int : Z -> double.
Variable double_div : double -> double -> double.
Variable fmt_G : Z -> double -> list ascii.

Lemma length_fmtRealFITS name v sigdig comment :
  length (fmtRealFITS double fmt_G name v sigdig comment) = FITS_HCOLS.
Proof.
  unfold fmtRealFITS. apply length_fmtInlineComment_eq.
  rewrite !length_app, length_field, length_rjust. simpl. lia.
Qed.

Lemma bears_fmtRealFITS name v sigdig comment :
  bears name (fmtRealFITS double fmt_G name v sigdig comment).
Proof.
  apply bears_take. unfold fmtRealFITS.
  rewrite take_fmtInlineComment.
  - rewrite take_app_length'; [done|by rewrite length_field].
  - lia.
  - rewrite !length_app, length_field, length_rjust. simpl. lia.
Qed.

(** A card of one keyword is not a card of a keyword with another field. *)
Ltac other_keyword :=
  let Hb := fresh in
  let He := fresh in
  intros Hb;
  first
    [ pose proof (bears_field_eq _ _ _ Hb (bears_fmtLogicalFITS _ _ _)) as He
    | pose proof (bears_field_eq _ _ _ Hb (bears_fmtIntFITS _ _ _)) as He
    | pose proof (bears_field_eq _ _ _ Hb (bears_fmtRealFITS _ _ _ _)) as He ];
  vm_compute in He; discriminate He.

Ltac no_card := apply findFImageVar_None; cbn [var set_var app];
  repeat (constructor; [other_keyword|]); constructor.

Ltac add_card :=
  unfold bind at 1;
  rewrite store_row_fresh;
    [ cbn [var set_var app fst snd allocs input wscript output live
           sw sh sx sy bx by_ dur bitpix image]
    | no_card | reflexivity
    | first [ apply length_fmtLogicalFITS | apply length_fmtIntFITS_eq
            | apply length_fmtRealFITS ] ].

(** With memory to be had [setSimpleFITSHeader] makes of an empty store
    the twelve cards of the nominal header. *)
Lemma setSimpleFITSHeader_quiet fip w :
  var fip = [] -> allocs w = [] ->
  setSimpleFITSHeader double double_of_int double_div fmt_G fip w
  = (set_var fip (simple_header double double_of_int double_div fmt_G fip),
     mkWorld [] (input w) (wscript w) (output w) (live w + 1)).
Proof.
  intros Hvar Ha. unfold setSimpleFITSHeader.
  change (setLogicalFITS ?f ?n ?v ?c) with (store_row f n (fmtLogicalFITS n v c)).
  change (setIntFITS ?f ?n ?v ?c) with (store_row f n (fmtIntFITS n v c)).
  change (setRealFITS double fmt_G ?f ?n ?v ?s ?c)
    with (store_row f n (fmtRealFITS double fmt_G n v s c)).
  unfold bind at 1. rewrite store_row_fresh;
    [|apply findFImageVar_None; rewrite Hvar; constructor|done
     |apply length_fmtLogicalFITS].
  rewrite Hvar. cbn [app].
  do 10 add_card.
  rewrite store_row_fresh;
    [ cbn [var set_var app fst snd allocs input wscript output live
           sw sh sx sy bx by_ dur bitpix image]
    | no_card | reflexivity | apply length_fmtRealFITS ].
  unfold simple_header. do 2 f_equal. lia.
Qed.

(** Where each keyword of the nominal header is found. *)
Lemma findFImageVar_at f name k row :
  var f !! k = Some row -> bears name row ->
  Forall (fun r => ~ bears name r) (take k (var f)) ->
  findFImageVar f name = Some k.
Proof.
  intros Hk Hrow Hbefore. apply findFImageVar_Some. exists row.
  split_and!; [done|done|].
  intros j y Hj Hlt. eapply Forall_lookup_1 in Hbefore; [exact Hbefore|].
  by rewrite lookup_take_lt.
Qed.

Ltac find_card :=
  eapply findFImageVar_at;
    [ reflexivity
    | first [ apply bears_fmtLogicalFITS | apply bears_fmtIntFITS
            | apply bears_fmtRealFITS ]
    | cbn [var set_var simple_header firstn];
      repeat (constructor; [other_keyword|]); constructor ].

Lemma getIntFITS_found f name k v comment :
  int_range v ->
  findFImageVar f name = Some k ->
  var f !! k = Some (fmtIntFITS name v comment) ->
  getIntFITS f name = Some v.
Proof.
  intros Hv Hfind Hrow. unfold getIntFITS. rewrite Hfind.
  rewrite (row_mem_lookup _ _ _ Hrow). f_equal. by apply atoi_fmtIntFITS.
Qed.

(** What the getters make of the nominal header. *)
Lemma simple_header_fields fip f :
  var f = simple_header double double_of_int double_div fmt_G fip ->
  int_range (bitpix fip) -> int_range (sw fip) -> int_range (sh fip) ->
  int_range (sx fip) -> int_range (sy fip) ->
  int_range (bx fip) -> int_range (by_ fip) ->
  getLogicalFITS f (chars "SIMPLE") = Some 1%Z
  /\ getIntFITS f (chars "BITPIX") = Some (bitpix fip)
  /\ getIntFITS f (chars "NAXIS") = Some 2%Z
  /\ getIntFITS f (chars "NAXIS1") = Some (sw fip)
  /\ getIntFITS f (chars "NAXIS2") = Some (sh fip)
  /\ getIntFITS f (chars "OFFSET1") = Some (sx fip)
  /\ getIntFITS f (chars "OFFSET2") = Some (sy fip)
  /\ getIntFITS f (chars "XFACTOR") = Some (bx fip)
  /\ getIntFITS f (chars "YFACTOR") = Some (by_ fip).
Proof.
  intros Hvar Hb Hw Hh Hx Hy Hbx Hby.
  assert (H0 : findFImageVar f (chars "SIMPLE") = Some 0)
    by (rewrite (findFImageVar_var
                   (set_var f (simple_header double double_of_int double_div
                                 fmt_G fip)) f _ Hvar);
        find_card).
  assert (H1 : findFImageVar f (chars "BITPIX") = Some 1)
    by (rewrite (findFImageVar_var
                   (set_var f (simple_header double double_of_int double_div
                                 fmt_G fip)) f _ Hvar);
        find_card).
  assert (H2 : findFImageVar f (chars "NAXIS") = Some 2)
    by (rewrite (findFImageVar_var
                   (set_var f (simple_header double double_of_int double_div
                                 fmt_G fip)) f _ Hvar);
        find_card).
  assert (H3 : findFImageVar f (chars "NAXIS1") = Some 3)
    by (rewrite (findFImageVar_var
                   (set_var f (simple_header double double_of_int double_div
                                 fmt_G fip)) f _ Hvar);
        find_card).
  assert (H4 : findFImageVar f (chars "NAXIS2") = Some 4)
    by (rewrite (findFImageVar_var
                   (set_var f (simple_header double double_of_int double_div
                                 fmt_G fip)) f _ Hvar);
        find_card).
  assert (H7 : findFImageVar f (chars "OFFSET1") = Some 7)
    by (rewrite (findFImageVar_var
                   (set_var f (simple_header double double_of_int double_div
                                 fmt_G fip)) f _ Hvar);
        find_card).
  assert (H8 : findFImageVar f (chars "OFFSET2") = Some 8)
    by (rewrite (findFImageVar_var
                   (set_var f (simple_header double double_of_int double_div
                                 fmt_G fip)) f _ Hvar);
        find_card).
  assert (H9 : findFImageVar f (chars "XFACTOR") = Some 9)
    by (rewrite (findFImageVar_var
                   (set_var f (simple_header double double_of_int double_div
                                 fmt_G fip)) f _ Hvar);
        find_card).
  assert (H10 : findFImageVar f (chars "YFACTOR") = Some 10)
    by (rewrite (findFImageVar_var
                   (set_var f (simple_header double double_of_int double_div
                                 fmt_G fip)) f _ Hvar);
        find_card).
  split_and!.
  - unfold getLogicalFITS. rewrite H0.
    erewrite row_mem_lookup by (rewrite Hvar; reflexivity).
    rewrite peek_fmtLogicalFITS. done.
  - eapply getIntFITS_found; [done|exact H1|by rewrite Hvar].
  - eapply getIntFITS_found; [|exact H2|by rewrite Hvar]. unfold int_range; lia.
  - eapply getIntFITS_found; [done|exact H3|by rewrite Hvar].
  - eapply getIntFITS_found; [done|exact H4|by rewrite Hvar].
  - eapply getIntFITS_found; [done|exact H7|by rewrite Hvar].
  - eapply getIntFITS_found; [done|exact H8|by rewrite Hvar].
  - eapply getIntFITS_found; [done|exact H9|by rewrite Hvar].
  - eapply getIntFITS_found; [done|exact H10|by rewrite Hvar].
Qed.


Lemma simple_header_wf fip :
  Forall wf_row (simple_header double double_of_int double_div fmt_G fip).
Proof.
  unfold simple_header, wf_row.
  repeat (constructor;
          [first [ apply length_fmtLogicalFITS | apply length_fmtIntFITS_eq
                 | apply length_fmtRealFITS ]|]).
  constructor.
Qed.

Lemma bears_not_END name row :
  bears name row -> take 3 (field name) <> chars "END" ->
  take 3 row <> chars "END".
Proof.
  intros Hb%bears_take Hn. rewrite <- Hb in Hn.
  rewrite take_take in Hn. exact Hn.
Qed.

Lemma simple_header_no_END fip :
  Forall (fun row => take 3 row <> chars "END")
    (simple_header double double_of_int double_div fmt_G fip).
Proof.
  unfold simple_header.
  repeat (constructor;
          [eapply bears_not_END;
           [first [ apply bears_fmtLogicalFITS | apply bears_fmtIntFITS
                  | apply bears_fmtRealFITS ]
           |vm_compute; discriminate]|]).
  constructor.
Qed.

(** A setter moves the block count of the world with that of the
    descriptor, and leaves the pixels alone. *)
Lemma store_row_held fip name row w fip' w' :
  store_row fip name row w = (fip', w') ->
  (live w' - held fip' = live w - held fip)%Z /\ image fip' = image fip.
Proof.
  unfold store_row. destruct (findFImageVar fip name) as [i|] eqn:Hf.
  - intros [= <- <-]. split; [|done]. unfold held. cbn [var set_var image].
    apply findFImageVar_Some in Hf as (r & Hr & _).
    destruct (var fip) as [|r0 rs]; [done|]. by destruct i.
  - apply addFImageVar_held.
Qed.

Lemma setSimpleFITSHeader_held fip w fip' w' :
  setSimpleFITSHeader double double_of_int double_div fmt_G fip w = (fip', w') ->
  (live w' - held fip' = live w - held fip)%Z /\ image fip' = image fip.
Proof.
  unfold setSimpleFITSHeader.
  change (setLogicalFITS ?f ?n ?v ?c) with (store_row f n (fmtLogicalFITS n v c)).
  change (setIntFITS ?f ?n ?v ?c) with (store_row f n (fmtIntFITS n v c)).
  change (setRealFITS double fmt_G ?f ?n ?v ?s ?c)
    with (store_row f n (fmtRealFITS double fmt_G n v s c)).
  do 11 (unfold bind at 1;
         let f := fresh "f" in let w := fresh "w" in let H := fresh "H" in
         destruct (store_row _ _ _ _) as [f w] eqn:H;
         apply store_row_held in H as [? ?]).
  intros [? ?]%store_row_held. split; congruence.
Qed.

Variables host_w host_r : endian.
Variable atof_times_1000 : list ascii -> Z.

(** X25: however the call ends, a header row that [writeSimpleFITS] stored
    leaves one block of memory allocated behind it: the rows of the local
    descriptor are never freed. The status is 0 or -1, and the caller's
    buffer is not given up. *)
Theorem writeSimpleFITS_leaks pix w h x y dur restore wd st fimage wd' :
  writeSimpleFITS double double_of_int double_div fmt_G host_w pix w h x y dur
    restore wd = (st, fimage, wd') ->
  live wd' = (live wd + match var fimage with [] => 0 | _ => 1 end)%Z
  /\ (st = 0 \/ st = -1)%Z
  /\ (image fimage = None <-> pix = None).
Proof.
  unfold writeSimpleFITS. unfold bind at 1.
  destruct (setSimpleFITSHeader _ _ _ _ _ _) as [f1 w1] eqn:Hs.
  apply setSimpleFITSHeader_held in Hs as [Hl Hi].
  unfold held in Hl. cbn [var image initFImage set_size set_sx set_sy set_dur
                          set_bitpix set_image] in Hl, Hi.
  unfold bind at 1.
  destruct (writeFITS host_w f1 restore w1) as [[st1 f2] w2] eqn:Hw.
  apply writeFITS_any in Hw as (Hset & Him & Hlive).
  intros [= <- <- <-].
  assert (Hvar : var f2 = var f1) by (rewrite <- Hset; done).
  rewrite Hvar, Hlive. split_and!.
  - rewrite <- Hi in Hl. destruct (var f1), (image f1); lia.
  - destruct st1; auto.
  - rewrite Him, Hi. done.
Qed.

(** X26: with nothing failing, the file [writeSimpleFITS] makes of [w] by [h]
    unsigned shorts, [w] and [h] at least 1 and [w * h * 16] within an int,
    is one block of twelve cards and END, then the pixels and their
    padding; [readFITS] on a host of either byte order accepts it and
    returns the pixels, the size, the offsets [x] and [y], binning one by
    one and BITPIX 16. *)
Theorem writeSimpleFITS_readFITS pix w h x y dur restore w_w :
  Forall ushort pix ->
  (1 <= w)%Z -> (1 <= h)%Z -> (w * h * 16 <= 2147483647)%Z ->
  Z.of_nat (length pix) = (w * h)%Z ->
  int_range x -> int_range y ->
  allocs w_w = [] -> wscript w_w = [] ->
  exists fimage ww rest,
    writeSimpleFITS double double_of_int double_div fmt_G host_w (Some pix)
      w h x y dur restore w_w = (0%Z, fimage, ww)
    /\ length (var fimage) = 12
    /\ output ww = output w_w ++ header_block fimage ++ rest
    /\ length (header_block fimage) = 2880
    /\ forall fip0 w_r,
         allocs w_r = [] -> input w_r = file_reads fimage rest ->
         exists fipr w',
           readFITS host_r atof_times_1000 fip0 w_r = (OK, fipr, w')
           /\ image fipr = Some pix
           /\ var fipr = var fimage
           /\ sw fipr = w /\ sh fipr = h /\ sx fipr = x /\ sy fipr = y
           /\ bx fipr = 1%Z /\ by_ fipr = 1%Z /\ bitpix fipr = 16%Z.
Proof.
  intros Hpix Hw Hh Hfit Hlen Hx Hy Ha Hs.
  assert (Hne : pix <> []) by (intros ->; simpl in Hlen; nia).
  assert (Hwr : int_range w /\ int_range h) by (unfold int_range; nia).
  destruct Hwr as [Hwr Hhr].
  unfold writeSimpleFITS.
  set (f0 := set_image _ _).
  set (rows := simple_header double double_of_int double_div fmt_G f0).
  unfold bind at 1.
  rewrite setSimpleFITSHeader_quiet by done. fold rows.
  set (f1 := set_var f0 rows).
  set (w1 := mkWorld _ _ _ _ _).
  assert (Hwf : wf_store f1) by apply simple_header_wf.
  pose proof (writeFITS_quiet host_w f1 pix restore w1 Hwf eq_refl Hs eq_refl
                Hne Hlen ltac:(simpl; lia)) as Hwrite.
  cbv zeta in Hwrite. unfold bind at 1. rewrite Hwrite.
  change (sw f1) with w. change (sh f1) with h.
  set (npix := (w * h)%Z).
  set (a1 := enFITSPixels host_w pix npix).
  cbn [ret].
  eexists _, _, (bytes_of_ushorts host_w a1 ++ padding (npix * 2)).
  split; [reflexivity|].
  split; [reflexivity|].
  split; [reflexivity|].
  split.
  { rewrite length_header_block by done. reflexivity. }
  intros fip0 w_r Har Hir.
  set (fw := set_image f1 _) in *.
  assert (Hvfw : var fw = rows) by reflexivity.
  destruct (simple_header_fields f0 (set_var initFImage (var fw)) eq_refl)
    as (G0 & G1 & G2 & G3 & G4 & G7 & G8 & G9 & G10);
    try done; try (unfold int_range; simpl; lia).
  cbn [sw sh sx sy bx by_ bitpix f0 set_image set_bitpix set_dur set_sx set_sy
       set_size initFImage] in G1, G3, G4, G7, G8, G9, G10.
  assert (Hax : getNAXIS (set_var initFImage (var fw)) = inr (w, h)).
  { rewrite (getNAXIS_below_3 _ 2%Z) by (done || lia). by rewrite G3, G4. }
  destruct (crack_fields_accepts atof_times_1000 _ 16%Z w h G0 G1
              ltac:(auto) Hax) as (fiph & Hc & Hb & Hsw & Hsh).
  pose proof (crack_fields_spec atof_times_1000 _ _ Hc)
    as (Hv & _ & _ & _ & _ & _ & H5 & H6 & H7 & H8 & _).
  rewrite G9 in H5. rewrite G10 in H6. rewrite G7 in H7. rewrite G8 in H8.
  simpl in H5, H6, H7, H8.
  assert (Hla1 : length a1 = length pix).
  { unfold a1. rewrite enFITSPixels_map by lia. apply length_map. }
  assert (Hbl : length (bytes_of_ushorts host_w a1) = Z.to_nat (npix * 2)).
  { rewrite length_bytes_of_ushorts, Hla1. lia. }
  destruct (readFITS_file host_r atof_times_1000 fw fip0 _ w_r fiph
              Hwf (simple_header_no_END f0) Har Hir Hc) as (w' & Hrd).
  - rewrite Hsw, Hsh. nia.
  - rewrite Hb, Hsw, Hsh. change (Z.abs 16) with 16%Z. done.
  - rewrite Hb, Hsw, Hsh. change (Z.abs 16 / 8)%Z with 2%Z. fold npix.
    rewrite length_app. lia.
  - rewrite Hb, Hsw, Hsh in Hrd. change (Z.abs 16 / 8)%Z with 2%Z in Hrd.
    fold npix in Hrd.
    rewrite take_app_length' in Hrd by done.
    unfold a1 in Hrd. rewrite convert_written_pixels in Hrd by (done || lia).
    eexists _, w'. split; [exact Hrd|]. simpl.
    rewrite Hv, Hsw, Hsh, H5, H6, H7, H8. done.
Qed.

End NominalHeader.

Lemma writeSimpleFITS_leaks_witness :
  let r := writeSimpleFITS Z id Z.div whole_G LittleEndian (Some six_shorts)
             2 3 0 0 1000 true quiet_world in
  live r.2 = (live quiet_world + match var r.1.2 with [] => 0 | _ => 1 end)%Z
  /\ (r.1.1 = 0 \/ r.1.1 = -1)%Z
  /\ (image r.1.2 = None <-> Some six_shorts = None).
Proof.
  intros r.
  exact (writeSimpleFITS_leaks Z id Z.div whole_G LittleEndian
           (Some six_shorts) 2 3 0 0 1000 true quiet_world r.1.1 r.1.2 r.2
           ltac:(vm_compute; reflexivity)).
Defined.

Lemma writeSimpleFITS_readFITS_witness :
  exists fimage ww rest,
    writeSimpleFITS Z id Z.div whole_G LittleEndian (Some six_shorts)
      2 3 10 20 1000 false quiet_world = (0%Z, fimage, ww)
    /\ length (var fimage) = 12
    /\ output ww = output quiet_world ++ header_block fimage ++ rest
    /\ length (header_block fimage) = 2880
    /\ forall fip0 w_r,
         allocs w_r = [] -> input w_r = file_reads fimage rest ->
         exists fipr w',
           readFITS BigEndian (fun _ => 0%Z) fip0 w_r = (OK, fipr, w')
           /\ image fipr = Some six_shorts
           /\ var fipr = var fimage
           /\ sw fipr = 2%Z /\ sh fipr = 3%Z /\ sx fipr = 10%Z
           /\ sy fipr = 20%Z
           /\ bx fipr = 1%Z /\ by_ fipr = 1%Z /\ bitpix fipr = 16%Z.
Proof.
  apply (writeSimpleFITS_readFITS Z id Z.div whole_G LittleEndian BigEndian
           (fun _ => 0%Z) six_shorts 2 3 10 20 1000 false quiet_world).
  - unfold ushort, six_shorts. repeat constructor; lia.
  - lia.
  - lia.
  - lia.
  - reflexivity.
  - unfold int_range. lia.
  - unfold int_range. lia.
  - reflexivity.
  - reflexivity.
Defined.
